(** * tg-bot-gbc: order ledger, rate limiter, backend retry policy,
      button payload parsing and the order monitor

    A shallow embedding of the parts of the bot that carry its invariants:

    - [Ledger]    : [database/db_service.py], the [processed_orders] and
                    [error_log] tables and the methods of [DatabaseService]
                    that read and write them;
    - [RateLimit] : [services/rate_limiter.py], the fixed window counter
                    over a Redis server;
    - [Gateway]   : [services/retailcrm_service.py], the two request helpers
                    and the retry policy that decorates them;
    - [Callback]  : [handlers/order_callback_handler.py],
                    [parse_callback_data];
    - [Monitor]   : [services/order_monitor_service.py], the fan-out of one
                    notification, the detection of orders that came back
                    from the no-product status and one monitoring pass;
    - [Settings]  : [config/settings.py], [get_admin_full_config];
    - [Handler]   : [handlers/order_callback_handler.py], the handlers of
                    the buttons for confirming an order and for discussing
                    replacements, over the four modules above.

    Modelling boundary.  SQLite executes every statement it is given: the
    [except] branches of [DatabaseService], which only run when [sqlite3]
    raises, are not part of the model, so a method is its [try] block.
    Faults of Redis, of the HTTP transport and of the Telegram API are part
    of the model, since the code has a stated policy for each of them. *)

From Stdlib Require Import ZArith String Ascii List Lia Bool.
From Stdlib Require Import Decimal DecimalString DecimalPos DecimalZ.
From stdpp Require Import base option gmap strings list sorting.

Local Open Scope Z_scope.

(** ** The ledger: [database/db_service.py] *)

Module Ledger.

(** A row of [processed_orders].  The column [order_id] is [UNIQUE NOT NULL]
    and is the key of the table below; [po_rowid] is the [AUTOINCREMENT]
    primary key.  The three [BOOLEAN] columns only ever hold 0 or 1.
    [total_sum] is a [REAL] that the ledger stores and never computes with;
    it is carried as an integer amount.  Timestamps are seconds. *)
Record ProcessedOrder := {
  po_rowid : Z;
  order_number : string;
  status : string;
  total_sum : option Z;
  customer_name : option string;
  warehouse_code : option string;
  delivery_type : option string;
  was_in_no_product : bool;
  returned_from_no_product : bool;
  bouquet_ready_notified : bool;
  created_at : Z;
  updated_at : Z;
  notified_at : Z
}.

(** A row of [error_log]. *)
Record ErrorRow := {
  error_type : string;
  error_message : string;
  error_order_id : option Z;
  error_timestamp : Z
}.

(** The database file: the table of processed orders keyed by [order_id],
    the counter behind [AUTOINCREMENT], and the error log, oldest first. *)
Record Db := {
  processed_orders : gmap Z ProcessedOrder;
  processed_seq : Z;
  error_log : list ErrorRow
}.

Definition empty_db : Db :=
  {| processed_orders := ∅; processed_seq := 0; error_log := [] |}.

Definition with_processed (t : gmap Z ProcessedOrder) (db : Db) : Db :=
  {| processed_orders := t;
     processed_seq := processed_seq db;
     error_log := error_log db |}.

(** The number of rows that [WHERE order_id = ?] selects: the column is
    [UNIQUE], so it is 0 or 1.  This is what [SELECT COUNT( * )] returns. *)
Definition sql_count (order_id : Z) (t : gmap Z ProcessedOrder) : Z :=
  match t !! order_id with Some _ => 1 | None => 0 end.

(** [UPDATE processed_orders SET ... WHERE order_id = ?]: the new table
    and [cursor.rowcount]. *)
Definition sql_update (f : ProcessedOrder -> ProcessedOrder) (order_id : Z)
    (t : gmap Z ProcessedOrder) : gmap Z ProcessedOrder * Z :=
  (alter f order_id t, sql_count order_id t).

(** [DELETE FROM processed_orders WHERE order_id = ?]. *)
Definition sql_delete (order_id : Z) (t : gmap Z ProcessedOrder)
    : gmap Z ProcessedOrder * Z :=
  (delete order_id t, sql_count order_id t).

Definition is_order_processed (db : Db) (order_id : Z) : bool :=
  bool_decide (0 < sql_count order_id (processed_orders db)).

(** [INSERT OR REPLACE INTO processed_orders (order_id, order_number, status,
    total_sum, customer_name, warehouse_code, delivery_type,
    was_in_no_product, returned_from_no_product, updated_at)
    VALUES (?, ?, ?, ?, ?, ?, ?, 0, 0, CURRENT_TIMESTAMP)].
    A row in conflict on [order_id] is deleted first; the columns that are
    not listed take their defaults. *)
Definition save_processed_order (now : Z) (order_id : Z) (number : string)
    (st : string) (delivery : option string) (sum : option Z)
    (customer : option string) (warehouse : option string) (db : Db)
    : bool * Db :=
  let row := {| po_rowid := processed_seq db + 1;
                order_number := number;
                status := st;
                total_sum := sum;
                customer_name := customer;
                warehouse_code := warehouse;
                delivery_type := delivery;
                was_in_no_product := false;
                returned_from_no_product := false;
                bouquet_ready_notified := false;
                created_at := now;
                updated_at := now;
                notified_at := now |} in
  (true,
   {| processed_orders := <[order_id := row]> (processed_orders db);
      processed_seq := processed_seq db + 1;
      error_log := error_log db |}).

Definition set_was_in_no_product (now : Z) (r : ProcessedOrder)
    : ProcessedOrder :=
  {| po_rowid := po_rowid r;
     order_number := order_number r;
     status := status r;
     total_sum := total_sum r;
     customer_name := customer_name r;
     warehouse_code := warehouse_code r;
     delivery_type := delivery_type r;
     was_in_no_product := true;
     returned_from_no_product := returned_from_no_product r;
     bouquet_ready_notified := bouquet_ready_notified r;
     created_at := created_at r;
     updated_at := now;
     notified_at := notified_at r |}.

Definition set_returned_from_no_product (now : Z) (r : ProcessedOrder)
    : ProcessedOrder :=
  {| po_rowid := po_rowid r;
     order_number := order_number r;
     status := status r;
     total_sum := total_sum r;
     customer_name := customer_name r;
     warehouse_code := warehouse_code r;
     delivery_type := delivery_type r;
     was_in_no_product := was_in_no_product r;
     returned_from_no_product := true;
     bouquet_ready_notified := bouquet_ready_notified r;
     created_at := created_at r;
     updated_at := now;
     notified_at := notified_at r |}.

Definition set_bouquet_ready_notified (now : Z) (r : ProcessedOrder)
    : ProcessedOrder :=
  {| po_rowid := po_rowid r;
     order_number := order_number r;
     status := status r;
     total_sum := total_sum r;
     customer_name := customer_name r;
     warehouse_code := warehouse_code r;
     delivery_type := delivery_type r;
     was_in_no_product := was_in_no_product r;
     returned_from_no_product := returned_from_no_product r;
     bouquet_ready_notified := true;
     created_at := created_at r;
     updated_at := now;
     notified_at := notified_at r |}.

(** The method returns [True] once the statement has run, whatever
    [rowcount] is. *)
Definition mark_order_in_no_product (now : Z) (order_id : Z) (db : Db)
    : bool * Db :=
  let '(t, _) := sql_update (set_was_in_no_product now) order_id
                   (processed_orders db) in
  (true, with_processed t db).

Definition mark_order_returned_from_no_product (now : Z) (order_id : Z)
    (db : Db) : bool * Db :=
  let '(t, _) := sql_update (set_returned_from_no_product now) order_id
                   (processed_orders db) in
  (true, with_processed t db).

(** Here the result is [cursor.rowcount > 0]. *)
Definition mark_bouquet_ready_notified (now : Z) (order_id : Z) (db : Db)
    : bool * Db :=
  let '(t, rowcount) := sql_update (set_bouquet_ready_notified now) order_id
                          (processed_orders db) in
  (bool_decide (0 < rowcount), with_processed t db).

Definition was_order_in_no_product (db : Db) (order_id : Z) : bool :=
  match processed_orders db !! order_id with
  | Some r => was_in_no_product r
  | None => false
  end.

Definition is_order_returned_from_no_product (db : Db) (order_id : Z) : bool :=
  match processed_orders db !! order_id with
  | Some r => returned_from_no_product r
  | None => false
  end.

Definition is_bouquet_ready_notified (db : Db) (order_id : Z) : bool :=
  match processed_orders db !! order_id with
  | Some r => bouquet_ready_notified r
  | None => false
  end.

(** [reset_order_status]: the unguarded delete. *)
Definition reset_order_status (order_id : Z) (db : Db) : bool * Db :=
  let '(t, rowcount) := sql_delete order_id (processed_orders db) in
  (bool_decide (0 < rowcount), with_processed t db).

(** [reset_order_for_renotification]: the row is read first; the method
    leaves with [False] before any write when there is no row or its
    [was_in_no_product] is 0. *)
Definition reset_order_for_renotification (order_id : Z) (db : Db)
    : bool * Db :=
  match processed_orders db !! order_id with
  | None => (false, db)
  | Some r =>
      if negb (was_in_no_product r) then (false, db)
      else
        let '(t, rowcount) := sql_delete order_id (processed_orders db) in
        (bool_decide (0 < rowcount), with_processed t db)
  end.

(** [ORDER BY created_at DESC]: a row goes before another one when it was
    created no earlier. *)
Definition created_desc (a b : Z * ProcessedOrder) : Prop :=
  created_at b.2 <= created_at a.2.

#[global] Instance created_desc_dec a b : Decision (created_desc a b).
Proof. unfold created_desc; apply _. Defined.

(** [get_all_processed_orders]: every row with its [order_id], newest
    first.  SQLite leaves the order of rows with equal [created_at] open;
    here it is the one the sort gives. *)
Definition get_all_processed_orders (db : Db) : list (Z * ProcessedOrder) :=
  merge_sort created_desc (map_to_list (processed_orders db)).

(** [log_error]: one more row in [error_log]. *)
Definition log_error (now : Z) (ty msg : string) (order_id : option Z)
    (db : Db) : Db :=
  {| processed_orders := processed_orders db;
     processed_seq := processed_seq db;
     error_log := error_log db ++
       [ {| error_type := ty; error_message := msg;
            error_order_id := order_id; error_timestamp := now |} ] |}.

(** A ledger with one row, order 7, that went to the no-product status and
    came back from it. *)
Definition flagged_row : ProcessedOrder :=
  {| po_rowid := 1; order_number := "A-7"; status := "target";
     total_sum := Some 1500; customer_name := None;
     warehouse_code := Some "20"; delivery_type := Some "courier";
     was_in_no_product := true; returned_from_no_product := true;
     bouquet_ready_notified := false;
     created_at := 100; updated_at := 140; notified_at := 100 |}.

Definition flagged_db : Db :=
  {| processed_orders := {[ 7 := flagged_row ]};
     processed_seq := 1; error_log := [] |}.

(** A ledger with one row, order 7, as [save_processed_order] writes it. *)
Definition plain_row : ProcessedOrder :=
  {| po_rowid := 1; order_number := "A-7"; status := "target";
     total_sum := Some 1500; customer_name := None;
     warehouse_code := Some "20"; delivery_type := Some "self-delivery";
     was_in_no_product := false; returned_from_no_product := false;
     bouquet_ready_notified := false;
     created_at := 100; updated_at := 100; notified_at := 100 |}.

Definition plain_db : Db :=
  {| processed_orders := {[ 7 := plain_row ]};
     processed_seq := 1; error_log := [] |}.

(** *** The rest of the ledger *)

(** [add_processed_order], the older way to record an order: a plain
    [INSERT], which the [UNIQUE] column refuses for an order that has a
    row; the [IntegrityError] is caught and only logged.  The columns that
    are not listed take their defaults. *)
Definition add_processed_order (now : Z) (order_id : Z) (number : string)
    (st : string) (sum : option Z) (db : Db) : Db :=
  match processed_orders db !! order_id with
  | Some _ => db
  | None =>
      {| processed_orders :=
           <[order_id :=
               {| po_rowid := processed_seq db + 1;
                  order_number := number;
                  status := st;
                  total_sum := sum;
                  customer_name := None;
                  warehouse_code := None;
                  delivery_type := None;
                  was_in_no_product := false;
                  returned_from_no_product := false;
                  bouquet_ready_notified := false;
                  created_at := now;
                  updated_at := now;
                  notified_at := now |}]> (processed_orders db);
         processed_seq := processed_seq db + 1;
         error_log := error_log db |}
  end.

(** [get_order_delivery_type]: the column of the row, [None] without a
    row. *)
Definition get_order_delivery_type (db : Db) (order_id : Z)
    : option string :=
  match processed_orders db !! order_id with
  | Some r => delivery_type r
  | None => None
  end.

(** A row is old for a cutoff when [notified_at < ?] holds.  The column
    holds a text with whole seconds and the parameter is the text of a
    [datetime] with microseconds; as texts they compare as the instants
    do, counted in microseconds. *)
Definition old (cutoff : Z) (row : Z * ProcessedOrder) : Prop :=
  notified_at row.2 * 1000000 < cutoff.

#[global] Instance old_dec cutoff row : Decision (old cutoff row).
Proof. unfold old; apply _. Defined.

(** [remove_old_processed_orders]: [datetime_now] is [datetime.now()] in
    microseconds; the result is [cursor.rowcount]. *)
Definition remove_old_processed_orders (datetime_now : Z) (days : Z)
    (db : Db) : Z * Db :=
  let cutoff_date := datetime_now - days * 86400 * 1000000 in
  (Z.of_nat (size (filter (old cutoff_date) (processed_orders db))),
   with_processed
     (filter (fun row => ~ old cutoff_date row) (processed_orders db)) db).

(** *** Actions of the administrators and their daily statistics *)

Record OrderAction := {
  action_order_id : Z;
  action_admin_id : Z;
  action : string;
  comment : option string;
  action_time : Z
}.

Record AdminStat := {
  confirmed_count : Z;
  rejected_count : Z;
  completed_count : Z
}.

(** The tables [order_actions], oldest first, and [admin_stats], which is
    [UNIQUE(admin_id, date)]; a date is a number of days. *)
Record Audit := {
  order_actions : list OrderAction;
  admin_stats : gmap (Z * Z) AdminStat
}.

Definition empty_audit : Audit :=
  {| order_actions := []; admin_stats := ∅ |}.

Definition count_action (act : string) (s : AdminStat) : AdminStat :=
  if bool_decide (act = "confirmed"%string) then
    {| confirmed_count := confirmed_count s + 1;
       rejected_count := rejected_count s;
       completed_count := completed_count s |}
  else if bool_decide (act = "rejected"%string) then
    {| confirmed_count := confirmed_count s;
       rejected_count := rejected_count s + 1;
       completed_count := completed_count s |}
  else if bool_decide (act = "completed"%string) then
    {| confirmed_count := confirmed_count s;
       rejected_count := rejected_count s;
       completed_count := completed_count s + 1 |}
  else s.

Definition first_action (act : string) : AdminStat :=
  {| confirmed_count := if bool_decide (act = "confirmed"%string)
                        then 1 else 0;
     rejected_count := if bool_decide (act = "rejected"%string)
                       then 1 else 0;
     completed_count := if bool_decide (act = "completed"%string)
                        then 1 else 0 |}.

(** [_update_admin_stats]: the row of the day is looked up; it is updated
    for one of the three counted actions, or created. *)
Definition _update_admin_stats (today : Z) (admin_id : Z) (act : string)
    (stats : gmap (Z * Z) AdminStat) : gmap (Z * Z) AdminStat :=
  match stats !! (admin_id, today) with
  | Some existing => <[(admin_id, today) := count_action act existing]> stats
  | None => <[(admin_id, today) := first_action act]> stats
  end.

(** [log_order_action]: the action is appended, then the statistics are
    updated. *)
Definition log_order_action (now today : Z) (order_id admin_id : Z)
    (act : string) (note : option string) (a : Audit) : Audit :=
  {| order_actions :=
       order_actions a ++
       [ {| action_order_id := order_id; action_admin_id := admin_id;
            action := act; comment := note; action_time := now |} ];
     admin_stats := _update_admin_stats today admin_id act (admin_stats a) |}.

(** [SUM(column) ... WHERE admin_id = ? AND date >= ?], 0 without rows. *)
Definition sum_stats (column : AdminStat -> Z) (admin_id start_date : Z)
    (stats : gmap (Z * Z) AdminStat) : Z :=
  map_fold (fun key row acc =>
              if bool_decide (key.1 = admin_id /\ start_date <= key.2)
              then acc + column row else acc) 0 stats.

(** What one row adds to such a sum. *)
Definition counted (column : AdminStat -> Z) (admin_id start_date : Z)
    (key : Z * Z) (row : AdminStat) : Z :=
  if bool_decide (key.1 = admin_id /\ start_date <= key.2)
  then column row else 0.

Record Totals := {
  confirmed : Z;
  rejected : Z;
  completed : Z;
  total : Z
}.

(** [get_admin_stats]: the sums over the last [days] days; ['total'] is
    the confirmed and the rejected orders. *)
Definition get_admin_stats (today : Z) (admin_id : Z) (days : Z) (a : Audit)
    : Totals :=
  let start_date := today - days in
  let total_confirmed :=
    sum_stats confirmed_count admin_id start_date (admin_stats a) in
  let total_rejected :=
    sum_stats rejected_count admin_id start_date (admin_stats a) in
  let total_completed :=
    sum_stats completed_count admin_id start_date (admin_stats a) in
  {| confirmed := total_confirmed;
     rejected := total_rejected;
     completed := total_completed;
     total := total_confirmed + total_rejected |}.

End Ledger.

(** ** The rate limiter: [services/rate_limiter.py] *)

Module RateLimit.

(** *** The Redis server

    A key holds an integer and, when a time to live was set, the instant, in
    milliseconds, after which the key is gone.  The limiter only ever writes
    its keys with [INCR], so the values are integers. *)
Record Entry := {
  value : Z;
  expire_at : option Z
}.

(** A key is expired once the clock of the server is past [expire_at]. *)
Definition live (now : Z) (e : Entry) : bool :=
  match expire_at e with
  | None => true
  | Some t => bool_decide (now <= t)
  end.

(** What the server sees under [key] at [now]: expired keys read as absent. *)
Definition read (now : Z) (key : string) (srv : gmap string Entry)
    : option Entry :=
  match srv !! key with
  | Some e => if live now e then Some e else None
  | None => None
  end.

(** The answer of the client to one command: a value, or an exception
    ([redis.RedisError] or any other). *)
Inductive reply (A : Type) :=
  | Reply (a : A)
  | Raised.
Arguments Reply {A} a.
Arguments Raised {A}.

Definition int64_max : Z := 9223372036854775807.

(** [INCR key]: an absent key counts as 0 and the new key has no time to
    live; an existing key keeps the one it has.  The server refuses to go
    past a signed 64-bit integer. *)
Definition incr (now : Z) (key : string) (srv : gmap string Entry)
    : reply Z * gmap string Entry :=
  match read now key srv with
  | None =>
      (Reply 1, <[key := {| value := 1; expire_at := None |}]> srv)
  | Some e =>
      if bool_decide (value e = int64_max) then (Raised, srv)
      else (Reply (value e + 1),
            <[key := {| value := value e + 1; expire_at := expire_at e |}]> srv)
  end.

(** [EXPIRE key seconds]: 1 when the key exists, 0 otherwise; a time to live
    that is not positive deletes the key. *)
Definition expire (now : Z) (key : string) (seconds : Z)
    (srv : gmap string Entry) : reply Z * gmap string Entry :=
  match read now key srv with
  | None => (Reply 0, srv)
  | Some e =>
      if bool_decide (seconds <= 0) then (Reply 1, delete key srv)
      else (Reply 1,
            <[key := {| value := value e;
                        expire_at := Some (now + seconds * 1000) |}]> srv)
  end.

(** [TTL key]: -2 for an absent key, -1 for a key without a time to live,
    else the seconds that are left, rounded. *)
Definition ttl (now : Z) (key : string) (srv : gmap string Entry)
    : reply Z * gmap string Entry :=
  match read now key srv with
  | None => (Reply (-2), srv)
  | Some e =>
      match expire_at e with
      | None => (Reply (-1), srv)
      | Some t => (Reply ((t - now + 500) / 1000), srv)
      end
  end.

(** The state of the connection when a command is sent: the command goes
    through, or the client raises before the server got it, or the client
    raises (a timeout) although the server ran it. *)
Inductive Link := Up | DownBefore | DownAfter.

Definition send {A : Type} (link : Link)
    (cmd : gmap string Entry -> reply A * gmap string Entry)
    (srv : gmap string Entry) : reply A * gmap string Entry :=
  match link with
  | Up => cmd srv
  | DownBefore => (Raised, srv)
  | DownAfter => (Raised, (cmd srv).2)
  end.

(** The connection during one call of [check_rate_limit], one state for each
    of the three commands the call may send. *)
Record Net := {
  net_incr : Link;
  net_expire : Link;
  net_ttl : Link
}.

Definition all_up : Net :=
  {| net_incr := Up; net_expire := Up; net_ttl := Up |}.

(** *** The limiter *)

(** [self.redis] is [None] when the constructor could not reach the server. *)
Record RateLimiter := {
  redis : option unit;
  prefix : string
}.

Definition _get_key (self : RateLimiter) (identifier action : string)
    : string :=
  (prefix self ++ ":" ++ action ++ ":" ++ identifier)%string.

(** The [try] block of [check_rate_limit]: the pair it returns, or the
    exception that left it, and the server afterwards. *)
Definition check_body (self : RateLimiter) (net : Net) (now : Z)
    (identifier action : string) (limit window : Z)
    (srv : gmap string Entry) : reply (bool * Z) * gmap string Entry :=
  let key := _get_key self identifier action in
  match send (net_incr net) (incr now key) srv with
  | (Raised, srv1) => (Raised, srv1)
  | (Reply current, srv1) =>
      let '(set, srv2) :=
        if bool_decide (current = 1)
        then send (net_expire net) (expire now key window) srv1
        else (Reply 0, srv1) in
      match set with
      | Raised => (Raised, srv2)
      | Reply _ =>
          let remaining := Z.max 0 (limit - current) in
          let is_limited := bool_decide (limit < current) in
          if is_limited then
            match send (net_ttl net) (ttl now key) srv2 with
            | (Raised, srv3) => (Raised, srv3)
            | (Reply _, srv3) => (Reply (is_limited, remaining), srv3)
            end
          else (Reply (is_limited, remaining), srv2)
      end
  end.

(** [check_rate_limit]: [(is_limited, remaining)].  Without a client, and
    on every exception, the answer is [(False, limit)]. *)
Definition check_rate_limit (self : RateLimiter) (net : Net) (now : Z)
    (identifier action : string) (limit window : Z)
    (srv : gmap string Entry) : (bool * Z) * gmap string Entry :=
  match redis self with
  | None => ((false, limit), srv)
  | Some _ =>
      match check_body self net now identifier action limit window srv with
      | (Reply r, srv') => (r, srv')
      | (Raised, srv') => ((false, limit), srv')
      end
  end.

(** Calls of [check_rate_limit] by one user for one action at the given
    instants, over a connection that works: the answers in order, and the
    server after the last call. *)
Fixpoint check_at (self : RateLimiter) (identifier action : string)
    (limit window : Z) (times : list Z) (srv : gmap string Entry)
    : list (bool * Z) * gmap string Entry :=
  match times with
  | [] => ([], srv)
  | now :: rest =>
      let '(r, srv1) :=
        check_rate_limit self all_up now identifier action limit window srv in
      let '(rs, srv2) :=
        check_at self identifier action limit window rest srv1 in
      (r :: rs, srv2)
  end.

(** The count the server holds for a key at [now]. *)
Definition count (now : Z) (key : string) (srv : gmap string Entry) : Z :=
  match read now key srv with
  | Some e => value e
  | None => 0
  end.

(** Some command that a call of [check_rate_limit] sends raises: [INCR]
    (the connection is down, or the counter is at its maximum), [EXPIRE]
    (sent when the count was 0) or [TTL] (sent when the new count is over
    the limit). *)
Definition command_raises (net : Net) (now : Z) (key : string) (limit : Z)
    (srv : gmap string Entry) : Prop :=
  net_incr net <> Up \/
  count now key srv = int64_max \/
  (count now key srv = 0 /\ net_expire net <> Up) \/
  (limit < count now key srv + 1 /\ net_ttl net <> Up).

(** The limiter of the handlers, and the one that could not connect. *)
Definition connected : RateLimiter :=
  {| redis := Some (); prefix := "rate_limit" |}.

Definition fallback : RateLimiter :=
  {| redis := None; prefix := "rate_limit" |}.

(** *** The two other operations of the limiter *)

(** [DEL key]: the number of keys removed. *)
Definition del (now : Z) (key : string) (srv : gmap string Entry)
    : reply Z * gmap string Entry :=
  match read now key srv with
  | Some _ => (Reply 1, delete key srv)
  | None => (Reply 0, delete key srv)
  end.

(** [get_remaining_time]: the seconds [TTL] reports when they are positive;
    [None] otherwise, without a client and on an exception. *)
Definition get_remaining_time (self : RateLimiter) (link : Link) (now : Z)
    (identifier action : string) (srv : gmap string Entry) : option Z :=
  match redis self with
  | None => None
  | Some _ =>
      match send link (ttl now (_get_key self identifier action)) srv with
      | (Reply seconds, _) => if 0 <? seconds then Some seconds else None
      | (Raised, _) => None
      end
  end.

(** [reset_limit]: [deleted > 0]; [False] without a client and on an
    exception. *)
Definition reset_limit (self : RateLimiter) (link : Link) (now : Z)
    (identifier action : string) (srv : gmap string Entry)
    : bool * gmap string Entry :=
  match redis self with
  | None => (false, srv)
  | Some _ =>
      match send link (del now (_get_key self identifier action)) srv with
      | (Reply deleted, srv') => (bool_decide (0 < deleted), srv')
      | (Raised, srv') => (false, srv')
      end
  end.

(** The connection fails when [EXPIRE] is sent. *)
Definition expire_lost : Net :=
  {| net_incr := Up; net_expire := DownBefore; net_ttl := Up |}.

End RateLimit.

(** ** The button payload: [handlers/order_callback_handler.py] *)

Module Callback.

(** A Python [str] is a sequence of code points; the model has the code
    points below 256, as a list of characters.  In that range the decimal
    digits are "0" to "9", and [str.isspace] holds of the codes 9 to 13,
    28 to 32, 133 and 160. *)
Definition code (c : ascii) : Z := Z.of_N (N_of_ascii c).

Definition colon : ascii := ":"%char.
Definition underscore : ascii := "_"%char.
Definition plus : ascii := "+"%char.
Definition minus : ascii := "-"%char.

Definition isspace (c : ascii) : bool :=
  let n := code c in
  ((9 <=? n) && (n <=? 13)) || ((28 <=? n) && (n <=? 32))
  || (n =? 133) || (n =? 160).

(** The white space that [int] skips around a number: the C white space
    among the ASCII characters, and the other spaces of [isspace]. *)
Definition int_space (c : ascii) : bool :=
  let n := code c in
  ((9 <=? n) && (n <=? 13)) || (n =? 32) || (n =? 133) || (n =? 160).

Definition digit_of (c : ascii) : option Z :=
  let n := code c in
  if (48 <=? n) && (n <=? 57) then Some (n - 48) else None.

(** [s.startswith(p)]. *)
Fixpoint startswith (p s : list ascii) : bool :=
  match p, s with
  | [], _ => true
  | _ :: _, [] => false
  | a :: p', b :: s' => Ascii.eqb a b && startswith p' s'
  end.

(** [s.split(sep)] for a separator of one character: never the empty
    list. *)
Fixpoint split (sep : ascii) (s : list ascii) : list (list ascii) :=
  match s with
  | [] => [[]]
  | c :: rest =>
      if Ascii.eqb c sep then [] :: split sep rest
      else match split sep rest with
           | [] => [[c]]
           | part :: parts => (c :: part) :: parts
           end
  end.

Fixpoint lstrip (space : ascii -> bool) (s : list ascii) : list ascii :=
  match s with
  | [] => []
  | c :: rest => if space c then lstrip space rest else s
  end.

Definition rstrip (space : ascii -> bool) (s : list ascii) : list ascii :=
  rev (lstrip space (rev s)).

(** [s.strip()] is [strip isspace s]. *)
Definition strip (space : ascii -> bool) (s : list ascii) : list ascii :=
  rstrip space (lstrip space s).

(** The digits of a decimal literal, left to right.  Underscores are
    allowed, one at a time and only between two digits; [need] says that a
    digit has to come next.  The result is the value and the number of
    digits, or nothing when the text is not a literal. *)
Fixpoint scan (need : bool) (acc : Z) (ndigits : nat) (s : list ascii)
    : option (Z * nat) :=
  match s with
  | [] => if need then None else Some (acc, ndigits)
  | c :: rest =>
      match digit_of c with
      | Some d => scan false (10 * acc + d) (S ndigits) rest
      | None =>
          if Ascii.eqb c underscore && negb need
          then scan true acc ndigits rest
          else None
      end
  end.

(** The longest literal that [int] converts ([sys.int_info]). *)
Definition int_max_str_digits : nat := 4300.

(** [int(s)] in base 10: white space around the number is skipped, then an
    optional sign and a literal; [None] is [ValueError]. *)
Definition int (s : list ascii) : option Z :=
  let s := strip int_space s in
  let '(negative, body) :=
    match s with
    | c :: rest =>
        if Ascii.eqb c minus then (true, rest)
        else if Ascii.eqb c plus then (false, rest)
        else (false, s)
    | [] => (false, s)
    end in
  match scan true 0 0 body with
  | Some (v, n) =>
      if (int_max_str_digits <? n)%nat then None
      else Some (if negative then - v else v)
  | None => None
  end.

(** [parse_callback_data] on the characters of its two arguments.  The
    first test is [not callback_data]; the [isinstance] test holds of every
    string.  [ValueError] from [int] is caught and gives [None]. *)
Definition parse_chars (callback_data action : list ascii) : option Z :=
  match callback_data with
  | [] => None
  | _ :: _ =>
      if negb (startswith (action ++ [colon]) callback_data) then None
      else
        let parts := split colon callback_data in
        if negb (length parts =? 2)%nat then None
        else
          let id_str := strip isspace (nth 1 parts []) in
          match id_str with
          | [] => None
          | _ :: _ =>
              match int id_str with
              | None => None
              | Some order_id =>
                  if order_id <=? 0 then None else Some order_id
              end
          end
  end.

Definition parse_callback_data (callback_data action : string) : option Z :=
  parse_chars (list_ascii_of_string callback_data)
    (list_ascii_of_string action).

(** *** The payloads the claim describes *)

(** The text of a decimal literal: digits, where one underscore may stand
    between two digits. *)
Inductive grouped : list ascii -> Prop :=
  | grouped_last (c : ascii) :
      is_Some (digit_of c) -> grouped [c]
  | grouped_digit (c : ascii) (s : list ascii) :
      is_Some (digit_of c) -> grouped s -> grouped (c :: s)
  | grouped_sep (c : ascii) (s : list ascii) :
      is_Some (digit_of c) -> grouped s -> grouped (c :: underscore :: s).

(** The number a row of digits denotes. *)
Definition step (acc d : Z) : Z := 10 * acc + d.

Definition decimal (ds : list Z) : Z := fold_left step ds 0.

Definition digits (s : list ascii) : list Z := omap digit_of s.

(** A plain positive integer: digits only, of a positive value. *)
Definition plain_positive (body : list ascii) (n : Z) : Prop :=
  body <> [] /\ Forall (fun c => is_Some (digit_of c)) body /\
  n = decimal (digits body) /\ 0 < n.

(** A stripped string is empty, or begins and ends with a character that
    is not white space. *)
Definition trimmed (space : ascii -> bool) (m : list ascii) : Prop :=
  m = [] \/
  (exists c t, m = c :: t /\ space c = false) /\
  (exists t c, m = t ++ [c] /\ space c = false).

(** The claim as it is written: the id is returned exactly for the action
    name, a colon and a plain positive integer. *)
Definition strict_format : Prop :=
  forall (callback_data action : list ascii) (n : Z),
    parse_chars callback_data action = Some n <->
    exists body, callback_data = action ++ colon :: body /\
                 plain_positive body n.

(** What the function accepts: the action, which has no colon in it, a
    colon, and the text of a positive number as [int] reads one after
    [strip]: white space, an optional plus sign, a literal of at most 4300
    digits, white space. *)
Definition accepted (callback_data action : list ascii) (n : Z) : Prop :=
(colon ∉ action) /\
  exists l sign body r,
    callback_data = action ++ colon :: l ++ sign ++ body ++ r /\
    Forall (fun c => isspace c = true) l /\
    Forall (fun c => isspace c = true) r /\
    (sign = [] \/ sign = [plus]) /\
    grouped body /\
    (length (digits body) <= int_max_str_digits)%nat /\
    n = decimal (digits body) /\ 0 < n.

(** *** The payloads the bot writes *)

(** The characters of an unsigned decimal. *)
Definition uchars (d : Decimal.uint) : list ascii :=
  list_ascii_of_string (NilEmpty.string_of_uint d).

(** The value of a decimal read from the left. *)
Fixpoint bval (acc : Z) (d : Decimal.uint) : Z :=
  match d with
  | Nil => acc
  | D0 d => bval (step acc 0) d
  | D1 d => bval (step acc 1) d
  | D2 d => bval (step acc 2) d
  | D3 d => bval (step acc 3) d
  | D4 d => bval (step acc 4) d
  | D5 d => bval (step acc 5) d
  | D6 d => bval (step acc 6) d
  | D7 d => bval (step acc 7) d
  | D8 d => bval (step acc 8) d
  | D9 d => bval (step acc 9) d
  end.

(** [str(n)] for an integer: the decimal digits without leading zeros,
    after a minus sign for a negative number. *)
Definition str (n : Z) : string := NilZero.string_of_int (Z.to_int n).

(** [f"{action}:{order_id}"], the [callback_data] of every button that
    carries an order. *)
Definition callback_data (action : string) (order_id : Z) : string :=
  (action ++ ":" ++ str order_id)%string.

End Callback.

(** ** The backend gateway: [services/retailcrm_service.py] *)

Module Gateway.

(** The exceptions a request can end with.  In [requests],
    [RequestException] is the base class: [Timeout], [ConnectionError] and
    [HTTPError] are subclasses of it, as are the remaining ones of the
    library.  [NotRequestException] is any exception outside that class. *)
Inductive exc :=
  | Timeout
  | ConnectionError
  | HTTPError (status_code : Z)
  | OtherRequestException
  | NotRequestException.

(** [isinstance(e, (requests.RequestException, requests.Timeout))]. *)
Definition is_request_exception (e : exc) : bool :=
  match e with
  | NotRequestException => false
  | _ => true
  end.

Record Response := {
  status_code : Z;
  text : string
}.

(** What the network does with one [requests.get] or [requests.post]: the
    backend answers, or the call raises. *)
Inductive transport :=
  | Answer (r : Response)
  | Fails (e : exc).

(** [response.raise_for_status()]: [HTTPError] for a status from 400 to
    599. *)
Definition raise_for_status (r : Response) : option exc :=
  if (400 <=? status_code r) && (status_code r <? 600)
  then Some (HTTPError (status_code r))
  else None.

(** The body of [_make_get_request] and of [_make_post_request]: the
    request, then [raise_for_status], then the response. *)
Definition request_once (t : transport) : exc + Response :=
  match t with
  | Fails e => inl e
  | Answer r =>
      match raise_for_status r with
      | Some e => inl e
      | None => inr r
      end
  end.

(** *** The decorator

    [retry(stop=stop_after_attempt(3),
           wait=wait_exponential(multiplier=1, min=2, max=10),
           retry=retry_if_exception_type((RequestException, Timeout)))]. *)

Definition stop_after_attempt (max_attempt_number attempt_number : nat)
    : bool :=
  (max_attempt_number <=? attempt_number)%nat.

(** Seconds to wait after the attempt [attempt_number]:
    [max(max(0, min), min(multiplier * 2 ** (attempt_number - 1), max))]. *)
Definition wait_exponential (multiplier min max : Z) (attempt_number : nat)
    : Z :=
  Z.max (Z.max 0 min)
    (Z.min (multiplier * 2 ^ Z.of_nat (attempt_number - 1)) max).

(** How a decorated call ends: with the response, with the exception of an
    attempt that the policy does not retry, or with [RetryError] around the
    exception of the last attempt ([reraise] is not set). *)
Inductive outcome :=
  | Returned (r : Response)
  | Reraised (e : exc)
  | RetryError (last : exc).

Record run := {
  result : outcome;
  attempts : nat;
  sleeps : list Z
}.

(** The loop of the decorator from the attempt [attempt_number] on; [net]
    tells what the network does at each attempt.  [fuel] bounds the number
    of further attempts; the loop stops by itself at the third one. *)
Fixpoint retrying (fuel : nat) (attempt_number : nat)
    (net : nat -> transport) : run :=
  match request_once (net attempt_number) with
  | inr r =>
      {| result := Returned r; attempts := attempt_number; sleeps := [] |}
  | inl e =>
      if negb (is_request_exception e) then
        {| result := Reraised e; attempts := attempt_number; sleeps := [] |}
      else if stop_after_attempt 3 attempt_number then
        {| result := RetryError e; attempts := attempt_number; sleeps := [] |}
      else
        match fuel with
        | O =>
            {| result := RetryError e; attempts := attempt_number;
               sleeps := [] |}
        | S fuel' =>
            let later := retrying fuel' (S attempt_number) net in
            {| result := result later;
               attempts := attempts later;
               sleeps := wait_exponential 1 2 10 attempt_number
                         :: sleeps later |}
        end
  end.

(** Attempts are numbered from 1; two further attempts are all the policy
    allows. *)
Definition _make_get_request (net : nat -> transport) : run :=
  retrying 2 1 net.

Definition _make_post_request (net : nat -> transport) : run :=
  retrying 2 1 net.

(** The claim as it is written, for its last part: a response with a
    status from 400 to 599 ends the call at the first attempt. *)
Definition rejection_not_retried : Prop :=
  forall (net : nat -> transport) (r : Response),
    net 1%nat = Answer r -> 400 <= status_code r < 600 ->
    attempts (_make_get_request net) = 1%nat.

(** A backend that answers 404 with an error body, every time. *)
Definition not_found (attempt_number : nat) : transport :=
  Answer {| status_code := 404;
            text := "{'success': false, 'errorMsg': 'Not found'}" |}.

(** *** The calls of the gateway *)

(** What [response.json()] gives: the part of the answer the caller reads,
    or the exception for a body that is not JSON, which is a
    [RequestException] ([requests.exceptions.JSONDecodeError], from
    version 2.27 of the library on).  A body that is JSON is an object. *)
Inductive decoded (A : Type) :=
  | Malformed
  | Data (a : A).
Arguments Malformed {A}.
Arguments Data {A} a.

(** How a call of the gateway ends: with its value, or with the exception
    that leaves the decorated request and that the call does not catch. *)
Inductive ends (A : Type) :=
  | Gives (a : A)
  | Throws (o : outcome).
Arguments Gives {A} a.
Arguments Throws {A} o.

(** [get_order_by_id]: ['order'] of the answer when it is there, else
    [None]; [decode] reads that key from the body.  [except
    requests.RequestException] gives [None]. *)
Definition get_order_by_id {A : Type}
    (decode : string -> decoded (option A)) (net : nat -> transport)
    : ends (option A) :=
  match result (_make_get_request net) with
  | Returned r =>
      match decode (text r) with
      | Data (Some order) => Gives (Some order)
      | Data None => Gives None
      | Malformed => Gives None
      end
  | Reraised e =>
      if is_request_exception e then Gives None else Throws (Reraised e)
  | RetryError e => Throws (RetryError e)
  end.

(** One call of [update_order_status]: how it ends and how many requests of
    each kind were sent. *)
Record update_run := {
  updated : ends bool;
  get_attempts : nat;
  post_attempts : nat
}.

(** [update_order_status]: the order is fetched for its ['site'], which
    goes into the parameters of the [POST]; [success] reads ['success'] of
    the answer.  [post_net] is what the network does with the [POST] for a
    site. *)
Definition update_order_status {A : Type} (site : A -> option string)
    (decode : string -> decoded (option A))
    (success : string -> decoded bool)
    (get_net : nat -> transport) (post_net : string -> nat -> transport)
    : update_run :=
  let fetched := attempts (_make_get_request get_net) in
  match get_order_by_id decode get_net with
  | Throws o =>
      {| updated := Throws o; get_attempts := fetched; post_attempts := 0 |}
  | Gives None =>
      {| updated := Gives false; get_attempts := fetched;
         post_attempts := 0 |}
  | Gives (Some order) =>
      match site order with
      | None =>
          {| updated := Gives false; get_attempts := fetched;
             post_attempts := 0 |}
      | Some s =>
          if bool_decide (s = ""%string) then
            {| updated := Gives false; get_attempts := fetched;
               post_attempts := 0 |}
          else
            let posted := _make_post_request (post_net s) in
            {| updated :=
                 match result posted with
                 | Returned r =>
                     match success (text r) with
                     | Data true => Gives true
                     | Data false => Gives false
                     | Malformed => Gives false
                     end
                 | Reraised e =>
                     if is_request_exception e then Gives false
                     else Throws (Reraised e)
                 | RetryError e => Throws (RetryError e)
                 end;
               get_attempts := fetched;
               post_attempts := attempts posted |}
      end
  end.

(** *** The catalogue of the products *)

(** A product of the catalogue: ['article'] and ['imageUrl'], when they
    are there. *)
Record Product := {
  article : option string;
  imageUrl : option string
}.

(** The part of a page of the catalogue that [get_all_products] reads:
    ['products'] and ['totalPageCount'] of ['pagination']. *)
Record Catalogue := {
  products : list Product;
  totalPageCount : option Z
}.

(** What [requests.get] does for a page; this request is not retried. *)
Inductive fetched :=
  | FetchRaises
  | Fetched (status_code : Z) (body : decoded Catalogue).

(** [if article and image_url: products_map[article] = image_url]. *)
Definition add_product (products_map : gmap string string) (product : Product)
    : gmap string string :=
  match article product, imageUrl product with
  | Some a, Some image_url =>
      if bool_decide (a <> ""%string /\ image_url <> ""%string)
      then <[a := image_url]> products_map
      else products_map
  | _, _ => products_map
  end.

(** The loop over the pages from [page] on.  The result is the dictionary
    when the loop was left by a [break], and [None] inside when an
    exception ended it; [fuel] bounds the number of pages. *)
Fixpoint load_products (fuel : nat) (server : Z -> fetched) (page : Z)
    (products_map : gmap string string)
    : option (option (gmap string string)) :=
  match fuel with
  | O => None
  | S fuel' =>
      match server page with
      | FetchRaises => Some None
      | Fetched code body =>
          if negb (code =? 200) then Some (Some products_map)
          else
            match body with
            | Malformed => Some None
            | Data data =>
                match products data with
                | [] => Some (Some products_map)
                | _ :: _ =>
                    let products_map :=
                      foldl add_product products_map (products data) in
                    let total_page_count :=
                      default 1 (totalPageCount data) in
                    if total_page_count <=? page
                    then Some (Some products_map)
                    else load_products fuel' server (page + 1) products_map
                end
            end
      end
  end.

(** [get_all_products]: what it returns and [self._products_cache]
    afterwards.  A cache that is [None] or empty is not used. *)
Definition get_all_products (fuel : nat) (server : Z -> fetched)
    (_products_cache : option (gmap string string))
    : option (gmap string string * option (gmap string string)) :=
  let load :=
    match load_products fuel server 1 ∅ with
    | None => None
    | Some None => Some (∅, _products_cache)
    | Some (Some products_map) => Some (products_map, Some products_map)
    end in
  match _products_cache with
  | Some cached =>
      if bool_decide (cached = ∅) then load
      else Some (cached, _products_cache)
  | None => load
  end.

(** A page after which the loop goes on: status 200, products, and more
    pages to come. *)
Definition goes_on (server : Z -> fetched) (page : Z) : Prop :=
  exists data,
    server page = Fetched 200 (Data data) /\ products data <> [] /\
    page < default 1 (totalPageCount data).

Definition products_of (server : Z -> fetched) (page : Z) : list Product :=
  match server page with
  | Fetched _ (Data data) => products data
  | _ => []
  end.

(** The dictionary after the first [n] pages. *)
Definition collected (server : Z -> fetched) (n : nat)
    : gmap string string :=
  foldl (fun products_map i =>
           foldl add_product products_map
             (products_of server (1 + Z.of_nat i)))
    ∅ (seq 0 n).

(** Two pages of one product each; the third request is refused. *)
Definition two_pages (page : Z) : fetched :=
  if bool_decide (page = 1) then
    Fetched 200
      (Data {| products := [ {| article := Some "rose"%string;
                                imageUrl := Some "rose.jpg"%string |} ];
               totalPageCount := Some 3 |})
  else if bool_decide (page = 2) then
    Fetched 200
      (Data {| products := [ {| article := Some "iris"%string;
                                imageUrl := Some "iris.jpg"%string |} ];
               totalPageCount := Some 3 |})
  else Fetched 503 Malformed.

(** A transport that times out every time. *)
Definition unreachable (attempt_number : nat) : transport := Fails Timeout.

(** A backend that answers every request with status 200 and the given
    body. *)
Definition answers (body : string) (attempt_number : nat) : transport :=
  Answer {| status_code := 200; text := body |}.

End Gateway.

(** ** The monitor: [services/order_monitor_service.py] *)

Module Monitor.
Import Ledger.

(** The keys of an order of the backend that the monitor reads: ['id'],
    ['number'], ['status'], ['totalSumm'], ['shipmentStore'] and the
    ['code'] of ['delivery']; a key can be absent. *)
Record Order := {
  o_id : Z;
  o_number : option string;
  o_status : option string;
  o_totalSumm : option Z;
  o_shipmentStore : option string;
  o_delivery_code : option string
}.

(** An entry of [admin_config]; the dictionary keeps the order of the
    configuration string. *)
Record AdminEntry := {
  warehouse : string;
  chat_id : string
}.

(** *** The Telegram API *)

Inductive tg_exc :=
  | TelegramBadRequest
  | TelegramForbiddenError
  | TelegramRetryAfter (retry_after : Z)
  | TelegramNetworkError
  | OtherException.

Inductive api_result :=
  | Delivered
  | Raises (e : tg_exc).

Inductive method := send_photo | send_media_group | send_message.

(** One call of the bot.  [c_about] is the order the notification is for:
    the id that [create_order_keyboard] puts into the buttons. *)
Record Call := {
  c_method : method;
  c_chat : string;
  c_text : string;
  c_about : Z
}.

Inductive event :=
  | Called (c : Call) (r : api_result)
  | Slept (ms : Z).

(** *** The backend *)

(** The answer of [get_order_by_id]: an order, [None], or an exception. *)
Inductive lookup :=
  | Found (o : Order)
  | Missing
  | LookupRaises.

(** What surrounds one run of the monitor.  The two status codes come from
    the settings.  [crm_page] is the page of orders behind
    [get_orders_by_status], or the text of the exception the call raises.
    [render] stands for [format_order_notification], [create_order_keyboard]
    and [get_product_images_from_order]: the text and the image URLs of the
    notification, or the text of the exception one of them raises.  [bot]
    gives the result of the n-th call of the Telegram API. *)
Record Env := {
  TARGET_STATUS_CODE : string;
  STATUS_RETURNED : string;
  admin_config : list (string * AdminEntry);
  crm_page : string + list Order;
  get_order_by_id : Z -> lookup;
  render : Order -> string + (string * list string);
  bot : nat -> api_result
}.

(** The state a run works on: the database, what was sent and slept so
    far, the number of API calls made, and the clock in milliseconds. *)
Record World := {
  db : Db;
  trace : list event;
  ncalls : nat;
  clock : Z
}.

Definition CURRENT_TIMESTAMP (w : World) : Z := clock w / 1000.

Definition with_db (d : Db) (w : World) : World :=
  {| db := d; trace := trace w; ncalls := ncalls w; clock := clock w |}.

(** A call of the API: the result, and the world with the call on record. *)
Definition api (env : Env) (c : Call) (w : World) : api_result * World :=
  let r := bot env (ncalls w) in
  (r, {| db := db w; trace := trace w ++ [Called c r];
         ncalls := S (ncalls w); clock := clock w |}).

(** [await asyncio.sleep(...)]; a delay that is not positive returns at
    once. *)
Definition sleep (ms : Z) (w : World) : World :=
  {| db := db w; trace := trace w ++ [Slept ms];
     ncalls := ncalls w; clock := clock w + Z.max 0 ms |}.

(** *** Recipients *)

Definition get_admins_for_warehouse (env : Env) (warehouse_code : string)
    : list (string * string) :=
  (fun admin => (admin.1, chat_id admin.2)) <$>
    filter (fun admin => warehouse admin.2 = warehouse_code)
      (admin_config env).

(** *** The fan-out of one notification *)

Definition action_prompt : string := "Выберите действие:".

(** The inner [try]: the photo or the album with the prompt; on
    [TelegramBadRequest] the text alone. *)
Definition send_with_images (env : Env) (about : Z) (chat message : string)
    (image_urls : list string) (w : World) : api_result * World :=
  let '(r, w1) :=
    match image_urls with
    | [_] =>
        api env {| c_method := send_photo; c_chat := chat;
                   c_text := message; c_about := about |} w
    | _ =>
        let '(r1, w1) :=
          api env {| c_method := send_media_group; c_chat := chat;
                     c_text := message; c_about := about |} w in
        match r1 with
        | Delivered =>
            api env {| c_method := send_message; c_chat := chat;
                       c_text := action_prompt; c_about := about |} w1
        | Raises e => (Raises e, w1)
        end
    end in
  match r with
  | Raises TelegramBadRequest =>
      api env {| c_method := send_message; c_chat := chat;
                 c_text := message; c_about := about |} w1
  | _ => (r, w1)
  end.

(** The body of the loop over the recipients.  Every exception is caught
    here; after [TelegramRetryAfter] the text is sent once more and the
    result of that call is dropped. *)
Definition notify_admin (env : Env) (about : Z) (message : string)
    (image_urls : list string) (last : bool) (admin : string * string)
    (w : World) : World :=
  let chat := admin.2 in
  let plain := {| c_method := send_message; c_chat := chat;
                  c_text := message; c_about := about |} in
  let '(r, w1) :=
    match image_urls with
    | [] => api env plain w
    | _ :: _ => send_with_images env about chat message image_urls w
    end in
  match r with
  | Delivered => if last then w1 else sleep 500 w1
  | Raises TelegramForbiddenError => w1
  | Raises (TelegramRetryAfter retry_after) =>
      (api env plain (sleep (retry_after * 1000) w1)).2
  | Raises TelegramNetworkError => w1
  | Raises _ => w1
  end.

(** [for idx, (user_id, chat_id) in enumerate(target_admins)]; [last] is
    [idx = len(target_admins) - 1]. *)
Fixpoint notify_admins (env : Env) (about : Z) (message : string)
    (image_urls : list string) (admins : list (string * string))
    (w : World) : World :=
  match admins with
  | [] => w
  | admin :: rest =>
      notify_admins env about message image_urls rest
        (notify_admin env about message image_urls
           (bool_decide (rest = [])) admin w)
  end.

(** [send_notification_to_warehouse_admins]: nothing is sent for an order
    without a warehouse or for a warehouse without recipients. *)
Definition send_notification_to_warehouse_admins (env : Env) (order : Order)
    (message : string) (image_urls : list string) (w : World) : World :=
  match o_shipmentStore order with
  | None => w
  | Some warehouse_code =>
      if bool_decide (warehouse_code = ""%string) then w
      else
        notify_admins env (o_id order) message image_urls
          (get_admins_for_warehouse env warehouse_code) w
  end.

(** *** Orders that came back from the no-product status *)

(** The test of one row of the snapshot: the order to yield, if any. *)
Definition came_back (env : Env) (row : Z * ProcessedOrder) : option Order :=
  if negb (was_in_no_product row.2) then None
  else if returned_from_no_product row.2 then None
  else
    match get_order_by_id env row.1 with
    | LookupRaises => None
    | Missing => None
    | Found current_order =>
        if bool_decide (o_status current_order = Some (STATUS_RETURNED env))
        then Some current_order
        else None
    end.

Definition returned_message (env : Env) : string :=
  ("Заказ вернулся из no-product в " ++ STATUS_RETURNED env)%string.

(** The body of the loop for a row that passed the test: mark, delete,
    log, yield. *)
Definition take_back (env : Env) (order_id : Z) (current_order : Order)
    (st : World * list Order) : World * list Order :=
  let '(w, returned_orders) := st in
  let now := CURRENT_TIMESTAMP w in
  let '(_, d1) := mark_order_returned_from_no_product now order_id (db w) in
  let '(_, d2) := reset_order_for_renotification order_id d1 in
  let d3 := log_error now "order_returned_from_no_product"
              (returned_message env) (Some order_id) d2 in
  (with_db d3 w, returned_orders ++ [current_order]).

Definition check_row (env : Env) (st : World * list Order)
    (row : Z * ProcessedOrder) : World * list Order :=
  match came_back env row with
  | None => st
  | Some current_order => take_back env row.1 current_order st
  end.

(** [_check_orders_returned_from_no_product]: the rows are read once, at
    the start; the loop works on that snapshot. *)
Definition _check_orders_returned_from_no_product (env : Env) (w : World)
    : World * list Order :=
  foldl (check_row env) (w, []) (get_all_processed_orders (db w)).

(** *** One pass *)

(** The body of the loop over the new orders. *)
Definition process_order (env : Env) (w : World) (order : Order) : World :=
  match render env order with
  | inl error =>
      with_db (log_error (CURRENT_TIMESTAMP w) "order_processing_failed"
                 error (Some (o_id order)) (db w)) w
  | inr (message, image_urls) =>
      let w1 :=
        send_notification_to_warehouse_admins env order message
          image_urls w in
      let '(_, d) :=
        save_processed_order (CURRENT_TIMESTAMP w1) (o_id order)
          (default "N/A"%string (o_number order))
          (TARGET_STATUS_CODE env)
          (Some (default ""%string (o_delivery_code order)))
          (Some (default 0 (o_totalSumm order)))
          None
          (Some (default "N/A"%string (o_shipmentStore order)))
          (db w1) in
      with_db d w1
  end.

(** [get_orders_by_status]: the page, filtered by status on this side. *)
Definition get_orders_by_status (env : Env) (status_code : string)
    : string + list Order :=
  match crm_page env with
  | inl error => inl error
  | inr page =>
      inr (filter (fun order => o_status order = Some status_code) page)
  end.

(** [check_orders_with_status]. *)
Definition check_orders_with_status (env : Env) (w : World) : World :=
  match get_orders_by_status env (TARGET_STATUS_CODE env) with
  | inl error =>
      with_db (log_error (CURRENT_TIMESTAMP w) "monitoring_check_failed"
                 error None (db w)) w
  | inr orders =>
      let '(w1, returned_from_no_product) :=
        _check_orders_returned_from_no_product env w in
      let all_orders := orders ++ returned_from_no_product in
      let new_orders :=
        filter (fun order => is_order_processed (db w1) (o_id order) = false)
          all_orders in
      foldl (process_order env) w1 new_orders
  end.

(** The calls on record that are notifications for a given order. *)
Definition calls_about (order_id : Z) (t : list event) : list Call :=
  omap (fun e => match e with
                 | Called c _ =>
                     if bool_decide (c_about c = order_id) then Some c
                     else None
                 | Slept _ => None
                 end) t.

Definition calls (t : list event) : list Call :=
  omap (fun e => match e with Called c _ => Some c | Slept _ => None end) t.

(** No row of the database is waiting to come back from no-product. *)
Definition quiet (env : Env) (d : Db) : Prop :=
  forall k r, processed_orders d !! k = Some r -> came_back env (k, r) = None.

(** An event of the fan-out that belongs to one recipient: a call to the
    chat of the recipient, for the order, or a pause. *)
Definition for_admin (about : Z) (admin : string * string) (e : event)
    : Prop :=
  match e with
  | Called c _ => c_chat c = admin.2 /\ c_about c = about
  | Slept _ => True
  end.

(** The part of the record that one recipient accounts for: it begins with
    a call to the recipient. *)
Definition attempt_for (about : Z) (admin : string * string)
    (seg : list event) : Prop :=
  (exists c r rest, seg = Called c r :: rest) /\
  Forall (for_admin about admin) seg.

(** What the calls of one fan-out look like: to a chat of the list, for
    the order, with the notification or the prompt as text. *)
Definition call_of (about : Z) (message : string) (chats : list string)
    (e : event) : Prop :=
  match e with
  | Called c _ =>
      c_chat c ∈ chats /\ c_about c = about /\
      (c_text c = message \/ c_text c = action_prompt)
  | Slept _ => True
  end.

(** The calls that bring one notification to a chat when the API accepts
    each of them: the text, the photo with the text as caption, or the album
    followed by the prompt. *)
Definition notification (about : Z) (chat message : string)
    (image_urls : list string) : list Call :=
  match image_urls with
  | [] =>
      [ {| c_method := send_message; c_chat := chat; c_text := message;
           c_about := about |} ]
  | [_] =>
      [ {| c_method := send_photo; c_chat := chat; c_text := message;
           c_about := about |} ]
  | _ =>
      [ {| c_method := send_media_group; c_chat := chat; c_text := message;
           c_about := about |};
        {| c_method := send_message; c_chat := chat;
           c_text := action_prompt; c_about := about |} ]
  end.

(** An API that accepts every call. *)
Definition obliging (env : Env) : Prop := forall n, bot env n = Delivered.

(** [create_order_keyboard]: the texts and the [callback_data] of the two
    buttons under a notification. *)
Definition create_order_keyboard (order_id : Z) : list (string * string) :=
  [ ("✅ Заказ принят"%string,
     Callback.callback_data "confirm_order" order_id);
    ("🔄 Обсудить замены"%string,
     Callback.callback_data "discuss_replacement" order_id) ].

(** *** A shop with three recipients for warehouse 20 *)

Definition order7 : Order :=
  {| o_id := 7; o_number := Some "A-7"%string;
     o_status := Some "otpravlen-v-sborku"%string;
     o_totalSumm := Some 1500;
     o_shipmentStore := Some "20"%string;
     o_delivery_code := Some "courier"%string |}.

(** The second call of the API finds the bot blocked; order 7 is at the
    returned status and is not on the page of the target status. *)
Definition shop : Env :=
  {| TARGET_STATUS_CODE := "otpravit-v-magazin-ne-trogat";
     STATUS_RETURNED := "otpravlen-v-sborku";
     admin_config :=
       [ ("111"%string, {| warehouse := "20"; chat_id := "111" |});
         ("222"%string, {| warehouse := "20"; chat_id := "-500" |});
         ("999"%string, {| warehouse := "25"; chat_id := "999" |});
         ("333"%string, {| warehouse := "20"; chat_id := "333" |}) ];
     crm_page := inr [];
     get_order_by_id :=
       fun k => if bool_decide (k = 7) then Found order7 else Missing;
     render := fun _ => inr ("ЗАКАЗ"%string, []);
     bot := fun n => match n with
                     | 1%nat => Raises TelegramForbiddenError
                     | _ => Delivered
                     end |}.

(** Order 7 was notified, then went to the no-product status. *)
Definition pending_row : ProcessedOrder :=
  {| po_rowid := 1; order_number := "A-7"; status := "target";
     total_sum := Some 1500; customer_name := None;
     warehouse_code := Some "20"; delivery_type := Some "courier";
     was_in_no_product := true; returned_from_no_product := false;
     bouquet_ready_notified := false;
     created_at := 100; updated_at := 140; notified_at := 100 |}.

Definition pending_world : World :=
  {| db := {| processed_orders := {[ 7 := pending_row ]};
              processed_seq := 1; error_log := [] |};
     trace := []; ncalls := 0; clock := 200000 |}.

Definition fresh_world : World :=
  {| db := empty_db; trace := []; ncalls := 0; clock := 200000 |}.

(** Order 7 went to the no-product status and came back already. *)
Definition settled_world : World :=
  {| db := flagged_db; trace := []; ncalls := 0; clock := 200000 |}.

(** The same shop with one status code for the target and for the
    returned status; order 7, at that status, is on the page. *)
Definition one_status_shop : Env :=
  {| TARGET_STATUS_CODE := "otpravlen-v-sborku";
     STATUS_RETURNED := "otpravlen-v-sborku";
     admin_config := admin_config shop;
     crm_page := inr [order7];
     get_order_by_id := get_order_by_id shop;
     render := render shop;
     bot := fun _ => Delivered |}.

End Monitor.

(** ** The configuration of the recipients: [config/settings.py]

    [get_admin_full_config] reads [ADMIN_WAREHOUSES], a list of pairs
    [USER_ID:WAREHOUSE_CODE] or [USER_ID:WAREHOUSE_CODE:CHAT_ID] separated
    by commas, into the dictionary that the monitor is started with.  The
    value is a string of code points below 256, as in [Callback]. *)

Module Settings.
Import Callback.

Definition comma : ascii := ","%char.

(** [str.isdigit] on one code point below 256: the decimal digits and the
    superscripts two, three and one. *)
Definition isdigit_char (c : ascii) : bool :=
  let n := code c in
  ((48 <=? n) && (n <=? 57)) || (n =? 178) || (n =? 179) || (n =? 185).

(** [s.isdigit()]: false of the empty string. *)
Definition isdigit (s : list ascii) : bool :=
  match s with
  | [] => false
  | _ :: _ => forallb isdigit_char s
  end.

(** [s.lstrip('-').isdigit()]. *)
Definition numeric (s : list ascii) : bool :=
  isdigit (lstrip (fun c => Ascii.eqb c minus) s).

(** The [ValueError]s of the function, by their message. *)
Inductive ValueError :=
  | NotFound
  | Blank
  | NoPairs
  | WrongFormat (pair_str : list ascii)
  | EmptyUserId (pair_str : list ascii)
  | EmptyWarehouse (pair_str : list ascii)
  | EmptyChatId (pair_str : list ascii)
  | InvalidUserId (user_id pair_str : list ascii)
  | InvalidChatId (chat_id pair_str : list ascii)
  | NoAdmins.

(** The checks on the three parts of a pair, in the order of the code. *)
Definition check_parts
    (pair_str user_id warehouse_code chat_id : list ascii)
    : ValueError + (string * Monitor.AdminEntry) :=
  let user_id := strip isspace user_id in
  let warehouse_code := strip isspace warehouse_code in
  let chat_id := strip isspace chat_id in
  match user_id, warehouse_code, chat_id with
  | [], _, _ => inl (EmptyUserId pair_str)
  | _, [], _ => inl (EmptyWarehouse pair_str)
  | _, _, [] => inl (EmptyChatId pair_str)
  | _, _, _ =>
      if negb (numeric user_id) then inl (InvalidUserId user_id pair_str)
      else if negb (numeric chat_id)
      then inl (InvalidChatId chat_id pair_str)
      else
        inr (string_of_list_ascii user_id,
             {| Monitor.warehouse := string_of_list_ascii warehouse_code;
                Monitor.chat_id := string_of_list_ascii chat_id |})
  end.

(** The body of the loop over the pairs, up to the assignment. *)
Definition read_pair (pair_str : list ascii)
    : ValueError + (string * Monitor.AdminEntry) :=
  match split colon pair_str with
  | [user_id; warehouse_code] =>
      check_parts pair_str user_id warehouse_code user_id
  | [user_id; warehouse_code; chat_id] =>
      check_parts pair_str user_id warehouse_code chat_id
  | _ => inl (WrongFormat pair_str)
  end.

(** [d[key] = value] on a dictionary in insertion order: a key that is
    there keeps its place. *)
Fixpoint dict_set {V : Type} (d : list (string * V)) (key : string)
    (value : V) : list (string * V) :=
  match d with
  | [] => [(key, value)]
  | (k, v) :: rest =>
      if bool_decide (k = key) then (key, value) :: rest
      else (k, v) :: dict_set rest key value
  end.

(** The loop over the pairs; the first pair that fails ends it. *)
Fixpoint read_pairs (pairs : list (list ascii))
    (admin_config : list (string * Monitor.AdminEntry))
    : ValueError + list (string * Monitor.AdminEntry) :=
  match pairs with
  | [] => inr admin_config
  | pair_str :: rest =>
      match read_pair pair_str with
      | inl e => inl e
      | inr (user_id, entry) =>
          read_pairs rest (dict_set admin_config user_id entry)
      end
  end.

(** [get_admin_full_config]; the argument is [os.getenv("ADMIN_WAREHOUSES")]. *)
Definition get_admin_full_config (ADMIN_WAREHOUSES : option string)
    : ValueError + list (string * Monitor.AdminEntry) :=
  match ADMIN_WAREHOUSES with
  | None => inl NotFound
  | Some value =>
      match list_ascii_of_string value with
      | [] => inl NotFound
      | admin_warehouses_str =>
          match strip isspace admin_warehouses_str with
          | [] => inl Blank
          | admin_warehouses_str =>
              let pairs :=
                filter (fun pair_str => pair_str <> [])
                  (strip isspace <$> split comma admin_warehouses_str) in
              match pairs with
              | [] => inl NoPairs
              | _ :: _ =>
                  match read_pairs pairs [] with
                  | inl e => inl e
                  | inr [] => inl NoAdmins
                  | inr admin_config => inr admin_config
                  end
              end
          end
      end
  end.

(** *** What a configuration is made of *)

(** A part of a pair as the function stores it: not empty, stripped, and
    free of the two separators. *)
Definition part (s : list ascii) : Prop :=
  s <> [] /\ trimmed isspace s /\ (colon ∉ s) /\ (comma ∉ s).

(** An id as the function accepts it: minus signs, then at least one
    digit, and digits only. *)
Definition id_like (s : list ascii) : Prop :=
  exists (signs : nat) (ds : list ascii),
    s = replicate signs minus ++ ds /\ ds <> [] /\
    Forall (fun c => isdigit_char c = true) ds.

Definition valid_entry (admin : string * Monitor.AdminEntry) : Prop :=
  let user_id := list_ascii_of_string admin.1 in
  let warehouse_code := list_ascii_of_string (Monitor.warehouse admin.2) in
  let chat_id := list_ascii_of_string (Monitor.chat_id admin.2) in
  part user_id /\ part warehouse_code /\ part chat_id /\
  id_like user_id /\ id_like chat_id.

(** A pair as it is written in the variable: with or without the chat. *)
Record Pair := {
  p_user_id : list ascii;
  p_warehouse_code : list ascii;
  p_chat_id : option (list ascii)
}.

Definition written (p : Pair) : list ascii :=
  p_user_id p ++ colon :: p_warehouse_code p ++
  match p_chat_id p with
  | Some chat_id => colon :: chat_id
  | None => []
  end.

(** [",".join(...)]. *)
Fixpoint join (sep : ascii) (l : list (list ascii)) : list ascii :=
  match l with
  | [] => []
  | [s] => s
  | s :: rest => s ++ sep :: join sep rest
  end.

(** What a written pair stands for: without a chat, the notifications go
    to the user. *)
Definition meant (p : Pair) : string * Monitor.AdminEntry :=
  (string_of_list_ascii (p_user_id p),
   {| Monitor.warehouse := string_of_list_ascii (p_warehouse_code p);
      Monitor.chat_id :=
        string_of_list_ascii (default (p_user_id p) (p_chat_id p)) |}).

Definition well_written (p : Pair) : Prop :=
  part (p_user_id p) /\ part (p_warehouse_code p) /\
  numeric (p_user_id p) = true /\
  match p_chat_id p with
  | Some chat_id => part chat_id /\ numeric chat_id = true
  | None => True
  end.

End Settings.

(** ** The handlers of the order buttons:
       [handlers/order_callback_handler.py]

    A handler works on the Redis server of the limiter, on the two parts of
    the database, on the backend and on the Telegram API.  An exception
    that a step raises goes up to the nearest [try]; the ones that no
    [try] catches leave the handler. *)

Module Handler.

(** The keys of an order that the handlers and [update_order_status]
    read. *)
Record CrmOrder := {
  crm_site : option string;
  crm_status : option string;
  crm_number : option string
}.

(** The callback query: the user, the payload of the button, and whether
    the message of the button is still at hand. *)
Record CallbackQuery := {
  from_user_id : Z;
  data : string;
  message : bool
}.

(** The calls of the Telegram API that a handler makes. *)
Inductive tg_call :=
  | answer (text : string) (show_alert : bool)
  | message_answer (text : string)
  | edit_reply_markup (reply_markup : option (list (string * string))).

(** The calls of the gateway, with the number of requests each one
    sent. *)
Inductive crm_call :=
  | Lookup (order_id : Z) (attempts : nat)
  | Update (order_id : Z) (new_status : string)
      (get_attempts post_attempts : nat).

(** What surrounds one run of a handler.  The status codes come from the
    settings.  [crm_get n] is what the network does with the [GET]s of the
    [n]-th call of the gateway, [crm_post] what it does with the [POST] of
    a status for a site; [telegram n] tells whether the [n]-th call of the
    Telegram API raises. *)
Record Env := {
  rate_limiter : RateLimit.RateLimiter;
  redis_net : RateLimit.Net;
  redis_ttl : RateLimit.Link;
  redis_now : Z;
  CURRENT_TIMESTAMP : Z;
  today : Z;
  decode : string -> Gateway.decoded (option CrmOrder);
  success : string -> Gateway.decoded bool;
  crm_get : nat -> nat -> Gateway.transport;
  crm_post : string -> string -> nat -> Gateway.transport;
  telegram : nat -> bool;
  STATUS_DISCUSSION : string;
  STATUS_CONFIRMED : string;
  STATUS_SELF_PICKUP_READY : string
}.

Record State := {
  redis : gmap string RateLimit.Entry;
  db : Ledger.Db;
  audit : Ledger.Audit;
  sent : list tg_call;
  crm : list crm_call
}.

(** A step: its value, or nothing when it raised, and the state it
    leaves. *)
Definition M (A : Type) : Type := State -> option A * State.

Definition ret {A : Type} (a : A) : M A := fun s => (Some a, s).

Definition bind {A B : Type} (m : M A) (f : A -> M B) : M B := fun s =>
  match m s with
  | (Some a, s') => f a s'
  | (None, s') => (None, s')
  end.

Declare Scope handler_scope.
Delimit Scope handler_scope with handler.
Notation "x ← y ; z" := (bind y (fun x => z))
  (at level 20, y at level 100, z at level 200, only parsing)
  : handler_scope.
Notation "x ;; z" := (bind x (fun _ => z))
  (at level 100, z at level 200, only parsing, right associativity)
  : handler_scope.
Local Open Scope handler_scope.

(** [try: body except Exception: handler]. *)
Definition try_except {A : Type} (body handler : M A) : M A := fun s =>
  match body s with
  | (Some a, s') => (Some a, s')
  | (None, s') => handler s'
  end.

Definition call_telegram (env : Env) (c : tg_call) : M unit := fun s =>
  let raised := telegram env (length (sent s)) in
  let s' := {| redis := redis s; db := db s; audit := audit s;
               sent := sent s ++ [c]; crm := crm s |} in
  (if raised then None else Some (), s').

Definition nl : string := String (ascii_of_nat 10) EmptyString.

(** How an f-string shows a value that may be [None]. *)
Definition shown (o : option string) : string := default "None"%string o.

(** [safe_send_message]. *)
Definition safe_send_message (env : Env) (callback : CallbackQuery)
    (text : string) : M unit :=
  if message callback then call_telegram env (message_answer text)
  else call_telegram env (answer text true).

(** [safe_edit_markup]: without the message nothing is called. *)
Definition safe_edit_markup (env : Env) (callback : CallbackQuery)
    (markup : option (list (string * string))) : M unit :=
  if message callback then call_telegram env (edit_reply_markup markup)
  else ret ().

(** [check_rate_limit_for_user]: [True] when the click is over the
    limit. *)
Definition check_rate_limit_for_user (env : Env) (callback : CallbackQuery)
    (action : string) (limit window : Z) : M bool := fun s =>
  let user_id := from_user_id callback in
  let '((is_limited, remaining), srv) :=
    RateLimit.check_rate_limit (rate_limiter env) (redis_net env)
      (redis_now env) (Callback.str user_id) action limit window (redis s) in
  let s1 := {| redis := srv; db := db s; audit := audit s;
               sent := sent s; crm := crm s |} in
  if is_limited then
    let remaining_time :=
      RateLimit.get_remaining_time (rate_limiter env) (redis_ttl env)
        (redis_now env) (Callback.str user_id) action srv in
    (call_telegram env
       (answer ("⚠️ Слишком много действий!" ++ nl ++ "Подождите " ++
                shown (Callback.str <$> remaining_time) ++ " секунд.")
          true) ;;
     ret true) s1
  else (Some false, s1).

(** [retailcrm_service.get_order_by_id(order_id)]. *)
Definition get_order_by_id (env : Env) (order_id : Z)
    : M (option CrmOrder) := fun s =>
  let net := crm_get env (length (crm s)) in
  let s' := {| redis := redis s; db := db s; audit := audit s;
               sent := sent s;
               crm := crm s ++
                 [Lookup order_id
                    (Gateway.attempts (Gateway._make_get_request net))] |} in
  match Gateway.get_order_by_id (decode env) net with
  | Gateway.Gives order => (Some order, s')
  | Gateway.Throws _ => (None, s')
  end.

(** [retailcrm_service.update_order_status(order_id, new_status)]. *)
Definition update_order_status (env : Env) (order_id : Z)
    (new_status : string) : M bool := fun s =>
  let u := Gateway.update_order_status crm_site (decode env) (success env)
             (crm_get env (length (crm s))) (crm_post env new_status) in
  let s' := {| redis := redis s; db := db s; audit := audit s;
               sent := sent s;
               crm := crm s ++
                 [Update order_id new_status (Gateway.get_attempts u)
                    (Gateway.post_attempts u)] |} in
  match Gateway.updated u with
  | Gateway.Gives ok => (Some ok, s')
  | Gateway.Throws _ => (None, s')
  end.

Definition mark_order_in_no_product (env : Env) (order_id : Z) : M unit :=
  fun s =>
  (Some (),
   {| redis := redis s;
      db := (Ledger.mark_order_in_no_product (CURRENT_TIMESTAMP env)
               order_id (db s)).2;
      audit := audit s; sent := sent s; crm := crm s |}).

Definition log_order_action (env : Env) (order_id admin_id : Z)
    (action comment : string) : M unit := fun s =>
  (Some (),
   {| redis := redis s; db := db s;
      audit := Ledger.log_order_action (CURRENT_TIMESTAMP env) (today env)
                 order_id admin_id action (Some comment) (audit s);
      sent := sent s; crm := crm s |}).

(** [order.get('number', order_id)] inside an f-string. *)
Definition order_number (order : CrmOrder) (order_id : Z) : string :=
  default (Callback.str order_id) (crm_number order).

(** The [try] block of [handle_discuss_replacement]. *)
Definition discuss_replacement (env : Env) (callback : CallbackQuery)
    (order_id : Z) : M unit :=
  let user_id := from_user_id callback in
  call_telegram env
    (answer "⏳ Переводим в статус 'Обсуждение замен'..." false) ;;
  order ← get_order_by_id env order_id;
  match order with
  | None => safe_send_message env callback "❌ Заказ не найден в системе"
  | Some order =>
      let old_status := crm_status order in
      ok ← update_order_status env order_id (STATUS_DISCUSSION env);
      if ok : bool then
        mark_order_in_no_product env order_id ;;
        log_order_action env order_id user_id "discuss_replacement"
          ("Нет товара в наличии. Статус: " ++ shown old_status ++
           " → " ++ STATUS_DISCUSSION env) ;;
        safe_edit_markup env callback None ;;
        call_telegram env
          (answer "✅ Статус изменён на 'Обсуждение замен'" true) ;;
        safe_send_message env callback
          ("🔄 Заказ #" ++ order_number order order_id ++
           " требует обсуждения замен" ++ nl ++ nl ++
           "📋 Статус изменён: Обсуждение замен")
      else
        safe_send_message env callback "❌ Не удалось обновить статус заказа"
  end.

(** [handle_discuss_replacement]. *)
Definition handle_discuss_replacement (env : Env) (callback : CallbackQuery)
    : M unit :=
  limited ← check_rate_limit_for_user env callback "discuss_replacement" 5 60;
  if limited : bool then ret ()
  else
    match Callback.parse_callback_data (data callback) "discuss_replacement"
    with
    | None =>
        call_telegram env (answer "❌ Ошибка: неверный формат данных" true)
    | Some order_id =>
        try_except (discuss_replacement env callback order_id)
          (call_telegram env (answer "❌ Произошла ошибка" true))
    end.

(** The status that [handle_confirm_order] asks for: the one for pickup
    when the row of the order says [self-delivery]. *)
Definition confirmed_status (env : Env) (delivery_type : option string)
    : string :=
  if bool_decide (delivery_type = Some "self-delivery"%string)
  then STATUS_SELF_PICKUP_READY env
  else STATUS_CONFIRMED env.

(** The [try] block of [handle_confirm_order]. *)
Definition confirm_order (env : Env) (callback : CallbackQuery)
    (order_id : Z) : M unit :=
  let user_id := from_user_id callback in
  call_telegram env (answer "⏳ Обновляю статус заказа..." false) ;;
  order ← get_order_by_id env order_id;
  match order with
  | None => safe_send_message env callback "❌ Заказ не найден в системе"
  | Some order =>
      let old_status := crm_status order in
      fun s =>
      let delivery_type := Ledger.get_order_delivery_type (db s) order_id in
      let new_status := confirmed_status env delivery_type in
      (ok ← update_order_status env order_id new_status;
       if ok : bool then
         log_order_action env order_id user_id "confirmed"
           ("Статус изменен: " ++ shown old_status ++ " → " ++ new_status) ;;
         if bool_decide (delivery_type = Some "self-delivery"%string) then
           safe_edit_markup env callback
             (Some [("🛍️ Заказ забрали"%string,
                     Callback.callback_data "picked_up" order_id)]) ;;
           call_telegram env
             (answer "✅ Заказ подтвержден! Статус: 'Передан в комплектацию'"
                true) ;;
           safe_send_message env callback
             ("✅ <b>ЗАКАЗ #" ++ order_number order order_id ++
              " ПОДТВЕРЖДЕН</b>" ++ nl ++ nl ++
              "📸 Отправьте фото готового букета")
         else
           safe_edit_markup env callback None ;;
           call_telegram env
             (answer "✅ Заказ подтвержден! Статус: 'Передан в комплектацию'"
                true) ;;
           safe_send_message env callback
             ("✅ <b>ЗАКАЗ #" ++ order_number order order_id ++
              " ПОДТВЕРЖДЕН</b>" ++ nl ++ nl ++
              "📸 Отправьте фото готового букета" ++ nl ++ nl ++
              "⏳ После этого измените статус в RetailCRM на " ++
              "'<b>Букет готов</b>'")
       else
         safe_send_message env callback
           "❌ Не удалось обновить статус заказа") s
  end.

(** [handle_confirm_order]. *)
Definition handle_confirm_order (env : Env) (callback : CallbackQuery)
    : M unit :=
  limited ← check_rate_limit_for_user env callback "confirm_order" 5 60;
  if limited : bool then ret ()
  else
    match Callback.parse_callback_data (data callback) "confirm_order" with
    | None =>
        call_telegram env (answer "❌ Ошибка: неверный формат данных" true)
    | Some order_id =>
        try_except (confirm_order env callback order_id)
          (safe_send_message env callback
             "❌ Произошла ошибка при обработке заказа")
    end.

(** A step that only talks to Telegram: it leaves the database and the
    record of the gateway as they are, and raises only when a call of the
    API raised. *)
Definition telegram_only (env : Env) {A : Type} (m : M A) : Prop :=
  forall s,
    db (m s).2 = db s /\ audit (m s).2 = audit s /\ crm (m s).2 = crm s /\
    ((m s).1 = None -> exists n, telegram env n = true).

(** The verdict of the limiter on a click. *)
Definition over_limit (env : Env) (callback : CallbackQuery)
    (action : string) (limit window : Z) (s : State) : bool :=
  (RateLimit.check_rate_limit (rate_limiter env) (redis_net env)
     (redis_now env) (Callback.str (from_user_id callback)) action limit
     window (redis s)).1.1.

(** A backend that has every order, on one site, and accepts every
    update; a Telegram API that never raises; a limiter without Redis. *)
Definition calm : Env :=
  {| rate_limiter := RateLimit.fallback;
     redis_net := RateLimit.all_up;
     redis_ttl := RateLimit.Up;
     redis_now := 0;
     CURRENT_TIMESTAMP := 500;
     today := 0;
     decode := fun _ =>
       Gateway.Data (Some {| crm_site := Some "shop"%string;
                             crm_status := Some "new"%string;
                             crm_number := Some "A-7"%string |});
     success := fun _ => Gateway.Data true;
     crm_get := fun _ => Gateway.answers "order";
     crm_post := fun _ _ => Gateway.answers "done";
     telegram := fun _ => false;
     STATUS_DISCUSSION := "no-product";
     STATUS_CONFIRMED := "confirmed";
     STATUS_SELF_PICKUP_READY := "pickup" |}.

Definition click (payload : string) : CallbackQuery :=
  {| from_user_id := 111; data := payload; message := true |}.

Definition at_rest (d : Ledger.Db) : State :=
  {| redis := ∅; db := d; audit := Ledger.empty_audit; sent := [];
     crm := [] |}.

End Handler.

(** * Proofs *)

(** ** Facts about the ledger *)

Module LedgerFacts.
Import Ledger.

Lemma with_processed_same (db : Db) :
  with_processed (processed_orders db) db = db.
Proof. by destruct db. Qed.

Lemma alter_absent (f : ProcessedOrder -> ProcessedOrder) (k : Z)
    (t : gmap Z ProcessedOrder) :
  t !! k = None -> alter f k t = t.
Proof.
  intros Hk. apply map_eq. intros j.
  destruct (decide (k = j)) as [<-|Hne].
  - by rewrite lookup_alter_eq, Hk.
  - by rewrite lookup_alter_ne.
Qed.

Lemma is_order_processed_spec (db : Db) (order_id : Z) :
  is_order_processed db order_id = true <->
  is_Some (processed_orders db !! order_id).
Proof.
  unfold is_order_processed, sql_count.
  destruct (processed_orders db !! order_id) as [r|]; simpl.
  - split; [eauto | done].
  - split; [done | by intros [? ?]].
Qed.

Lemma is_order_processed_false (db : Db) (order_id : Z) :
  is_order_processed db order_id = false <->
  processed_orders db !! order_id = None.
Proof.
  unfold is_order_processed, sql_count.
  destruct (processed_orders db !! order_id) as [r|]; simpl; split; done.
Qed.

Lemma get_all_processed_orders_elem (db : Db) (k : Z) (r : ProcessedOrder) :
  (k, r) ∈ get_all_processed_orders db <->
  processed_orders db !! k = Some r.
Proof.
  unfold get_all_processed_orders.
  rewrite merge_sort_Permutation. apply elem_of_map_to_list.
Qed.

Lemma get_all_processed_orders_NoDup (db : Db) :
  NoDup (get_all_processed_orders db).*1.
Proof.
  unfold get_all_processed_orders.
  rewrite merge_sort_Permutation. apply NoDup_fst_map_to_list.
Qed.

(** C2, as stated, on a concrete ledger: order 7 is stored with both
    no-product flags set; saving order 7 again clears both of them. *)
Lemma save_processed_order_clears_flags :
  was_order_in_no_product flagged_db 7 = true /\
  is_order_returned_from_no_product flagged_db 7 = true /\
  let db' := (save_processed_order 200 7 "A-7" "target" (Some "courier")
                (Some 1500) None (Some "20") flagged_db).2 in
  was_order_in_no_product db' 7 = false /\
  is_order_returned_from_no_product db' 7 = false.
Proof.
  unfold was_order_in_no_product, is_order_returned_from_no_product,
    save_processed_order, flagged_db; simpl.
  rewrite lookup_singleton_eq, lookup_insert_eq. done.
Qed.

(** C2, amended: [save_processed_order] succeeds and stores, for that
    order, a row whose [was_in_no_product], [returned_from_no_product] and
    [bouquet_ready_notified] are all 0, whether or not the order had a row
    before and whatever its flags were; the rows of all other orders are
    the same as before. *)
Theorem save_processed_order_zeroes_flags
    (now order_id : Z) (number st : string) (delivery : option string)
    (sum : option Z) (customer warehouse : option string) (db : Db) :
  let res := save_processed_order now order_id number st delivery sum
               customer warehouse db in
  res.1 = true /\
  (exists r, processed_orders res.2 !! order_id = Some r /\
             was_in_no_product r = false /\
             returned_from_no_product r = false /\
             bouquet_ready_notified r = false /\
             order_number r = number /\ status r = st) /\
  was_order_in_no_product res.2 order_id = false /\
  is_order_returned_from_no_product res.2 order_id = false /\
  (forall other, other <> order_id ->
     processed_orders res.2 !! other = processed_orders db !! other).
Proof.
  unfold save_processed_order, was_order_in_no_product,
    is_order_returned_from_no_product; simpl.
  rewrite lookup_insert_eq. repeat split.
  - eexists; split; [reflexivity | by simpl].
  - intros other Hne. by rewrite lookup_insert_ne.
Qed.

(** C4: [reset_order_for_renotification] returns true exactly when the
    order has a row whose [was_in_no_product] is set, and then that row,
    and only that row, is deleted; when it returns false (no row, or the
    flag is 0) the database is the one it was given. *)
Theorem reset_order_for_renotification_guarded (order_id : Z) (db : Db) :
  let res := reset_order_for_renotification order_id db in
  (res.1 = true <->
     exists r, processed_orders db !! order_id = Some r /\
               was_in_no_product r = true) /\
  (res.1 = true ->
     processed_orders res.2 = delete order_id (processed_orders db) /\
     is_order_processed res.2 order_id = false) /\
  (res.1 = false -> res.2 = db).
Proof.
  unfold reset_order_for_renotification, sql_delete, sql_count.
  destruct (processed_orders db !! order_id) as [r|] eqn:Hrow; simpl.
  - destruct (was_in_no_product r) eqn:Hwas; simpl.
    + repeat split; eauto.
      * apply is_order_processed_false; simpl. apply lookup_delete_eq.
      * done.
    + repeat split; try done.
      intros (r' & Hr' & Hw). congruence.
  - repeat split; try done.
    intros (r' & Hr' & _). done.
Qed.

(** C10: for an order that has no row, [mark_order_in_no_product] and
    [mark_order_returned_from_no_product] return true and leave the
    database as it was, so no flag is set for the order afterwards, while
    [mark_bouquet_ready_notified] returns false. *)
Theorem markers_on_absent_order (now order_id : Z) (db : Db) :
  processed_orders db !! order_id = None ->
  mark_order_in_no_product now order_id db = (true, db) /\
  mark_order_returned_from_no_product now order_id db = (true, db) /\
  mark_bouquet_ready_notified now order_id db = (false, db) /\
  was_order_in_no_product
    (mark_order_in_no_product now order_id db).2 order_id = false /\
  is_order_returned_from_no_product
    (mark_order_returned_from_no_product now order_id db).2 order_id = false.
Proof.
  intros Hrow.
  unfold mark_order_in_no_product, mark_order_returned_from_no_product,
    mark_bouquet_ready_notified, sql_update, sql_count,
    was_order_in_no_product, is_order_returned_from_no_product.
  rewrite Hrow; simpl.
  rewrite !alter_absent, !with_processed_same by done.
  by rewrite Hrow.
Qed.

Lemma markers_on_absent_order_witness :
  processed_orders empty_db !! 7 = None /\
  mark_order_in_no_product 10 7 empty_db = (true, empty_db) /\
  mark_bouquet_ready_notified 10 7 empty_db = (false, empty_db).
Proof.
  assert (H : processed_orders empty_db !! 7 = None) by reflexivity.
  split; [exact H|].
  destruct (markers_on_absent_order 10 7 empty_db H) as (H1 & _ & H3 & _).
  split; [exact H1 | exact H3].
Defined.

End LedgerFacts.

(** ** Facts about the rate limiter *)

Module RateLimitFacts.
Import RateLimit.

Lemma read_insert_live (now : Z) (key : string) (e : Entry)
    (srv : gmap string Entry) :
  live now e = true -> read now key (<[key := e]> srv) = Some e.
Proof. intros Hl. unfold read. by rewrite lookup_insert_eq, Hl. Qed.

Lemma read_Some (now : Z) (key : string) (e : Entry)
    (srv : gmap string Entry) :
  read now key srv = Some e -> srv !! key = Some e /\ live now e = true.
Proof.
  unfold read. destruct (srv !! key) as [e'|]; [|done].
  destruct (live now e') eqn:Hl; [|done]. by intros [= ->].
Qed.

Lemma count_fresh (now : Z) (key : string) (srv : gmap string Entry) :
  read now key srv = None -> count now key srv = 0.
Proof. unfold count. by intros ->. Qed.

(** The first call of a window: the counter is created at 1 and gets its
    time to live. *)
Lemma check_fresh (self : RateLimiter) (now : Z) (identifier action : string)
    (limit window : Z) (srv : gmap string Entry) :
  redis self = Some () ->
  read now (_get_key self identifier action) srv = None ->
  0 < window ->
  check_rate_limit self all_up now identifier action limit window srv =
    ((bool_decide (limit < 1), Z.max 0 (limit - 1)),
     <[_get_key self identifier action :=
         {| value := 1; expire_at := Some (now + window * 1000) |}]> srv).
Proof.
  intros Hc Hfresh Hw.
  unfold check_rate_limit, check_body. rewrite Hc. simpl.
  unfold incr. rewrite Hfresh. simpl.
  unfold expire. rewrite read_insert_live by done. simpl.
  rewrite bool_decide_eq_false_2 by lia.
  rewrite insert_insert_eq.
  destruct (bool_decide (limit < 1)) eqn:Hlim; [|done].
  unfold ttl. rewrite read_insert_live; [done|].
  unfold live; simpl. apply bool_decide_eq_true_2. lia.
Qed.

(** A later call of the window: the counter goes up by one and keeps the
    time to live it has. *)
Lemma check_live (self : RateLimiter) (now : Z) (identifier action : string)
    (limit window : Z) (srv : gmap string Entry) (e : Entry) :
  redis self = Some () ->
  read now (_get_key self identifier action) srv = Some e ->
  value e <> int64_max ->
  value e <> 0 ->
  check_rate_limit self all_up now identifier action limit window srv =
    ((bool_decide (limit < value e + 1), Z.max 0 (limit - (value e + 1))),
     <[_get_key self identifier action :=
         {| value := value e + 1; expire_at := expire_at e |}]> srv).
Proof.
  intros Hc Hread Hmax Hnz.
  destruct (read_Some _ _ _ _ Hread) as [Hlook Hlive].
  unfold check_rate_limit, check_body. rewrite Hc. simpl.
  unfold incr. rewrite Hread.
  rewrite bool_decide_eq_false_2 by done.
  rewrite (bool_decide_eq_false_2 (value e + 1 = 1)) by lia.
  destruct (bool_decide (limit < value e + 1)) eqn:Hlim; [|done].
  simpl. unfold ttl. rewrite read_insert_live by done. simpl.
  by destruct (expire_at e).
Qed.

(** A call that finds the count at 0, whether the key is absent, expired or
    holds 0: the counter becomes 1 and the time to live is set. *)
Lemma check_first (self : RateLimiter) (now : Z) (identifier action : string)
    (limit window : Z) (srv : gmap string Entry) :
  redis self = Some () ->
  count now (_get_key self identifier action) srv = 0 ->
  0 < window ->
  check_rate_limit self all_up now identifier action limit window srv =
    ((bool_decide (limit < 1), Z.max 0 (limit - 1)),
     <[_get_key self identifier action :=
         {| value := 1; expire_at := Some (now + window * 1000) |}]> srv).
Proof.
  intros Hc Hcount Hw. unfold count in Hcount.
  destruct (read now (_get_key self identifier action) srv) as [e|] eqn:Hread;
    [|by apply check_fresh].
  destruct (read_Some _ _ _ _ Hread) as [Hlook Hlive].
  unfold check_rate_limit, check_body. rewrite Hc. simpl.
  unfold incr. rewrite Hread, Hcount.
  rewrite bool_decide_eq_false_2 by done. simpl.
  unfold expire. rewrite read_insert_live by done. simpl.
  rewrite bool_decide_eq_false_2 by lia.
  rewrite insert_insert_eq. change (0 + 1) with 1.
  destruct (bool_decide (limit < 1)) eqn:Hlim; [|done].
  unfold ttl. rewrite read_insert_live; [done|].
  unfold live; simpl. apply bool_decide_eq_true_2. lia.
Qed.

(** The same call with a window that is not positive: [EXPIRE] deletes the
    key it was sent for. *)
Lemma check_first_no_window (self : RateLimiter) (now : Z)
    (identifier action : string) (limit window : Z)
    (srv : gmap string Entry) :
  redis self = Some () ->
  count now (_get_key self identifier action) srv = 0 ->
  window <= 0 ->
  check_rate_limit self all_up now identifier action limit window srv =
    ((bool_decide (limit < 1), Z.max 0 (limit - 1)),
     delete (_get_key self identifier action) srv).
Proof.
  intros Hc Hcount Hw. unfold count in Hcount.
  unfold check_rate_limit, check_body. rewrite Hc. simpl. unfold incr.
  destruct (read now (_get_key self identifier action) srv) as [e|] eqn:Hread.
  - destruct (read_Some _ _ _ _ Hread) as [Hlook Hlive].
    rewrite Hcount. rewrite bool_decide_eq_false_2 by done. simpl.
    change (0 + 1) with 1.
    unfold expire. rewrite read_insert_live by done.
    rewrite bool_decide_eq_true_2 by lia. rewrite delete_insert_eq.
    destruct (bool_decide (limit < 1)) eqn:Hlim; [|done].
    simpl. unfold ttl, read. by rewrite lookup_delete_eq.
  - simpl. unfold expire. rewrite read_insert_live by done.
    rewrite bool_decide_eq_true_2 by lia. rewrite delete_insert_eq.
    destruct (bool_decide (limit < 1)) eqn:Hlim; [|done].
    simpl. unfold ttl, read. by rewrite lookup_delete_eq.
Qed.

(** The counter of a window that started at [t0] is read at any instant up
    to the end of the window, and is gone after it. *)
Lemma read_window (t0 now window n : Z) (key : string)
    (srv : gmap string Entry) :
  now <= t0 + window * 1000 ->
  read now key
    (<[key := {| value := n; expire_at := Some (t0 + window * 1000) |}]> srv)
  = Some {| value := n; expire_at := Some (t0 + window * 1000) |}.
Proof.
  intros Hle. apply read_insert_live. unfold live; simpl.
  by apply bool_decide_eq_true_2.
Qed.

Lemma read_window_over (t0 now window n : Z) (key : string)
    (srv : gmap string Entry) :
  t0 + window * 1000 < now ->
  read now key
    (<[key := {| value := n; expire_at := Some (t0 + window * 1000) |}]> srv)
  = None.
Proof.
  intros Hlt. unfold read. rewrite lookup_insert_eq. unfold live; simpl.
  rewrite bool_decide_eq_false_2 by lia. done.
Qed.

(** C6: over a connection that works, a call that brings the count of its
    key to [c] answers [is_limited = (c > limit)] and
    [remaining = max 0 (limit - c)]; it sets the time to live of the key
    when [c = 1] and leaves it as it is otherwise, and touches no other key.
    With limit 5 and window 60 on a key that is fresh at [t1], six calls
    within the window answer (false, 4), (false, 3), (false, 2), (false, 1),
    (false, 0), (true, 0); at an instant after the window the key is gone
    and the next call answers (false, 4) again. *)
Theorem fixed_window_counter (self : RateLimiter)
    (identifier action : string) (srv : gmap string Entry) :
  redis self = Some () ->
  let key := _get_key self identifier action in
  (forall now limit window,
     count now key srv <> int64_max ->
     let c := count now key srv + 1 in
     let res :=
       check_rate_limit self all_up now identifier action limit window srv in
     res.1 = (bool_decide (limit < c), Z.max 0 (limit - c)) /\
     (c = 1 -> 0 < window ->
        res.2 !! key =
          Some {| value := 1; expire_at := Some (now + window * 1000) |}) /\
     (c <> 1 ->
        exists e, read now key srv = Some e /\
                  res.2 !! key =
                    Some {| value := c; expire_at := expire_at e |}) /\
     (forall k, k <> key -> res.2 !! k = srv !! k)) /\
  (forall t1 t2 t3 t4 t5 t6 t7,
     read t1 key srv = None ->
     t1 <= t2 <= t1 + 60000 -> t1 <= t3 <= t1 + 60000 ->
     t1 <= t4 <= t1 + 60000 -> t1 <= t5 <= t1 + 60000 ->
     t1 <= t6 <= t1 + 60000 -> t1 + 60000 < t7 ->
     (check_at self identifier action 5 60 [t1; t2; t3; t4; t5; t6] srv).1 =
       [(false, 4); (false, 3); (false, 2); (false, 1); (false, 0);
        (true, 0)] /\
     read t7 key
       (check_at self identifier action 5 60 [t1; t2; t3; t4; t5; t6] srv).2
       = None /\
     (check_at self identifier action 5 60
        [t1; t2; t3; t4; t5; t6; t7] srv).1 =
       [(false, 4); (false, 3); (false, 2); (false, 1); (false, 0);
        (true, 0); (false, 4)]).
Proof.
  intros Hc key. split.
  - intros now limit window Hmax c res. subst c res.
    destruct (decide (count now key srv = 0)) as [Hz|Hnz].
    + rewrite Hz. simpl.
      destruct (decide (0 < window)) as [Hw|Hw].
      * fold key. rewrite (check_first self now identifier action limit
                             window srv Hc Hz Hw). simpl. fold key.
        repeat split.
        -- intros _ _. apply lookup_insert_eq.
        -- intros Hne. done.
        -- intros k Hk. by rewrite lookup_insert_ne.
      * fold key. rewrite (check_first_no_window self now identifier action
                             limit window srv Hc Hz ltac:(lia)).
        simpl. fold key. repeat split.
        -- intros _ Hpos. lia.
        -- intros Hne. done.
        -- intros k Hk. by rewrite lookup_delete_ne.
    + unfold count in Hmax, Hnz |- *.
      destruct (read now key srv) as [e|] eqn:Hread; [|done].
      fold key.
      rewrite (check_live self now identifier action limit window srv e
                 Hc Hread Hmax Hnz). simpl. fold key.
      repeat split.
      * intros H1. lia.
      * intros _. exists e. split; [done | apply lookup_insert_eq].
      * intros k Hk. by rewrite lookup_insert_ne.
  - intros t1 t2 t3 t4 t5 t6 t7 Hfresh H2 H3 H4 H5 H6 H7.
    assert (Hw : 0 < 60) by lia.
    pose proof (check_fresh self t1 identifier action 5 60 srv Hc Hfresh Hw)
      as E1.
    fold key in E1. change (60 * 1000) with 60000 in E1.
    set (win := Some (t1 + 60000)) in *.
    set (s1 := <[key := {| value := 1; expire_at := win |}]> srv) in *.
    assert (Hstep : forall now n s,
              t1 <= now <= t1 + 60000 -> 0 < n < int64_max ->
              check_rate_limit self all_up now identifier action 5 60
                (<[key := {| value := n; expire_at := win |}]> s) =
              ((bool_decide (5 < n + 1), Z.max 0 (5 - (n + 1))),
               <[key := {| value := n + 1; expire_at := win |}]>
                 (<[key := {| value := n; expire_at := win |}]> s))).
    { intros now n s Hnow Hn.
      apply (check_live self now identifier action 5 60 _
               {| value := n; expire_at := win |} Hc); simpl; [|lia|lia].
      subst win. change 60000 with (60 * 1000).
      apply read_window. lia. }
    assert (int64_max = 9223372036854775807) as Hmaxv by reflexivity.
    simpl check_at. rewrite E1. subst s1.
    rewrite !Hstep by lia. simpl.
    split; [done|]. split.
    + subst win. change 60000 with (60 * 1000).
      apply read_window_over. lia.
    + rewrite check_fresh; [done | done | | lia].
      subst win. change 60000 with (60 * 1000).
      apply read_window_over. lia.
Qed.

Lemma fixed_window_counter_witness :
  redis connected = Some () /\
  (check_at connected "12345" "confirm_order" 5 60
     [0; 1000; 2000; 3000; 4000; 5000; 61000] ∅).1 =
    [(false, 4); (false, 3); (false, 2); (false, 1); (false, 0);
     (true, 0); (false, 4)].
Proof.
  split; [reflexivity|].
  destruct (fixed_window_counter connected "12345" "confirm_order" ∅ eq_refl)
    as [_ Hrun].
  refine (proj2 (proj2 (Hrun 0 1000 2000 3000 4000 5000 61000 _ _ _ _ _ _ _)));
    first [reflexivity | lia].
Defined.

Lemma send_reply {A : Type} (link : Link)
    (cmd : gmap string Entry -> reply A * gmap string Entry)
    (srv : gmap string Entry) :
  (send link cmd srv).1 =
    match link with Up => (cmd srv).1 | _ => Raised end.
Proof. by destruct link. Qed.

Lemma incr_reply (now : Z) (key : string) (srv : gmap string Entry) :
  (incr now key srv).1 =
    if bool_decide (count now key srv = int64_max) then Raised
    else Reply (count now key srv + 1).
Proof.
  unfold incr, count. destruct (read now key srv) as [e|]; [|done].
  by destruct (bool_decide (value e = int64_max)).
Qed.

Lemma expire_reply (now : Z) (key : string) (seconds : Z)
    (srv : gmap string Entry) :
  exists n, (expire now key seconds srv).1 = Reply n.
Proof.
  unfold expire. destruct (read now key srv) as [e|]; [|by eexists].
  destruct (bool_decide (seconds <= 0)); by eexists.
Qed.

Lemma ttl_reply (now : Z) (key : string) (srv : gmap string Entry) :
  exists n, (ttl now key srv).1 = Reply n.
Proof.
  unfold ttl. destruct (read now key srv) as [e|]; [|by eexists].
  destruct (expire_at e); by eexists.
Qed.

(** The [try] block is left by an exception exactly when one of the
    commands it sends raises. *)
Lemma check_body_raised_iff (self : RateLimiter) (net : Net) (now : Z)
    (identifier action : string) (limit window : Z)
    (srv : gmap string Entry) :
  (check_body self net now identifier action limit window srv).1 = Raised <->
  command_raises net now (_get_key self identifier action) limit srv.
Proof.
  unfold check_body, command_raises.
  set (key := _get_key self identifier action).
  pose proof (send_reply (net_incr net) (incr now key) srv) as R1.
  rewrite incr_reply in R1.
  destruct (send (net_incr net) (incr now key) srv) as [r1 srv1].
  simpl in R1. subst r1.
  destruct (net_incr net) eqn:Hi; simpl;
    [| split; [intros _; by left | done] ..].
  destruct (decide (count now key srv = int64_max)) as [Hmax|Hmax].
  { rewrite bool_decide_eq_true_2 by done. simpl.
    split; [intros _; right; by left | done]. }
  rewrite bool_decide_eq_false_2 by done.
  set (current := count now key srv + 1).
  assert (Hset : forall srv2 set,
            (if bool_decide (current = 1)
             then send (net_expire net) (expire now key window) srv1
             else (Reply 0, srv1)) = (set, srv2) ->
            set = Raised <->
            count now key srv = 0 /\ net_expire net <> Up).
  { intros srv2 set Hs.
    destruct (decide (current = 1)) as [H1|H1].
    - rewrite bool_decide_eq_true_2 in Hs by done.
      pose proof (send_reply (net_expire net) (expire now key window) srv1)
        as R2.
      rewrite Hs in R2. simpl in R2.
      destruct (expire_reply now key window srv1) as [n Hn].
      destruct (net_expire net); subst set.
      + rewrite Hn. split; [done | by intros [_ ?]].
      + split; [intros _; split; [lia | done] | done].
      + split; [intros _; split; [lia | done] | done].
    - rewrite bool_decide_eq_false_2 in Hs by done.
      injection Hs as <- <-. split; [done | intros [? _]; lia]. }
  destruct (if bool_decide (current = 1)
            then send (net_expire net) (expire now key window) srv1
            else (Reply 0, srv1)) as [set srv2] eqn:Hs.
  specialize (Hset srv2 set eq_refl).
  destruct set as [n|]; simpl.
  2: { split; [intros _; right; right; left; by apply Hset | done]. }
  assert (Hne : ~ (count now key srv = 0 /\ net_expire net <> Up)).
  { intros H. by apply Hset in H. }
  destruct (decide (limit < current)) as [Hl|Hl].
  - rewrite bool_decide_eq_true_2 by done.
    pose proof (send_reply (net_ttl net) (ttl now key) srv2) as R3.
    destruct (ttl_reply now key srv2) as [m Hm].
    destruct (send (net_ttl net) (ttl now key) srv2) as [r3 srv3].
    simpl in R3. subst r3.
    destruct (net_ttl net) eqn:Ht.
    + rewrite Hm. simpl. split; [done|].
      intros [?|[?|[?|[_ ?]]]]; done.
    + simpl. split; [intros _|done]. right; right; right. by split.
    + simpl. split; [intros _|done]. right; right; right. by split.
  - rewrite bool_decide_eq_false_2 by done. simpl.
    split; [done|]. intros [?|[?|[?|[? _]]]]; done.
Qed.

(** C7: without a client, or when a command of the check raises, the
    answer is [(false, limit)]: the caller is not limited and is told it has
    the whole limit left.  Without a client the server is not contacted. *)
Theorem rate_limiter_fails_open (self : RateLimiter) (net : Net) (now : Z)
    (identifier action : string) (limit window : Z)
    (srv : gmap string Entry) :
  redis self = None \/
  command_raises net now (_get_key self identifier action) limit srv ->
  (check_rate_limit self net now identifier action limit window srv).1 =
    (false, limit) /\
  (redis self = None ->
   (check_rate_limit self net now identifier action limit window srv).2 = srv).
Proof.
  intros Hdown. unfold check_rate_limit.
  destruct (redis self) as [[]|] eqn:Hc; [|done].
  destruct Hdown as [?|Hraise]; [done|].
  apply check_body_raised_iff with (self := self) (window := window)
    in Hraise.
  destruct (check_body self net now identifier action limit window srv)
    as [[r|] srv'] eqn:Hbody; simpl in *; [done|].
  split; [done | done].
Qed.

Lemma rate_limiter_fails_open_witness :
  (check_rate_limit fallback all_up 0 "12345" "confirm_order" 5 60 ∅).1 =
    (false, 5) /\
  (check_rate_limit connected
     {| net_incr := DownBefore; net_expire := Up; net_ttl := Up |}
     0 "12345" "confirm_order" 5 60 ∅).1 = (false, 5).
Proof.
  split.
  - apply (rate_limiter_fails_open fallback all_up 0 "12345" "confirm_order"
             5 60 ∅). left. reflexivity.
  - apply (rate_limiter_fails_open connected
             {| net_incr := DownBefore; net_expire := Up; net_ttl := Up |}
             0 "12345" "confirm_order" 5 60 ∅).
    right. left. simpl. discriminate.
Defined.

End RateLimitFacts.

Module CallbackFacts.
Import Callback.

Example parse_ok :
  parse_callback_data "confirm_order:12345" "confirm_order" = Some 12345.
Proof. reflexivity. Qed.

Example parse_no_id :
  parse_callback_data "confirm_order" "confirm_order" = None.
Proof. reflexivity. Qed.

Example parse_not_a_number :
  parse_callback_data "confirm_order:abc" "confirm_order" = None.
Proof. reflexivity. Qed.

Example parse_negative :
  parse_callback_data "confirm_order:-5" "confirm_order" = None.
Proof. reflexivity. Qed.

Example parse_zero :
  parse_callback_data "confirm_order:0" "confirm_order" = None.
Proof. reflexivity. Qed.

Example parse_two_fields :
  parse_callback_data "confirm_order:5:6" "confirm_order" = None.
Proof. reflexivity. Qed.

Example parse_empty_fields :
  parse_callback_data "confirm_order::" "confirm_order" = None.
Proof. reflexivity. Qed.

Example parse_signed :
  parse_callback_data "confirm_order:+5" "confirm_order" = Some 5.
Proof. reflexivity. Qed.

Example parse_spaced :
  parse_callback_data "confirm_order: 12 " "confirm_order" = Some 12.
Proof. reflexivity. Qed.

Example parse_underscore :
  parse_callback_data "confirm_order:1_0" "confirm_order" = Some 10.
Proof. reflexivity. Qed.

Example parse_action_with_colon :
  parse_callback_data "a:b:5" "a:b" = None.
Proof. reflexivity. Qed.

(** *** [startswith] and [split] *)

Lemma startswith_prefix (p s : list ascii) :
  startswith p s = true <-> exists rest, s = p ++ rest.
Proof.
  revert s. induction p as [|a p IH]; intros s; simpl.
  - split; [intros _; by exists s | done].
  - destruct s as [|b s].
    + split; [done | intros [rest Hr]; discriminate].
    + rewrite andb_true_iff, Ascii.eqb_eq, IH. split.
      * intros [-> [rest ->]]. by exists rest.
      * intros [rest [= <- ->]]. split; [done | by exists rest].
Qed.

Lemma split_nonempty (sep : ascii) (s : list ascii) : split sep s <> [].
Proof.
  destruct s as [|c rest]; simpl; [done|].
  destruct (Ascii.eqb c sep); [done|].
  by destruct (split sep rest).
Qed.

Lemma split_no_sep (sep : ascii) (s : list ascii) :
  sep ∉ s -> split sep s = [s].
Proof.
  induction s as [|c rest IH]; intros Hs; simpl; [done|].
  apply not_elem_of_cons in Hs as [Hne Hrest].
  rewrite (proj2 (Ascii.eqb_neq c sep)) by done.
  by rewrite IH.
Qed.

Lemma split_at_first (sep : ascii) (a b : list ascii) :
  sep ∉ a -> split sep (a ++ sep :: b) = a :: split sep b.
Proof.
  induction a as [|c a IH]; intros Ha; simpl.
  - by rewrite Ascii.eqb_refl.
  - apply not_elem_of_cons in Ha as [Hne Ha].
    rewrite (proj2 (Ascii.eqb_neq c sep)) by done.
    by rewrite IH.
Qed.

Lemma split_length_1 (sep : ascii) (s : list ascii) :
  length (split sep s) = 1%nat -> sep ∉ s.
Proof.
  induction s as [|c rest IH]; simpl; [intros _; apply not_elem_of_nil|].
  destruct (Ascii.eqb c sep) eqn:Hc.
  - simpl. pose proof (split_nonempty sep rest) as Hne.
    destruct (split sep rest); [done | simpl; lia].
  - apply Ascii.eqb_neq in Hc.
    pose proof (split_nonempty sep rest) as Hne.
    destruct (split sep rest) as [|part parts] eqn:Hsp; [done|].
    simpl in *. intros Hlen. apply not_elem_of_cons. split; [congruence|].
    by apply IH.
Qed.

Lemma split_length_2 (sep : ascii) (s : list ascii) :
  length (split sep s) = 2%nat ->
  exists a b, s = a ++ sep :: b /\ (sep ∉ a) /\ (sep ∉ b).
Proof.
  induction s as [|c rest IH]; simpl; [done|].
  destruct (Ascii.eqb c sep) eqn:Hc.
  - apply Ascii.eqb_eq in Hc as ->. simpl. intros [= Hlen].
    exists [], rest. repeat split; [apply not_elem_of_nil|].
    by apply split_length_1.
  - apply Ascii.eqb_neq in Hc.
    pose proof (split_nonempty sep rest) as Hne.
    destruct (split sep rest) as [|part parts] eqn:Hsp; [done|].
    simpl in *. intros Hlen.
    destruct (IH Hlen) as (a & b & -> & Ha & Hb).
    exists (c :: a), b. repeat split; [|done].
    apply not_elem_of_cons. split; [congruence | done].
Qed.

(** *** [strip] *)

Section Strip.
Variable space : ascii -> bool.

Lemma lstrip_decomp (s : list ascii) :
  exists l, s = l ++ lstrip space s /\ Forall (fun c => space c = true) l.
Proof.
  induction s as [|c rest (l & Hl & Hsp)]; simpl.
  - by exists [].
  - destruct (space c) eqn:Hc.
    + exists (c :: l). split; [simpl; congruence | by constructor].
    + by exists [].
Qed.

Lemma lstrip_head (s : list ascii) (c : ascii) (t : list ascii) :
  lstrip space s = c :: t -> space c = false.
Proof.
  induction s as [|d rest IH]; simpl; [done|].
  destruct (space d) eqn:Hd; [done|]. by intros [= <- _].
Qed.

Lemma lstrip_spaces (l m : list ascii) :
  Forall (fun c => space c = true) l ->
  lstrip space (l ++ m) = lstrip space m.
Proof. induction 1 as [|c l Hc _ IH]; simpl; [done|]. by rewrite Hc. Qed.

Lemma lstrip_fixed (c : ascii) (t : list ascii) :
  space c = false -> lstrip space (c :: t) = c :: t.
Proof. intros Hc. simpl. by rewrite Hc. Qed.

Lemma rstrip_decomp (s : list ascii) :
  exists r, s = rstrip space s ++ r /\ Forall (fun c => space c = true) r.
Proof.
  unfold rstrip. destruct (lstrip_decomp (rev s)) as (l & Hl & Hsp).
  exists (rev l). split.
  - rewrite <- rev_app_distr, <- Hl. by rewrite rev_involutive.
  - by apply Forall_rev.
Qed.

Lemma rstrip_last (s t : list ascii) (c : ascii) :
  rstrip space s = t ++ [c] -> space c = false.
Proof.
  unfold rstrip. intros H.
  apply (f_equal (@rev ascii)) in H.
  rewrite rev_involutive, rev_app_distr in H. simpl in H.
  by apply lstrip_head in H.
Qed.

Lemma rstrip_spaces (m r : list ascii) :
  Forall (fun c => space c = true) r ->
  rstrip space (m ++ r) = rstrip space m.
Proof.
  intros Hr. unfold rstrip. rewrite rev_app_distr.
  rewrite lstrip_spaces; [done | by apply Forall_rev].
Qed.

Lemma rstrip_fixed (t : list ascii) (c : ascii) :
  space c = false -> rstrip space (t ++ [c]) = t ++ [c].
Proof.
  intros Hc. unfold rstrip. rewrite rev_app_distr. simpl.
  rewrite Hc. simpl. by rewrite rev_involutive.
Qed.

Lemma strip_decomp (s : list ascii) :
  exists l r, s = l ++ strip space s ++ r /\
              Forall (fun c => space c = true) l /\
              Forall (fun c => space c = true) r.
Proof.
  unfold strip.
  destruct (lstrip_decomp s) as (l & Hl & Hsl).
  destruct (rstrip_decomp (lstrip space s)) as (r & Hr & Hsr).
  exists l, r. repeat split; [|done..]. by rewrite <- Hr.
Qed.

Lemma strip_trimmed (s : list ascii) : trimmed space (strip space s).
Proof.
  unfold strip.
  destruct (rstrip_decomp (lstrip space s)) as (r & Hr & Hsr).
  destruct (rstrip space (lstrip space s)) as [|c t] eqn:Hm; [by left|].
  right. split.
  - exists c, t. split; [done|].
    simpl in Hr. by apply lstrip_head in Hr.
  - destruct (exists_last (l := c :: t)) as (t' & c' & Hlast); [done|].
    exists t', c'. split; [done|].
    rewrite Hlast in Hm. by apply rstrip_last in Hm.
Qed.

Lemma strip_exact (l m r : list ascii) :
  Forall (fun c => space c = true) l ->
  Forall (fun c => space c = true) r ->
  trimmed space m ->
  strip space (l ++ m ++ r) = m.
Proof.
  intros Hl Hr [->|[(c & t & Hm & Hc) (t' & c' & Hm' & Hc')]].
  - unfold strip. simpl. rewrite lstrip_spaces by done.
    destruct (lstrip_decomp r) as (l' & Hl' & Hsl').
    assert (Hall : Forall (fun c => space c = true) (lstrip space r)).
    { rewrite Hl' in Hr. by apply Forall_app in Hr as [_ ?]. }
    destruct (lstrip space r) as [|d u] eqn:Hd; [done|].
    apply lstrip_head in Hd. apply Forall_cons in Hall as [? _]. congruence.
  - unfold strip. rewrite lstrip_spaces by done.
    rewrite Hm. simpl app. rewrite lstrip_fixed by done.
    change (c :: t ++ r) with ((c :: t) ++ r). rewrite <- Hm.
    rewrite rstrip_spaces by done.
    rewrite Hm'. by apply rstrip_fixed.
Qed.

End Strip.

Lemma single_sep_unique (sep : ascii) (a b a' b' : list ascii) :
  sep ∉ a -> sep ∉ b -> a ++ sep :: b = a' ++ sep :: b' ->
  a = a' /\ b = b'.
Proof.
  revert a'. induction a as [|c a IH]; intros [|c' a'] Ha Hb; simpl.
  - by intros [= ->].
  - intros [= <- ->]. exfalso. apply Hb. set_solver.
  - intros [= -> _]. exfalso. apply Ha. set_solver.
  - intros [= <- Heq]. apply not_elem_of_cons in Ha as [_ Ha].
    destruct (IH a' Ha Hb Heq) as [-> ->]. done.
Qed.

(** *** Characters *)

Ltac each_char c :=
  destruct c as [[] [] [] [] [] [] [] []]; vm_compute; try done.

Lemma digit_not_space (c : ascii) :
  is_Some (digit_of c) -> isspace c = false.
Proof. intros [d Hd]. revert Hd. each_char c. Qed.

Lemma digit_not_mark (c : ascii) :
  is_Some (digit_of c) ->
  c <> minus /\ c <> plus /\ c <> colon /\ c <> underscore.
Proof. intros [d Hd]. revert Hd. each_char c. Qed.

Lemma space_not_colon (c : ascii) : isspace c = true -> c <> colon.
Proof. each_char c. Qed.

Lemma int_space_isspace (c : ascii) : isspace c = false -> int_space c = false.
Proof. each_char c. Qed.

Lemma digit_range (c : ascii) (d : Z) : digit_of c = Some d -> 0 <= d <= 9.
Proof.
  unfold digit_of. destruct (_ && _) eqn:Hr; [|done].
  intros [= <-]. apply andb_true_iff in Hr as [H1 H2]. lia.
Qed.

Lemma underscore_not_digit : digit_of underscore = None.
Proof. reflexivity. Qed.

(** *** Literals *)

Lemma grouped_head (s : list ascii) :
  grouped s -> exists c t, s = c :: t /\ is_Some (digit_of c).
Proof. destruct 1; eauto. Qed.

Lemma grouped_last_digit (s : list ascii) :
  grouped s -> exists t c, s = t ++ [c] /\ is_Some (digit_of c).
Proof.
  induction 1 as [c Hc | c s Hc _ (t & d & -> & Hd)
                 | c s Hc _ (t & d & -> & Hd)].
  - by exists [], c.
  - by exists (c :: t), d.
  - by exists (c :: underscore :: t), d.
Qed.

Lemma grouped_no_colon (s : list ascii) : grouped s -> colon ∉ s.
Proof.
  induction 1 as [c Hc | c s Hc _ IH | c s Hc _ IH];
    destruct (digit_not_mark c Hc) as (_ & _ & Hcol & _).
  - set_solver.
  - set_solver.
  - apply not_elem_of_cons. split; [congruence|].
    apply not_elem_of_cons. split; [done | done].
Qed.

Lemma digits_cons_digit (c : ascii) (d : Z) (s : list ascii) :
  digit_of c = Some d -> digits (c :: s) = d :: digits s.
Proof. unfold digits. simpl. by intros ->. Qed.

Lemma digits_cons_other (c : ascii) (s : list ascii) :
  digit_of c = None -> digits (c :: s) = digits s.
Proof. unfold digits. simpl. by intros ->. Qed.

(** [scan] reads exactly the literals: after a digit it may stop, go on
    with a literal, or go on with an underscore and a literal. *)
Lemma scan_spec (s : list ascii) :
  forall (need : bool) (acc : Z) (k : nat) (v : Z) (n : nat),
    scan need acc k s = Some (v, n) <->
    (if need then grouped s
     else s = [] \/ grouped s \/
          exists s', s = underscore :: s' /\ grouped s') /\
    v = fold_left step (digits s) acc /\
    n = (k + length (digits s))%nat.
Proof.
  induction s as [|c s IH]; intros need acc k v n.
  - simpl. destruct need.
    + split; [done | intros [H _]; inversion H].
    + split.
      * intros [= <- <-]. repeat split; [by left | lia].
      * intros (_ & -> & ->). simpl. do 2 f_equal. lia.
  - cbn [scan]. destruct (digit_of c) as [d|] eqn:Hd.
    + rewrite (digits_cons_digit c d s Hd). cbn [fold_left length]. rewrite IH.
      assert (Hg : grouped (c :: s) <->
                   s = [] \/ grouped s \/
                   exists s', s = underscore :: s' /\ grouped s').
      { split.
        - inversion 1; subst; eauto.
        - intros [->|[Hs|(s' & -> & Hs')]];
            [apply grouped_last | by apply grouped_digit
            | by apply grouped_sep]; done. }
      replace (S k + length (digits s))%nat
        with (k + S (length (digits s)))%nat by lia.
      unfold step at 2.
      destruct need.
      * by rewrite Hg.
      * split.
        -- intros (H & -> & ->). repeat split. right; left. by apply Hg.
        -- intros ([?|[H|(s' & [= -> ->] & _)]] & -> & ->); [done| |].
           ++ repeat split. by apply Hg.
           ++ rewrite underscore_not_digit in Hd. done.
    + rewrite (digits_cons_other c s Hd).
      assert (Hng : ~ grouped (c :: s)).
      { intros H. apply grouped_head in H as (c' & t & [= <- <-] & [? ?]).
        congruence. }
      destruct (Ascii.eqb c underscore) eqn:Hu; destruct need; simpl.
      * split; [done | by intros [? _]].
      * apply Ascii.eqb_eq in Hu as ->. rewrite IH. split.
        -- intros (H & -> & ->). repeat split. right; right. by exists s.
        -- intros ([?|[H|(s' & [= ->] & H)]] & -> & ->); done.
      * split; [done | by intros [? _]].
      * apply Ascii.eqb_neq in Hu. split; [done|].
        intros ([?|[H|(s' & [= -> ->] & _)]] & _); done.
Qed.

Lemma fold_step_nonneg (ds : list Z) (acc : Z) :
  Forall (fun d => 0 <= d) ds -> 0 <= acc -> 0 <= fold_left step ds acc.
Proof.
  revert acc. induction ds as [|d ds IH]; intros acc Hds Hacc; simpl; [done|].
  apply Forall_cons in Hds as [Hd Hds]. apply IH; [done|]. unfold step. lia.
Qed.

Lemma digits_nonneg (s : list ascii) : Forall (fun d => 0 <= d) (digits s).
Proof.
  unfold digits. induction s as [|c s IH]; simpl; [constructor|].
  destruct (digit_of c) as [d|] eqn:Hd; simpl; [|done].
  constructor; [|done]. apply digit_range in Hd. lia.
Qed.

Lemma decimal_nonneg (s : list ascii) : 0 <= decimal (digits s).
Proof. apply fold_step_nonneg; [apply digits_nonneg | done]. Qed.

(** *** [int] on a stripped string *)

Lemma trimmed_int_space (m : list ascii) :
  trimmed isspace m -> trimmed int_space m.
Proof.
  intros [->|[(c & t & Hm & Hc) (t' & c' & Hm' & Hc')]]; [by left|].
  right. split.
  - exists c, t. split; [done | by apply int_space_isspace].
  - exists t', c'. split; [done | by apply int_space_isspace].
Qed.

Lemma strip_trimmed_id (space : ascii -> bool) (m : list ascii) :
  trimmed space m -> strip space m = m.
Proof.
  intros Hm.
  pose proof (strip_exact space [] m [] (Forall_nil_2 _) (Forall_nil_2 _) Hm) as H.
  simpl in H. by rewrite app_nil_r in H.
Qed.

(** The sign and the digits of a stripped text that [int] reads as [z]. *)
Lemma int_trimmed (m : list ascii) (z : Z) :
  trimmed isspace m ->
  int m = Some z <->
  exists sign body,
    m = sign ++ body /\
    (sign = [] \/ sign = [plus] \/ sign = [minus]) /\
    grouped body /\
    (length (digits body) <= int_max_str_digits)%nat /\
    z = if bool_decide (sign = [minus]) then - decimal (digits body)
        else decimal (digits body).
Proof.
  intros Hm. unfold int.
  rewrite (strip_trimmed_id int_space m (trimmed_int_space m Hm)).
  assert (Hread : forall neg body,
            match scan true 0 0 body with
            | Some (v, n) =>
                if (int_max_str_digits <? n)%nat then None
                else Some (if neg : bool then - v else v)
            | None => None
            end = Some z <->
            grouped body /\
            (length (digits body) <= int_max_str_digits)%nat /\
            z = if neg then - decimal (digits body)
                else decimal (digits body)).
  { intros neg body.
    destruct (scan true 0 0 body) as [[v n]|] eqn:Hscan.
    - apply scan_spec in Hscan as (Hg & -> & ->). simpl.
      destruct (Nat.ltb_spec int_max_str_digits (length (digits body))).
      + split; [done | intros (_ & ? & _); lia].
      + split.
        * intros [= <-]. by destruct neg.
        * intros (_ & _ & ->). by destruct neg.
    - split; [done|]. intros (Hg & _ & _).
      assert (scan true 0 0 body =
              Some (fold_left step (digits body) 0,
                    (0 + length (digits body))%nat)) as Hs
        by (by apply scan_spec).
      congruence. }
  destruct m as [|c t].
  { rewrite (Hread false []). split.
    - intros (Hg & _). inversion Hg.
    - intros (sign & body & Hnil & _ & Hg & _).
      symmetry in Hnil. apply app_eq_nil in Hnil as [_ ->]. inversion Hg. }
  destruct (Ascii.eqb c minus) eqn:Hminus.
  { apply Ascii.eqb_eq in Hminus as ->. rewrite (Hread true t). split.
    - intros (Hg & Hlen & ->). exists [minus], t. repeat split; auto.
    - intros (sign & body & Heq & Hsign & Hg & Hlen & ->).
      destruct Hsign as [-> | [-> | ->]]; simpl in Heq.
      + subst body. apply grouped_head in Hg as (c & u & [= <- _] & Hc).
        by destruct (digit_not_mark _ Hc) as (? & _).
      + simplify_eq.
      + simplify_eq. done. }
  apply Ascii.eqb_neq in Hminus.
  destruct (Ascii.eqb c plus) eqn:Hplus.
  { apply Ascii.eqb_eq in Hplus as ->. rewrite (Hread false t). split.
    - intros (Hg & Hlen & ->). exists [plus], t. repeat split; auto.
    - intros (sign & body & Heq & Hsign & Hg & Hlen & ->).
      destruct Hsign as [-> | [-> | ->]]; simpl in Heq.
      + subst body. apply grouped_head in Hg as (c & u & [= <- _] & Hc).
        by destruct (digit_not_mark _ Hc) as (_ & ? & _).
      + simplify_eq. done.
      + simplify_eq. }
  apply Ascii.eqb_neq in Hplus.
  rewrite (Hread false (c :: t)). split.
  - intros (Hg & Hlen & ->). exists [], (c :: t). repeat split; auto.
  - intros (sign & body & Heq & Hsign & Hg & Hlen & ->).
    destruct Hsign as [-> | [-> | ->]]; simpl in Heq.
    + subst body. done.
    + simplify_eq.
    + simplify_eq.
Qed.

(** *** The parser *)

Lemma parse_chars_sound (callback_data action : list ascii) (n : Z) :
  parse_chars callback_data action = Some n ->
  accepted callback_data action n.
Proof.
  unfold parse_chars.
  destruct callback_data as [|c0 s0]; [done|].
  remember (c0 :: s0) as s eqn:Hs0. clear Hs0 c0 s0.
  destruct (startswith (action ++ [colon]) s) eqn:Hsw; cbn [negb]; [|done].
  destruct (length (split colon s) =? 2)%nat eqn:Hlen; cbn [negb]; [|done].
  apply startswith_prefix in Hsw as [rest Hs].
  rewrite <- app_assoc in Hs. simpl in Hs.
  apply Nat.eqb_eq in Hlen.
  destruct (split_length_2 colon s Hlen) as (a & b & Hab & Ha & Hb).
  destruct (single_sep_unique colon a b action rest Ha Hb) as [-> ->];
    [congruence|].
  rewrite Hs, (split_at_first colon action rest Ha),
    (split_no_sep colon rest Hb). simpl nth.
  pose proof (strip_trimmed isspace rest) as Htrim.
  destruct (strip_decomp isspace rest) as (l & r & Hrest & Hl & Hr).
  destruct (strip isspace rest) as [|c m] eqn:Hstrip; [done|].
  destruct (int (c :: m)) as [z|] eqn:Hint; [|done].
  destruct (Z.leb_spec z 0) as [|Hpos]; [done|]. intros [= <-].
  apply (int_trimmed (c :: m) z Htrim) in Hint
    as (sign & body & Hm & Hsign & Hg & Hdig & Hz).
  split; [done|].
  destruct Hsign as [-> | [-> | ->]].
  - exists l, [], body, r. rewrite Hrest, Hm.
    rewrite bool_decide_eq_false_2 in Hz by done.
    repeat split; auto; lia.
  - exists l, [plus], body, r. rewrite Hrest, Hm.
    rewrite bool_decide_eq_false_2 in Hz by done.
    repeat split; auto; lia.
  - rewrite bool_decide_eq_true_2 in Hz by done.
    pose proof (decimal_nonneg body). lia.
Qed.

Lemma parse_chars_complete (callback_data action : list ascii) (n : Z) :
  accepted callback_data action n ->
  parse_chars callback_data action = Some n.
Proof.
  intros (Ha & l & sign & body & r & Hs & Hl & Hr & Hsign & Hg & Hdig
          & Hn & Hpos).
  set (rest := l ++ sign ++ body ++ r) in *.
  assert (Hmid : colon ∉ sign ++ body).
  { apply not_elem_of_app. split; [|by apply grouped_no_colon].
    destruct Hsign as [-> | ->]; [apply not_elem_of_nil|].
    apply not_elem_of_cons. split; [done | apply not_elem_of_nil]. }
  assert (Hspace : forall ws, Forall (fun c => isspace c = true) ws ->
                              colon ∉ ws).
  { intros ws Hws Hin. rewrite Forall_forall in Hws.
    by apply (space_not_colon colon (Hws _ Hin)). }
  assert (Hb : colon ∉ rest).
  { subst rest. rewrite (app_assoc sign).
    apply not_elem_of_app. split; [by apply Hspace|].
    apply not_elem_of_app. split; [done | by apply Hspace]. }
  assert (Htrim : trimmed isspace (sign ++ body)).
  { right.
    destruct (grouped_head body Hg) as (c & t & Hbody & Hc).
    destruct (grouped_last_digit body Hg) as (t' & c' & Hbody' & Hc').
    split.
    - destruct Hsign as [-> | ->].
      + exists c, t. split; [done | by apply digit_not_space].
      + exists plus, body. split; [done | reflexivity].
    - exists (sign ++ t'), c'. split; [|by apply digit_not_space].
      by rewrite Hbody', app_assoc. }
  assert (Hstrip : strip isspace rest = sign ++ body).
  { subst rest. rewrite (app_assoc sign). by apply strip_exact. }
  assert (Hint : int (sign ++ body) = Some n).
  { apply (int_trimmed _ _ Htrim). exists sign, body.
    repeat split; auto.
    - destruct Hsign; auto.
    - rewrite bool_decide_eq_false_2; [done|].
      destruct Hsign as [-> | ->]; done. }
  unfold parse_chars.
  assert (Hsw : startswith (action ++ [colon]) callback_data = true).
  { apply startswith_prefix. exists rest.
    rewrite <- app_assoc. by simpl. }
  destruct callback_data as [|c0 s0]; [by destruct action|].
  rewrite Hsw, Hs. simpl negb. cbv iota.
  rewrite (split_at_first colon action rest Ha), (split_no_sep colon rest Hb).
  simpl length. simpl nth. rewrite Nat.eqb_refl. simpl negb. cbv iota.
  rewrite Hstrip, Hint.
  destruct (sign ++ body) as [|c m] eqn:Hsb.
  { destruct Htrim as [?|[(c & t & ? & _) _]]; done. }
  destruct (Z.leb_spec n 0); [lia | done].
Qed.




End CallbackFacts.

(** ** Facts about the gateway *)

Module GatewayFacts.
Import Gateway.

Example not_found_run :
  _make_get_request not_found =
    {| result := RetryError (HTTPError 404); attempts := 3;
       sleeps := [2; 2] |}.
Proof. reflexivity. Qed.

Lemma wait_exponential_bounds (attempt_number : nat) :
  2 <= wait_exponential 1 2 10 attempt_number <= 10.
Proof. unfold wait_exponential. lia. Qed.

Lemma wait_exponential_first : wait_exponential 1 2 10 1 = 2.
Proof. reflexivity. Qed.

(** A response with a status from 400 to 599 becomes an [HTTPError], which
    the policy retries like a failure of the transport. *)
Lemma rejection_is_retried (r : Response) :
  400 <= status_code r < 600 ->
  request_once (Answer r) = inl (HTTPError (status_code r)) /\
  is_request_exception (HTTPError (status_code r)) = true.
Proof.
  intros Hst. unfold request_once, raise_for_status.
  destruct (Z.leb_spec 400 (status_code r)); [|lia].
  destruct (Z.ltb_spec (status_code r) 600); [done | lia].
Qed.

(** C5, as stated, fails: a backend that answers 404 with an error body is
    asked three times, with two waits, before the call gives up. *)
Lemma rejection_retried_three_times :
  ~ rejection_not_retried /\
  attempts (_make_get_request not_found) = 3%nat /\
  length (sleeps (_make_get_request not_found)) = 2%nat /\
  result (_make_get_request not_found) = RetryError (HTTPError 404) /\
  attempts (_make_post_request not_found) = 3%nat.
Proof.
  split; [|by repeat split].
  intros Hclaim.
  assert (H : attempts (_make_get_request not_found) = 1%nat).
  { apply (Hclaim not_found _ eq_refl). simpl. lia. }
  vm_compute in H. discriminate H.
Qed.

(** From the third attempt on the loop does not look at its fuel. *)
Lemma retrying_at_stop (fuel attempt_number : nat) (net : nat -> transport) :
  (3 <= attempt_number)%nat ->
  retrying fuel attempt_number net = retrying 0 attempt_number net.
Proof.
  intros Hle. destruct fuel as [|fuel]; [done|]. simpl.
  destruct (request_once (net attempt_number)) as [e|r]; [|done].
  destruct (is_request_exception e); simpl; [|done].
  destruct attempt_number as [|[|[|a]]]; [lia | lia | lia | done].
Qed.

Ltac attempt_cases net k :=
  let e := fresh "e" in
  let r := fresh "r" in
  let He := fresh "He" in
  let Hx := fresh "Hx" in
  destruct (request_once (net k)) as [e|r] eqn:He;
    [destruct (is_request_exception e) eqn:Hx|]; cbn.

(** C5, amended: a call through [_make_get_request] or [_make_post_request]
    makes at least one and at most three attempts; it waits before each
    further attempt, 2 seconds after the first attempt and between 2 and 10
    seconds every time; an attempt is followed by another one only when it
    raised a [RequestException], which a failure of the transport does and
    which a response with a status from 400 to 599 does as well; the last
    attempt either returns its response, or raised an exception outside
    [RequestException], which is passed on at once, or was the third to
    raise a [RequestException], and the call ends with [RetryError].  More
    fuel does not change the run. *)
Theorem retry_policy (net : nat -> transport) :
  let r := _make_get_request net in
  _make_post_request net = r /\
  (forall fuel, (2 <= fuel)%nat -> retrying fuel 1 net = r) /\
  (1 <= attempts r <= 3)%nat /\
  length (sleeps r) = (attempts r - 1)%nat /\
  Forall (fun s => 2 <= s <= 10) (sleeps r) /\
  (forall s rest, sleeps r = s :: rest -> s = 2) /\
  (forall k, (1 <= k < attempts r)%nat ->
     exists e, request_once (net k) = inl e /\
               is_request_exception e = true) /\
  match request_once (net (attempts r)) with
  | inr resp => result r = Returned resp
  | inl e =>
      if is_request_exception e
      then attempts r = 3%nat /\ result r = RetryError e
      else result r = Reraised e
  end.
Proof.
  assert (Hfuel : forall fuel, (2 <= fuel)%nat ->
                    retrying fuel 1 net = retrying 2 1 net).
  { intros [|[|fuel]] Hf; [lia | lia |].
    cbn. attempt_cases net 1%nat; try done.
    attempt_cases net 2%nat; try done.
    by rewrite (retrying_at_stop fuel 3 net) by lia. }
  cbv zeta. split; [done|]. split; [exact Hfuel|]. clear Hfuel.
  assert (Hk : forall P : nat -> Prop,
            P 1%nat -> P 2%nat ->
            forall k, (1 <= k < 3)%nat -> P k).
  { intros P P1 P2 k Hk.
    destruct k as [|[|[|k]]]; [lia | done | done | lia]. }
  pose proof (wait_exponential_bounds 1) as Hw1.
  pose proof (wait_exponential_bounds 2) as Hw2.
  unfold _make_get_request. cbn.
  attempt_cases net 1%nat; rewrite ?He, ?Hx; cbn.
  2, 3: repeat split; try done; try lia; intros; lia.
  attempt_cases net 2%nat; rewrite ?He0, ?Hx0; cbn.
  2, 3: repeat split; try done; try lia;
        [ by repeat constructor
        | by intros s rest [= <- _]
        | intros k Hlt; assert (k = 1%nat) as -> by lia; eauto ].
  attempt_cases net 3%nat; rewrite ?He1, ?Hx1; cbn.
  all: repeat split; try done; try lia;
       [ by repeat constructor
       | by intros s rest [= <- _]
       | apply Hk; eauto ].
Qed.

Lemma retry_policy_witness :
  (1 <= attempts (_make_get_request not_found) <= 3)%nat /\
  Forall (fun s => 2 <= s <= 10) (sleeps (_make_get_request not_found)).
Proof.
  destruct (retry_policy not_found) as (_ & _ & Hn & _ & Hs & _).
  split; [exact Hn | exact Hs].
Defined.

End GatewayFacts.

(** ** Facts about the monitor *)

Module MonitorFacts.
Import Ledger Monitor LedgerFacts.

(** *** Orders that came back *)

(** The test of a row, in words: the row was in no-product, has not come
    back yet, and the backend has the order at the returned status. *)
Lemma came_back_Some (env : Env) (k : Z) (r : ProcessedOrder) (o : Order) :
  came_back env (k, r) = Some o <->
  was_in_no_product r = true /\ returned_from_no_product r = false /\
  get_order_by_id env k = Found o /\
  o_status o = Some (STATUS_RETURNED env).
Proof.
  unfold came_back. simpl.
  destruct (was_in_no_product r); simpl; [|naive_solver].
  destruct (returned_from_no_product r); simpl; [naive_solver|].
  destruct (get_order_by_id env k) as [o'| |]; [|naive_solver..].
  case_bool_decide; naive_solver.
Qed.

Lemma came_back_None (env : Env) (k : Z) (r : ProcessedOrder) :
  came_back env (k, r) = None <->
  was_in_no_product r = false \/ returned_from_no_product r = true \/
  (forall o, get_order_by_id env k = Found o ->
             o_status o <> Some (STATUS_RETURNED env)).
Proof.
  unfold came_back. simpl.
  destruct (was_in_no_product r); simpl; [|naive_solver].
  destruct (returned_from_no_product r); simpl; [naive_solver|].
  destruct (get_order_by_id env k) as [o'| |]; [|naive_solver..].
  case_bool_decide; naive_solver.
Qed.

(** Marking a flagged row as returned and resetting it: the flag is set,
    then the row is deleted. *)
Lemma mark_then_reset (now k : Z) (r : ProcessedOrder) (d : Db) :
  processed_orders d !! k = Some r ->
  was_in_no_product r = true ->
  let d1 := (mark_order_returned_from_no_product now k d).2 in
  is_order_returned_from_no_product d1 k = true /\
  was_order_in_no_product d1 k = true /\
  (reset_order_for_renotification k d1).1 = true /\
  processed_orders (reset_order_for_renotification k d1).2 =
    delete k (processed_orders d).
Proof.
  intros Hrow Hwas.
  unfold mark_order_returned_from_no_product, sql_update,
    is_order_returned_from_no_product, was_order_in_no_product,
    reset_order_for_renotification, sql_delete, sql_count. simpl.
  rewrite lookup_alter_eq, Hrow. simpl. rewrite Hwas. simpl.
  repeat split. apply map_eq. intros j.
  destruct (decide (k = j)) as [<-|Hne].
  - by rewrite !lookup_delete_eq.
  - by rewrite !lookup_delete_ne, lookup_alter_ne.
Qed.

Lemma take_back_effect (env : Env) (k : Z) (r : ProcessedOrder) (o : Order)
    (w : World) (acc : list Order) :
  processed_orders (db w) !! k = Some r ->
  was_in_no_product r = true ->
  let res := take_back env k o (w, acc) in
  processed_orders (db res.1) = delete k (processed_orders (db w)) /\
  res.2 = acc ++ [o] /\
  trace res.1 = trace w /\ ncalls res.1 = ncalls w /\ clock res.1 = clock w.
Proof.
  intros Hrow Hwas.
  destruct (mark_then_reset (CURRENT_TIMESTAMP w) k r (db w) Hrow Hwas)
    as (_ & _ & _ & Hdel).
  unfold take_back.
  destruct (mark_order_returned_from_no_product (CURRENT_TIMESTAMP w) k (db w))
    as [b1 d1]. simpl in Hdel.
  destruct (reset_order_for_renotification k d1) as [b2 d2]. simpl in Hdel.
  simpl. by rewrite Hdel.
Qed.

(** The loop over a list of distinct rows that are in the table as they
    are in the list. *)
Lemma check_rows_effect (env : Env) (rows : list (Z * ProcessedOrder)) :
  forall (w : World) (acc : list Order),
    NoDup rows.*1 ->
    (forall k r, (k, r) ∈ rows -> processed_orders (db w) !! k = Some r) ->
    let res := foldl (check_row env) (w, acc) rows in
    res.2 = acc ++ omap (came_back env) rows /\
    trace res.1 = trace w /\ ncalls res.1 = ncalls w /\
    clock res.1 = clock w /\
    (forall k r, (k, r) ∈ rows -> is_Some (came_back env (k, r)) ->
       processed_orders (db res.1) !! k = None) /\
    (forall k, (forall r, (k, r) ∈ rows -> came_back env (k, r) = None) ->
       processed_orders (db res.1) !! k = processed_orders (db w) !! k).
Proof.
  induction rows as [|[k0 r0] rows IH]; intros w acc Hnd Hrows.
  - simpl. rewrite app_nil_r. repeat split; try done.
    intros k r Hin. by apply elem_of_nil in Hin.
  - simpl in Hnd. apply NoDup_cons in Hnd as [Hk0 Hnd].
    assert (Hfresh : forall r, (k0, r) ∉ rows).
    { intros r Hin. apply Hk0. apply list_elem_of_fmap. by exists (k0, r). }
    cbv zeta. cbn [foldl].
    destruct (came_back env (k0, r0)) as [o|] eqn:Hcb.
    + assert (Hstep : check_row env (w, acc) (k0, r0) =
                      take_back env k0 o (w, acc))
        by (unfold check_row; by rewrite Hcb).
      rewrite Hstep. clear Hstep.
      apply came_back_Some in Hcb as Hparts.
      destruct Hparts as (Hwas & _).
      assert (Hrow0 : processed_orders (db w) !! k0 = Some r0)
        by (apply Hrows; left).
      destruct (take_back_effect env k0 r0 o w acc Hrow0 Hwas)
        as (Htbl & Hacc & Htr & Hn & Hc).
      destruct (take_back env k0 o (w, acc)) as [w1 acc1] eqn:Htake.
      simpl in Htbl, Hacc, Htr, Hn, Hc. subst acc1.
      assert (Hrows1 : forall k r, (k, r) ∈ rows ->
                processed_orders (db w1) !! k = Some r).
      { intros k r Hin. rewrite Htbl.
        rewrite lookup_delete_ne; [apply Hrows; by right|].
        intros <-. by apply (Hfresh r). }
      destruct (IH w1 (acc ++ [o]) Hnd Hrows1)
        as (Hres & Htr' & Hn' & Hc' & Hgone & Hkept).
      cbn [omap list_omap]. rewrite Hcb.
      repeat split; try congruence.
      * rewrite Hres. by rewrite <- app_assoc.
      * intros k r Hin Hsome. apply elem_of_cons in Hin as [[= -> ->]|Hin].
        -- rewrite Hkept; [rewrite Htbl; apply lookup_delete_eq|].
           intros r Hin. by apply Hfresh in Hin.
        -- by apply (Hgone k r).
      * intros k Hnone. destruct (decide (k = k0)) as [->|Hne].
        -- specialize (Hnone r0 ltac:(left)). congruence.
        -- rewrite Hkept; [rewrite Htbl; by apply lookup_delete_ne|].
           intros r Hin. apply Hnone. by right.
    + assert (Hstep : check_row env (w, acc) (k0, r0) = (w, acc))
        by (unfold check_row; by rewrite Hcb).
      rewrite Hstep. clear Hstep.
      assert (Hrows1 : forall k r, (k, r) ∈ rows ->
                processed_orders (db w) !! k = Some r).
      { intros k r Hin. apply Hrows. by right. }
      destruct (IH w acc Hnd Hrows1)
        as (Hres & Htr' & Hn' & Hc' & Hgone & Hkept).
      cbn [omap list_omap]. rewrite Hcb.
      repeat split; try done.
      * intros k r Hin Hsome. apply elem_of_cons in Hin as [[= -> ->]|Hin].
        -- rewrite Hcb in Hsome. by destruct Hsome.
        -- by apply (Hgone k r).
      * intros k Hnone. apply Hkept. intros r Hin. apply Hnone. by right.
Qed.



(** *** The fan-out *)

Lemma api_effect (env : Env) (c : Call) (w : World) :
  (api env c w).1 = bot env (ncalls w) /\
  trace (api env c w).2 = trace w ++ [Called c (bot env (ncalls w))] /\
  db (api env c w).2 = db w /\ clock (api env c w).2 = clock w.
Proof. done. Qed.

Ltac bot_cases env :=
  repeat match goal with
         | |- context [bot env ?n] =>
             let r := fresh "r" in
             destruct (bot env n) as [|[]] eqn:r; cbn
         end.

(** Whatever the API answers, the loop body returns, having called the
    recipient at least once, and leaves the database and every other chat
    alone. *)
Lemma notify_admin_effect (env : Env) (about : Z) (message : string)
    (image_urls : list string) (last : bool) (admin : string * string)
    (w : World) :
  exists seg,
    trace (notify_admin env about message image_urls last admin w) =
      trace w ++ seg /\
    attempt_for about admin seg /\
    db (notify_admin env about message image_urls last admin w) = db w.
Proof.
  unfold notify_admin, send_with_images, api, sleep, attempt_for.
  destruct image_urls as [|u [|u' urls]]; cbn;
    bot_cases env; destruct last; cbn; rewrite <- ?app_assoc; cbn;
    (eexists; split; [reflexivity|]; split; [|reflexivity];
     split; [by eexists _, _, _ | by repeat constructor]).
Qed.

Lemma notify_admins_effect (env : Env) (about : Z) (message : string)
    (image_urls : list string) (admins : list (string * string)) :
  forall w,
  exists segs,
    trace (notify_admins env about message image_urls admins w) =
      trace w ++ concat segs /\
    Forall2 (attempt_for about) admins segs /\
    db (notify_admins env about message image_urls admins w) = db w.
Proof.
  induction admins as [|admin rest IH]; intros w; cbn [notify_admins].
  - exists []. simpl. by rewrite app_nil_r.
  - destruct (notify_admin_effect env about message image_urls
                (bool_decide (rest = [])) admin w) as (seg & Htr & Hseg & Hdb).
    destruct (IH (notify_admin env about message image_urls
                    (bool_decide (rest = [])) admin w))
      as (segs & Htr' & Hsegs & Hdb').
    exists (seg :: segs). simpl. rewrite Htr', Htr, Hdb', Hdb.
    rewrite <- app_assoc. split; [done|]. split; [by constructor | done].
Qed.

Lemma fan_out_effect (env : Env) (order : Order) (message : string)
    (image_urls : list string) (w : World) :
  let w1 :=
    send_notification_to_warehouse_admins env order message image_urls w in
  db w1 = db w /\
  exists seg, trace w1 = trace w ++ seg /\
    Forall (fun e => match e with
                     | Called c _ => c_about c = o_id order
                     | Slept _ => True
                     end) seg.
Proof.
  unfold send_notification_to_warehouse_admins.
  destruct (o_shipmentStore order) as [wc|];
    [|split; [done | exists []; by rewrite app_nil_r]].
  case_bool_decide; [split; [done | exists []; by rewrite app_nil_r]|].
  destruct (notify_admins_effect env (o_id order) message image_urls
              (get_admins_for_warehouse env wc) w) as (segs & Htr & Hs & Hdb).
  cbv zeta. split; [done|]. exists (concat segs). split; [done|].
  apply Forall_concat. clear Htr Hdb.
  induction Hs as [|admin seg admins segs [_ Hseg] _ IH]; [constructor|].
  constructor; [|done].
  eapply Forall_impl; [exact Hseg|]. intros [c r|ms]; simpl; naive_solver.
Qed.

(** *** The loop over the new orders *)

Lemma calls_about_app (k : Z) (t1 t2 : list event) :
  calls_about k (t1 ++ t2) = calls_about k t1 ++ calls_about k t2.
Proof. unfold calls_about. apply omap_app. Qed.

Lemma calls_about_other (k about : Z) (seg : list event) :
  k <> about ->
  Forall (fun e => match e with
                   | Called c _ => c_about c = about
                   | Slept _ => True
                   end) seg ->
  calls_about k seg = [].
Proof.
  intros Hne. induction 1 as [|e seg He _ IH]; [done|].
  unfold calls_about in *. cbn [omap list_omap].
  destruct e as [c r|ms]; [|done].
  rewrite bool_decide_eq_false_2 by congruence. done.
Qed.

Lemma process_order_skip (env : Env) (w : World) (o : Order) (err : string) :
  render env o = inl err ->
  trace (process_order env w o) = trace w /\
  processed_orders (db (process_order env w o)) = processed_orders (db w).
Proof. unfold process_order. by intros ->. Qed.

Lemma process_order_done (env : Env) (w : World) (o : Order)
    (message : string) (image_urls : list string) :
  render env o = inr (message, image_urls) ->
  trace (process_order env w o) =
    trace (send_notification_to_warehouse_admins env o message image_urls w)
  /\
  exists row,
    processed_orders (db (process_order env w o)) =
      <[o_id o := row]> (processed_orders (db w)) /\
    was_in_no_product row = false /\ returned_from_no_product row = false.
Proof.
  intros Hr. unfold process_order. rewrite Hr.
  destruct (fan_out_effect env o message image_urls w) as (Hdb & _).
  unfold save_processed_order. simpl. split; [done|].
  rewrite Hdb. by eexists.
Qed.

Lemma process_order_other (env : Env) (w : World) (o : Order) (k : Z) :
  k <> o_id o ->
  processed_orders (db (process_order env w o)) !! k =
    processed_orders (db w) !! k /\
  calls_about k (trace (process_order env w o)) = calls_about k (trace w).
Proof.
  intros Hne. destruct (render env o) as [err|[message image_urls]] eqn:Hr.
  - destruct (process_order_skip env w o err Hr) as [-> ->]. done.
  - destruct (process_order_done env w o message image_urls Hr)
      as (Htr & row & Htbl & _).
    rewrite Htbl, Htr. rewrite lookup_insert_ne by done. split; [done|].
    destruct (fan_out_effect env o message image_urls w)
      as (_ & seg & -> & Hseg).
    rewrite calls_about_app, (calls_about_other k (o_id o) seg Hne Hseg).
    by rewrite app_nil_r.
Qed.

Lemma process_order_keeps (env : Env) (w : World) (o : Order) (k : Z) :
  is_Some (processed_orders (db w) !! k) ->
  is_Some (processed_orders (db (process_order env w o)) !! k).
Proof.
  intros Hk. destruct (render env o) as [err|[message image_urls]] eqn:Hr.
  - by destruct (process_order_skip env w o err Hr) as [_ ->].
  - destruct (process_order_done env w o message image_urls Hr)
      as (_ & row & -> & _).
    destruct (decide (k = o_id o)) as [->|Hne].
    + rewrite lookup_insert_eq. by eexists.
    + by rewrite lookup_insert_ne.
Qed.

Lemma process_order_quiet (env : Env) (w : World) (o : Order) :
  quiet env (db w) -> quiet env (db (process_order env w o)).
Proof.
  intros Hq. destruct (render env o) as [err|[message image_urls]] eqn:Hr.
  - destruct (process_order_skip env w o err Hr) as [_ Htbl].
    unfold quiet. by rewrite Htbl.
  - destruct (process_order_done env w o message image_urls Hr)
      as (_ & row & Htbl & Hwas & _).
    unfold quiet. rewrite Htbl. intros k r.
    destruct (decide (k = o_id o)) as [->|Hne].
    + rewrite lookup_insert_eq. intros [= <-].
      apply came_back_None. by left.
    + rewrite lookup_insert_ne by done. apply Hq.
Qed.

Lemma loop_other (env : Env) (orders : list Order) (k : Z) :
  forall w,
    k ∉ o_id <$> orders ->
    processed_orders (db (foldl (process_order env) w orders)) !! k =
      processed_orders (db w) !! k /\
    calls_about k (trace (foldl (process_order env) w orders)) =
      calls_about k (trace w).
Proof.
  induction orders as [|o orders IH]; intros w Hk; [done|].
  rewrite fmap_cons in Hk. apply not_elem_of_cons in Hk as [Hne Hk].
  cbn [foldl]. destruct (IH (process_order env w o) Hk) as [-> ->].
  by apply process_order_other.
Qed.

Lemma loop_keeps (env : Env) (orders : list Order) (k : Z) :
  forall w,
    is_Some (processed_orders (db w) !! k) ->
    is_Some (processed_orders (db (foldl (process_order env) w orders)) !! k).
Proof.
  induction orders as [|o orders IH]; intros w Hk; [done|].
  cbn [foldl]. apply IH. by apply process_order_keeps.
Qed.

Lemma loop_quiet (env : Env) (orders : list Order) :
  forall w, quiet env (db w) ->
            quiet env (db (foldl (process_order env) w orders)).
Proof.
  induction orders as [|o orders IH]; intros w Hq; [done|].
  cbn [foldl]. apply IH. by apply process_order_quiet.
Qed.

(** Every order of the loop whose notification could be built is in the
    table when the loop ends. *)
Lemma loop_records (env : Env) (orders : list Order) (o : Order)
    (message : string) (image_urls : list string) :
  forall w,
    o ∈ orders ->
    render env o = inr (message, image_urls) ->
    is_order_processed (db (foldl (process_order env) w orders)) (o_id o)
      = true.
Proof.
  induction orders as [|o' orders IH]; intros w Hin Hr.
  - by apply elem_of_nil in Hin.
  - cbn [foldl]. apply elem_of_cons in Hin as [<-|Hin]; [|by apply IH].
    apply is_order_processed_spec, loop_keeps.
    destruct (process_order_done env w o message image_urls Hr)
      as (_ & row & -> & _).
    rewrite lookup_insert_eq. by eexists.
Qed.

(** A loop over orders whose notification cannot be built sends nothing
    and leaves the table as it is. *)
Lemma loop_silent (env : Env) (orders : list Order) :
  forall w,
    (forall o, o ∈ orders -> exists err, render env o = inl err) ->
    trace (foldl (process_order env) w orders) = trace w /\
    processed_orders (db (foldl (process_order env) w orders)) =
      processed_orders (db w).
Proof.
  induction orders as [|o orders IH]; intros w Hall; [done|].
  cbn [foldl]. destruct (Hall o ltac:(left)) as [err Hr].
  destruct (process_order_skip env w o err Hr) as [Htr Htbl].
  destruct (IH (process_order env w o)) as [-> ->]; [|done].
  intros o' Hin. apply Hall. by right.
Qed.

(** Three recipients, the second of which has blocked the bot: the first
    and the third get the message, and the order is in the table. *)
Example blocked_recipient_skipped :
  trace (process_order shop fresh_world order7) =
    [ Called {| c_method := send_message; c_chat := "111";
                c_text := "ЗАКАЗ"; c_about := 7 |} Delivered;
      Slept 500;
      Called {| c_method := send_message; c_chat := "-500";
                c_text := "ЗАКАЗ"; c_about := 7 |}
        (Raises TelegramForbiddenError);
      Called {| c_method := send_message; c_chat := "333";
                c_text := "ЗАКАЗ"; c_about := 7 |} Delivered ] /\
  is_order_processed (db (process_order shop fresh_world order7)) 7 = true.
Proof. split; reflexivity. Qed.

(** C9: the fan-out for an order with a warehouse goes through the
    recipients of the warehouse in order, and for each of them it calls
    the API for that recipient at least once, whatever the calls for the
    recipients before it ended with; the loop body that did the fan-out
    then has the order in the table, whatever the API answered, and so has
    the loop over the new orders when it ends. *)
Theorem partial_failure_isolated (env : Env) (order : Order)
    (message : string) (image_urls : list string) (w : World) :
  render env order = inr (message, image_urls) ->
  let w1 :=
    send_notification_to_warehouse_admins env order message image_urls w in
  (forall wc, o_shipmentStore order = Some wc -> wc <> ""%string ->
     exists segs,
       trace w1 = trace w ++ concat segs /\
       Forall2 (attempt_for (o_id order))
         (get_admins_for_warehouse env wc) segs) /\
  trace (process_order env w order) = trace w1 /\
  is_order_processed (db (process_order env w order)) (o_id order) = true /\
  (forall orders w0,
     order ∈ orders ->
     is_order_processed (db (foldl (process_order env) w0 orders))
       (o_id order) = true).
Proof.
  intros Hr. cbv zeta. split; [|split; [|split]].
  - intros wc Hwc Hne. unfold send_notification_to_warehouse_admins.
    rewrite Hwc. rewrite bool_decide_eq_false_2 by done.
    destruct (notify_admins_effect env (o_id order) message image_urls
                (get_admins_for_warehouse env wc) w) as (segs & Htr & Hs & _).
    by exists segs.
  - by destruct (process_order_done env w order message image_urls Hr).
  - destruct (process_order_done env w order message image_urls Hr)
      as (_ & row & Htbl & _).
    apply is_order_processed_spec. rewrite Htbl, lookup_insert_eq.
    by eexists.
  - intros orders w0 Hin.
    by apply (loop_records env orders order message image_urls).
Qed.

Lemma partial_failure_isolated_witness :
  render shop order7 = inr ("ЗАКАЗ"%string, []) /\
  is_order_processed (db (process_order shop fresh_world order7)) 7 = true.
Proof.
  split; [reflexivity|].
  destruct (partial_failure_isolated shop order7 "ЗАКАЗ" [] fresh_world
              eq_refl) as (_ & _ & Hrec & _).
  exact Hrec.
Defined.

(** *** One pass, and the pass after it *)

Lemma omap_none {A B : Type} (f : A -> option B) (l : list A) :
  (forall x, x ∈ l -> f x = None) -> omap f l = [].
Proof.
  induction l as [|x l IH]; intros Hall; [done|].
  cbn [omap list_omap]. rewrite (Hall x) by left.
  apply IH. intros y Hy. apply Hall. by right.
Qed.

(** What the detection leaves behind. *)
Lemma detection_summary (env : Env) (w : World) :
  let res := _check_orders_returned_from_no_product env w in
  trace res.1 = trace w /\
  quiet env (db res.1) /\
  (forall k r, processed_orders (db w) !! k = Some r ->
     came_back env (k, r) = None ->
     processed_orders (db res.1) !! k = Some r) /\
  (quiet env (db w) ->
     res.2 = [] /\
     processed_orders (db res.1) = processed_orders (db w)).
Proof.
  pose proof (get_all_processed_orders_NoDup (db w)) as Hnd.
  assert (Hrows : forall k r, (k, r) ∈ get_all_processed_orders (db w) ->
                    processed_orders (db w) !! k = Some r).
  { intros k r. apply get_all_processed_orders_elem. }
  destruct (check_rows_effect env (get_all_processed_orders (db w)) w []
              Hnd Hrows) as (Hres & Htr & _ & _ & Hgone & Hkept).
  simpl in Hres. unfold _check_orders_returned_from_no_product. cbv zeta.
  assert (Hsame : forall k r, processed_orders (db w) !! k = Some r ->
            came_back env (k, r) = None ->
            processed_orders
              (db (foldl (check_row env) (w, [])
                     (get_all_processed_orders (db w))).1) !! k = Some r).
  { intros k r Hrow Hcb. rewrite <- Hrow. apply Hkept.
    intros r' Hin. apply Hrows in Hin.
    assert (r' = r) as -> by congruence. done. }
  split; [done|]. split; [|split; [done|]].
  - intros k r Hrow'.
    destruct (processed_orders (db w) !! k) as [r0|] eqn:Hrow.
    + destruct (came_back env (k, r0)) as [o|] eqn:Hcb.
      * rewrite (Hgone k r0) in Hrow'; [done| |by eexists].
        by apply get_all_processed_orders_elem.
      * rewrite (Hsame k r0 Hrow Hcb) in Hrow'. by injection Hrow' as <-.
    + rewrite Hkept in Hrow'; [congruence|].
      intros r' Hin. apply Hrows in Hin. congruence.
  - intros Hq. split.
    + rewrite Hres. apply omap_none. intros [k r] Hin.
      apply Hq. by apply Hrows.
    + apply map_eq. intros k. apply Hkept. intros r Hin.
      apply Hq. by apply Hrows.
Qed.




(** Outside the amended statement: when the target status and the returned
    status are one code, an order that comes back is on the page and among
    the orders the detection yields, passes the filter twice, and each of
    the three recipients is called twice in the one pass. *)
Example returned_order_on_the_page_notified_twice :
  length (calls_about 7
            (trace (check_orders_with_status one_status_shop pending_world)))
    = 6%nat.
Proof. vm_compute. reflexivity. Qed.

End MonitorFacts.

(** ** More facts about the ledger *)

Module LedgerMore.
Import Ledger LedgerFacts.

(** X1 ([reset_order_status]): the unguarded delete returns true exactly
    when the order has a row, whatever its flags are; afterwards the order
    is not processed and every other row is as before.  It deletes rows
    that [reset_order_for_renotification] refuses to delete. *)
Theorem reset_order_status_unguarded (order_id : Z) (db : Db) :
  let res := reset_order_status order_id db in
  res.1 = is_order_processed db order_id /\
  is_order_processed res.2 order_id = false /\
  (forall other, other <> order_id ->
     processed_orders res.2 !! other = processed_orders db !! other) /\
  (forall r, processed_orders db !! order_id = Some r ->
     was_in_no_product r = false ->
     res.1 = true /\
     reset_order_for_renotification order_id db = (false, db)).
Proof.
  unfold reset_order_status, reset_order_for_renotification, sql_delete,
    is_order_processed, sql_count. simpl.
  rewrite lookup_delete_eq. repeat split.
  - intros other Hne. by rewrite lookup_delete_ne.
  - by match goal with H : _ !! _ = Some _ |- _ => rewrite H end.
  - repeat match goal with H : _ = _ |- _ => rewrite H end. done.
Qed.

Lemma reset_order_status_unguarded_witness :
  processed_orders plain_db !! 7 = Some plain_row /\
  (reset_order_status 7 plain_db).1 = true /\
  reset_order_for_renotification 7 plain_db = (false, plain_db).
Proof.
  assert (Hrow : processed_orders plain_db !! 7 = Some plain_row)
    by reflexivity.
  split; [exact Hrow|].
  exact (proj2 (proj2 (proj2 (reset_order_status_unguarded 7 plain_db)))
           plain_row Hrow eq_refl).
Defined.

(** X2 (the no-product excursion, [mark_order_in_no_product],
    [mark_order_returned_from_no_product], [reset_order_for_renotification],
    [save_processed_order]): for an order that has a row, marking it as in
    no-product and as returned makes exactly one reset succeed; a second
    reset fails and changes nothing, and after the order is saved again the
    reset fails as well, until the order is marked as in no-product
    again. *)
Theorem renotification_once (t1 t2 t3 t4 order_id : Z) (number st : string)
    (delivery : option string) (sum : option Z)
    (customer warehouse : option string) (db : Db) :
  is_order_processed db order_id = true ->
  let d1 := (mark_order_in_no_product t1 order_id db).2 in
  let d2 := (mark_order_returned_from_no_product t2 order_id d1).2 in
  let first := reset_order_for_renotification order_id d2 in
  let second := reset_order_for_renotification order_id first.2 in
  let d3 := (save_processed_order t3 order_id number st delivery sum
               customer warehouse first.2).2 in
  let third := reset_order_for_renotification order_id d3 in
  let d4 := (mark_order_in_no_product t4 order_id d3).2 in
  first.1 = true /\ is_order_processed first.2 order_id = false /\
  second = (false, first.2) /\
  is_order_processed d3 order_id = true /\
  third = (false, d3) /\
  (reset_order_for_renotification order_id d4).1 = true.
Proof.
  intros Hrow. apply is_order_processed_spec in Hrow as [r Hrow].
  unfold mark_order_in_no_product, mark_order_returned_from_no_product,
    reset_order_for_renotification, save_processed_order, sql_update,
    sql_delete, sql_count, is_order_processed. simpl.
  repeat first
    [ rewrite lookup_alter_eq | rewrite lookup_delete_eq
    | rewrite lookup_insert_eq | rewrite Hrow
    | progress unfold sql_count, sql_delete, is_order_processed,
        reset_order_for_renotification
    | progress simpl ].
  done.
Qed.

Lemma renotification_once_witness :
  is_order_processed plain_db 7 = true /\
  (reset_order_for_renotification 7
     (mark_order_returned_from_no_product 20 7
        (mark_order_in_no_product 10 7 plain_db).2).2).1 = true.
Proof.
  assert (H : is_order_processed plain_db 7 = true) by reflexivity.
  split; [exact H|].
  exact (proj1 (renotification_once 10 20 30 40 7 "A-7" "target" None None
                  None None plain_db H)).
Defined.

(** X3 (the three markers): [mark_order_in_no_product],
    [mark_order_returned_from_no_product] and [mark_bouquet_ready_notified]
    never remove a row and never clear a flag; on the row of the order the
    marker sets its own flag, which the matching query then reports, and
    leaves the other two flags and the order data as they were; rows of
    other orders are not touched. *)
Theorem markers_only_set_flags (now order_id : Z) (db : Db)
    (r : ProcessedOrder) :
  processed_orders db !! order_id = Some r ->
  let a := (mark_order_in_no_product now order_id db).2 in
  let b := (mark_order_returned_from_no_product now order_id db).2 in
  let c := mark_bouquet_ready_notified now order_id db in
  (was_order_in_no_product a order_id = true /\
   is_order_returned_from_no_product a order_id = returned_from_no_product r
   /\ is_bouquet_ready_notified a order_id = bouquet_ready_notified r) /\
  (was_order_in_no_product b order_id = was_in_no_product r /\
   is_order_returned_from_no_product b order_id = true /\
   is_bouquet_ready_notified b order_id = bouquet_ready_notified r) /\
  (c.1 = true /\
   was_order_in_no_product c.2 order_id = was_in_no_product r /\
   is_order_returned_from_no_product c.2 order_id
     = returned_from_no_product r /\
   is_bouquet_ready_notified c.2 order_id = true) /\
  (forall d, d = a \/ d = b \/ d = c.2 ->
     (exists r', processed_orders d !! order_id = Some r' /\
        order_number r' = order_number r /\ status r' = status r /\
        delivery_type r' = delivery_type r /\
        warehouse_code r' = warehouse_code r /\
        notified_at r' = notified_at r /\ po_rowid r' = po_rowid r) /\
     forall other, other <> order_id ->
       processed_orders d !! other = processed_orders db !! other).
Proof.
  intros Hrow.
  unfold mark_order_in_no_product, mark_order_returned_from_no_product,
    mark_bouquet_ready_notified, sql_update, sql_count,
    was_order_in_no_product, is_order_returned_from_no_product,
    is_bouquet_ready_notified. simpl.
  rewrite !lookup_alter_eq, Hrow. simpl.
  split; [done|]. split; [done|]. split; [done|].
  intros d [-> | [-> | ->]]; simpl; rewrite lookup_alter_eq, Hrow; simpl;
    (split; [by eexists | intros other Hne; by rewrite lookup_alter_ne]).
Qed.

Lemma markers_only_set_flags_witness :
  processed_orders plain_db !! 7 = Some plain_row /\
  was_order_in_no_product (mark_order_in_no_product 10 7 plain_db).2 7
    = true /\
  is_bouquet_ready_notified (mark_order_in_no_product 10 7 plain_db).2 7
    = false.
Proof.
  assert (Hrow : processed_orders plain_db !! 7 = Some plain_row)
    by reflexivity.
  split; [exact Hrow|].
  destruct (markers_only_set_flags 10 7 plain_db plain_row Hrow)
    as ((Ha & _ & Hc) & _).
  split; [exact Ha | exact Hc].
Defined.

(** X4 ([add_processed_order]): the older insert never overwrites: for an
    order that has a row the database is left as it is, flags included; for
    an order without a row it stores a row with every flag 0 and without a
    delivery type, and touches no other row. *)
Theorem add_processed_order_keeps_existing (now order_id : Z)
    (number st : string) (sum : option Z) (db : Db) :
  let db' := add_processed_order now order_id number st sum db in
  (is_order_processed db order_id = true -> db' = db) /\
  (is_order_processed db order_id = false ->
     is_order_processed db' order_id = true /\
     was_order_in_no_product db' order_id = false /\
     is_order_returned_from_no_product db' order_id = false /\
     is_bouquet_ready_notified db' order_id = false /\
     get_order_delivery_type db' order_id = None) /\
  (forall other, other <> order_id ->
     processed_orders db' !! other = processed_orders db !! other).
Proof.
  unfold add_processed_order, is_order_processed, sql_count,
    was_order_in_no_product, is_order_returned_from_no_product,
    is_bouquet_ready_notified, get_order_delivery_type.
  destruct (processed_orders db !! order_id) as [r|] eqn:Hrow; simpl.
  - repeat split; done.
  - rewrite !lookup_insert_eq. repeat split; try done.
    intros other Hne. by rewrite lookup_insert_ne.
Qed.

Lemma add_processed_order_keeps_existing_witness :
  is_order_processed flagged_db 7 = true /\
  add_processed_order 500 7 "A-7" "target" None flagged_db = flagged_db.
Proof.
  assert (H : is_order_processed flagged_db 7 = true) by reflexivity.
  split; [exact H|].
  exact (proj1 (add_processed_order_keeps_existing 500 7 "A-7" "target" None
                  flagged_db) H).
Defined.

(** X5 ([save_processed_order] and [get_order_delivery_type]): the
    delivery type that was saved for an order is the one read back, also
    after any of the three markers; once the order is reset for another
    notification, [None] is read. *)
Theorem delivery_type_round_trip (t1 t2 order_id : Z) (number st : string)
    (delivery : option string) (sum : option Z)
    (customer warehouse : option string) (db : Db) :
  let d := (save_processed_order t1 order_id number st delivery sum
              customer warehouse db).2 in
  get_order_delivery_type d order_id = delivery /\
  get_order_delivery_type (mark_order_in_no_product t2 order_id d).2 order_id
    = delivery /\
  get_order_delivery_type
    (mark_order_returned_from_no_product t2 order_id d).2 order_id
    = delivery /\
  get_order_delivery_type
    (mark_bouquet_ready_notified t2 order_id d).2 order_id = delivery /\
  get_order_delivery_type
    (reset_order_for_renotification order_id
       (mark_order_in_no_product t2 order_id d).2).2 order_id = None /\
  (forall other, other <> order_id ->
     get_order_delivery_type d other = get_order_delivery_type db other).
Proof.
  unfold save_processed_order, get_order_delivery_type,
    mark_order_in_no_product, mark_order_returned_from_no_product,
    mark_bouquet_ready_notified, reset_order_for_renotification,
    sql_update, sql_delete, sql_count. simpl.
  rewrite !lookup_alter_eq, !lookup_insert_eq. simpl.
  rewrite lookup_delete_eq. repeat split.
  intros other Hne. by rewrite lookup_insert_ne.
Qed.

(** X6 ([remove_old_processed_orders]): the sweep keeps exactly the rows
    that were notified at the cutoff or later, each as it was, and returns
    the number of rows it deleted; the error log is not touched. *)
Theorem retention_sweep (datetime_now days : Z) (db : Db) :
  let cutoff := datetime_now - days * 86400 * 1000000 in
  let res := remove_old_processed_orders datetime_now days db in
  (forall k r,
     processed_orders res.2 !! k = Some r <->
     processed_orders db !! k = Some r /\
     cutoff <= notified_at r * 1000000) /\
  res.1 = Z.of_nat (size (processed_orders db))
          - Z.of_nat (size (processed_orders res.2)) /\
  0 <= res.1 /\
  error_log res.2 = error_log db.
Proof.
  unfold remove_old_processed_orders. simpl.
  set (cutoff := datetime_now - days * 86400 * 1000000).
  set (t := processed_orders db).
  split; [|split; [|split; [lia | done]]].
  - intros k r. rewrite map_lookup_filter_Some. unfold old. simpl.
    split; intros [? ?]; (split; [done | lia]).
  - pose proof (map_filter_union_complement (old cutoff) t) as Hsplit.
    pose proof (map_disjoint_filter_complement (old cutoff) t) as Hdisj.
    apply map_size_disj_union in Hdisj. rewrite Hsplit in Hdisj. lia.
Qed.

(** *** The statistics *)

Lemma sum_stats_insert_new (column : AdminStat -> Z) (admin_id start_date : Z)
    (stats : gmap (Z * Z) AdminStat) (key : Z * Z) (row : AdminStat) :
  stats !! key = None ->
  sum_stats column admin_id start_date (<[key := row]> stats) =
    sum_stats column admin_id start_date stats
    + counted column admin_id start_date key row.
Proof.
  intros Hnone. unfold sum_stats, counted.
  rewrite map_fold_insert_L; [|by intros; repeat case_bool_decide; lia|done].
  case_bool_decide; lia.
Qed.

Lemma sum_stats_insert_old (column : AdminStat -> Z) (admin_id start_date : Z)
    (stats : gmap (Z * Z) AdminStat) (key : Z * Z) (row row0 : AdminStat) :
  stats !! key = Some row0 ->
  sum_stats column admin_id start_date (<[key := row]> stats) =
    sum_stats column admin_id start_date stats
    - counted column admin_id start_date key row0
    + counted column admin_id start_date key row.
Proof.
  intros Hold.
  rewrite <- (insert_delete_eq stats key row).
  rewrite sum_stats_insert_new by apply lookup_delete_eq.
  rewrite <- (insert_delete_id stats key row0 Hold) at 2.
  rewrite sum_stats_insert_new by apply lookup_delete_eq. lia.
Qed.

(** An action moves each counter by what the first action of a day sets
    it to. *)
Lemma count_action_columns (act : string) (existing : AdminStat) :
  confirmed_count (count_action act existing) =
    confirmed_count existing + confirmed_count (first_action act) /\
  rejected_count (count_action act existing) =
    rejected_count existing + rejected_count (first_action act) /\
  completed_count (count_action act existing) =
    completed_count existing + completed_count (first_action act).
Proof.
  unfold count_action, first_action.
  repeat case_bool_decide; subst; simpl; try discriminate; lia.
Qed.

(** The change of one sum by one call of [_update_admin_stats]. *)
Lemma update_admin_stats_sum (column : AdminStat -> Z) (today : Z)
    (admin_id other start_date : Z) (act : string)
    (stats : gmap (Z * Z) AdminStat) :
  (forall existing, column (count_action act existing) =
                    column existing + column (first_action act)) ->
  sum_stats column other start_date
    (_update_admin_stats today admin_id act stats) =
  sum_stats column other start_date stats
  + (if bool_decide (admin_id = other /\ start_date <= today)
     then column (first_action act) else 0).
Proof.
  intros Hadd. unfold _update_admin_stats.
  destruct (stats !! (admin_id, today)) as [existing|] eqn:Hrow.
  - rewrite (sum_stats_insert_old _ _ _ _ _ _ existing Hrow).
    unfold counted. simpl. case_bool_decide; [|lia]. rewrite Hadd. lia.
  - rewrite (sum_stats_insert_new _ _ _ _ _ _ Hrow). done.
Qed.

(** X7 ([log_order_action], [_update_admin_stats], [get_admin_stats]): an
    action is appended to the log, and in the statistics of its
    administrator over any period that reaches today it moves exactly one
    counter by one, the one of its name, if it is one of confirmed,
    rejected and completed, and no counter otherwise; the total is the
    confirmed and the rejected orders and leaves the completed ones out;
    the statistics of every other administrator stay as they are. *)
Theorem log_order_action_counts (now today order_id admin_id : Z)
    (act : string) (note : option string) (a : Audit) (days : Z) :
  0 <= days ->
  let a' := log_order_action now today order_id admin_id act note a in
  let s := get_admin_stats today admin_id days a in
  let s' := get_admin_stats today admin_id days a' in
  confirmed s' = confirmed s
                 + (if bool_decide (act = "confirmed"%string) then 1 else 0)
  /\
  rejected s' = rejected s
                + (if bool_decide (act = "rejected"%string) then 1 else 0)
  /\
  completed s' = completed s
                 + (if bool_decide (act = "completed"%string) then 1 else 0)
  /\
  total s' = confirmed s' + rejected s' /\
  length (order_actions a') = S (length (order_actions a)) /\
  (forall other period, other <> admin_id ->
     get_admin_stats today other period a' =
     get_admin_stats today other period a).
Proof.
  intros Hdays. cbv zeta.
  unfold get_admin_stats, log_order_action. simpl.
  rewrite !update_admin_stats_sum
    by (intros existing; apply count_action_columns).
  rewrite !bool_decide_eq_true_2 by (split; [done | lia]).
  repeat split.
  - rewrite length_app. simpl. lia.
  - intros other period Hne.
    rewrite !update_admin_stats_sum
      by (intros existing; apply count_action_columns).
    rewrite !bool_decide_eq_false_2 by (intros [? _]; done).
    by rewrite !Z.add_0_r.
Qed.

Lemma log_order_action_counts_witness :
  confirmed (get_admin_stats 20000 111 7
               (log_order_action 5 20000 7 111 "confirmed" None empty_audit))
  = confirmed (get_admin_stats 20000 111 7 empty_audit) + 1.
Proof.
  exact (proj1 (log_order_action_counts 5 20000 7 111 "confirmed" None
                  empty_audit 7 ltac:(lia))).
Defined.

End LedgerMore.

(** ** More facts about the rate limiter *)

Module RateLimitMore.
Import RateLimit RateLimitFacts.

(** Every command of the limiter leaves the keys alone that it is not sent
    for. *)
Lemma incr_other (now : Z) (key k : string) (srv : gmap string Entry) :
  k <> key -> (incr now key srv).2 !! k = srv !! k.
Proof.
  intros Hne. unfold incr. destruct (read now key srv) as [e|]; simpl.
  - case_bool_decide; simpl; [done | by rewrite lookup_insert_ne].
  - by rewrite lookup_insert_ne.
Qed.

Lemma expire_other (now : Z) (key k : string) (seconds : Z)
    (srv : gmap string Entry) :
  k <> key -> (expire now key seconds srv).2 !! k = srv !! k.
Proof.
  intros Hne. unfold expire. destruct (read now key srv) as [e|]; [|done].
  case_bool_decide; simpl;
    [by rewrite lookup_delete_ne | by rewrite lookup_insert_ne].
Qed.

Lemma ttl_same (now : Z) (key : string) (srv : gmap string Entry) :
  (ttl now key srv).2 = srv.
Proof.
  unfold ttl. destruct (read now key srv) as [e|]; [|done].
  by destruct (expire_at e).
Qed.

Lemma send_other {A : Type} (link : Link)
    (cmd : gmap string Entry -> reply A * gmap string Entry)
    (k : string) (srv : gmap string Entry) :
  (cmd srv).2 !! k = srv !! k -> (send link cmd srv).2 !! k = srv !! k.
Proof. by destruct link. Qed.

Lemma check_other_key (self : RateLimiter) (net : Net) (now : Z)
    (identifier action : string) (limit window : Z) (k : string)
    (srv : gmap string Entry) :
  k <> _get_key self identifier action ->
  (check_rate_limit self net now identifier action limit window srv).2 !! k
  = srv !! k.
Proof.
  intros Hne. unfold check_rate_limit.
  destruct (redis self); [|done].
  assert (Hbody : (check_body self net now identifier action limit window
                     srv).2 !! k = srv !! k).
  { unfold check_body.
    set (key := _get_key self identifier action) in *.
    pose proof (send_other (net_incr net) (incr now key) k srv
                  (incr_other now key k srv Hne)) as H1.
    destruct (send (net_incr net) (incr now key) srv) as [[current|] srv1];
      simpl in H1; [|done].
    assert (H2 : (if bool_decide (current = 1)
                  then send (net_expire net) (expire now key window) srv1
                  else (Reply 0, srv1)).2 !! k = srv !! k).
    { case_bool_decide; [|done]. rewrite <- H1.
      apply send_other, expire_other. done. }
    destruct (if bool_decide (current = 1)
              then send (net_expire net) (expire now key window) srv1
              else (Reply 0, srv1)) as [[n|] srv2]; simpl in H2; [|done].
    case_bool_decide; [|done].
    pose proof (send_other (net_ttl net) (ttl now key) k srv2) as H3.
    rewrite ttl_same in H3. specialize (H3 eq_refl).
    destruct (send (net_ttl net) (ttl now key) srv2) as [[m|] srv3];
      simpl in *; congruence. }
  by destruct (check_body self net now identifier action limit window srv)
    as [[r|] srv'].
Qed.

Lemma read_deleted (now : Z) (key : string) (srv : gmap string Entry) :
  read now key (delete key srv) = None.
Proof. unfold read. by rewrite lookup_delete_eq. Qed.

(** X8 ([reset_limit]): without a client nothing is reset and the answer is
    false.  Over a working connection the answer is true exactly when the
    key had a counter; afterwards the key has none at any instant, the next
    check counts from one again, and no other key has changed. *)
Theorem reset_limit_starts_over (self : RateLimiter) (now later : Z)
    (identifier action : string) (limit window : Z)
    (srv : gmap string Entry) :
  let key := _get_key self identifier action in
  (redis self = None ->
   reset_limit self Up now identifier action srv = (false, srv)) /\
  (redis self = Some () -> 0 < window ->
   let res := reset_limit self Up now identifier action srv in
   (res.1 = true <-> is_Some (read now key srv)) /\
   (forall t, count t key res.2 = 0) /\
   (check_rate_limit self all_up later identifier action limit window
      res.2).1 = (bool_decide (limit < 1), Z.max 0 (limit - 1)) /\
   (forall k, k <> key -> res.2 !! k = srv !! k)).
Proof.
  intros key. unfold reset_limit. split; [by intros ->|].
  intros Hc Hw. rewrite Hc. simpl. fold key. unfold del.
  assert (Hzero : forall t, count t key (delete key srv) = 0).
  { intros t. unfold count. by rewrite read_deleted. }
  assert (Hnext : (check_rate_limit self all_up later identifier action
                     limit window (delete key srv)).1
                  = (bool_decide (limit < 1), Z.max 0 (limit - 1))).
  { rewrite check_first; [done | done | apply Hzero | done]. }
  assert (Hrest : forall k, k <> key -> delete key srv !! k = srv !! k).
  { intros k Hk. by rewrite lookup_delete_ne. }
  destruct (read now key srv) as [e|]; simpl;
    repeat split; try done; try (by eexists); by intros [? ?].
Qed.

Lemma reset_limit_starts_over_witness :
  (check_rate_limit connected all_up 9000 "12345" "confirm_order" 5 60
     (reset_limit connected Up 8000 "12345" "confirm_order"
        (check_at connected "12345" "confirm_order" 5 60
           [0; 1000; 2000; 3000; 4000; 5000] ∅).2).2).1 = (false, 4).
Proof.
  exact (proj1 (proj2 (proj2
    (proj2 (reset_limit_starts_over connected 8000 9000 "12345"
              "confirm_order" 5 60
              (check_at connected "12345" "confirm_order" 5 60
                 [0; 1000; 2000; 3000; 4000; 5000] ∅).2)
       eq_refl ltac:(lia))))).
Defined.

(** X9 ([get_remaining_time]): right after the first check of a window the
    time to the reset is the whole window; later it is between one second
    and the window whenever a time is reported; in the last half second of
    the window [None] is reported although the counter is still there; and
    without a counter [None] is reported. *)
Theorem remaining_time_of_window (self : RateLimiter) (now : Z)
    (identifier action : string) (limit window : Z)
    (srv : gmap string Entry) :
  redis self = Some () ->
  read now (_get_key self identifier action) srv = None ->
  0 < window ->
  let key := _get_key self identifier action in
  let srv1 :=
    (check_rate_limit self all_up now identifier action limit window srv).2 in
  get_remaining_time self Up now identifier action srv = None /\
  get_remaining_time self Up now identifier action srv1 = Some window /\
  (forall later t,
     now <= later ->
     get_remaining_time self Up later identifier action srv1 = Some t ->
     1 <= t <= window) /\
  (forall later,
     now + window * 1000 - 500 < later <= now + window * 1000 ->
     get_remaining_time self Up later identifier action srv1 = None /\
     count later key srv1 = 1).
Proof.
  intros Hc Hfresh Hw key srv1. subst srv1.
  rewrite (check_fresh self now identifier action limit window srv Hc
             Hfresh Hw). simpl. fold key. fold key in Hfresh.
  unfold get_remaining_time. rewrite Hc. simpl. fold key.
  unfold ttl. rewrite Hfresh. split; [done|].
  assert (Hread : forall later,
            read later key
              (<[key := {| value := 1;
                           expire_at := Some (now + window * 1000) |}]> srv)
            = if bool_decide (later <= now + window * 1000)
              then Some {| value := 1;
                           expire_at := Some (now + window * 1000) |}
              else None).
  { intros later. unfold read. rewrite lookup_insert_eq. done. }
  split; [|split].
  - rewrite Hread, bool_decide_eq_true_2 by lia. simpl.
    replace (now + window * 1000 - now + 500) with (window * 1000 + 500)
      by lia.
    rewrite Z.div_add_l by lia. change (500 `div` 1000) with 0.
    rewrite Z.add_0_r. destruct (Z.ltb_spec 0 window); [done | lia].
  - intros later t Hlater. rewrite Hread.
    case_bool_decide; simpl; [|done].
    destruct (Z.ltb_spec 0 ((now + window * 1000 - later + 500) `div` 1000));
      [|done].
    intros [= <-]. split; [lia|].
    apply Z.lt_succ_r, Z.div_lt_upper_bound; lia.
  - intros later Hlater. unfold count. rewrite Hread.
    rewrite bool_decide_eq_true_2 by lia. simpl.
    rewrite Z.div_small by lia. done.
Qed.

Lemma remaining_time_of_window_witness :
  get_remaining_time connected Up 0 "12345" "confirm_order"
    (check_rate_limit connected all_up 0 "12345" "confirm_order" 5 60 ∅).2
  = Some 60.
Proof.
  exact (proj1 (proj2 (remaining_time_of_window connected 0 "12345"
                         "confirm_order" 5 60 ∅ eq_refl eq_refl
                         ltac:(lia)))).
Defined.

(** A counter without a time to live is read at every instant. *)
Lemma read_no_ttl (t v : Z) (key : string) (srv : gmap string Entry) :
  read t key (<[key := {| value := v; expire_at := None |}]> srv)
  = Some {| value := v; expire_at := None |}.
Proof. by apply read_insert_live. Qed.

(** Checks on a counter that has no time to live: each one counts on, and
    none gives the counter a time to live. *)
Lemma check_at_no_ttl (self : RateLimiter) (identifier action : string)
    (limit window : Z) (times : list Z) :
  forall (v : Z) (srv : gmap string Entry),
    redis self = Some () ->
    1 <= v -> v + Z.of_nat (length times) < int64_max ->
    let key := _get_key self identifier action in
    let run := check_at self identifier action limit window times
                 (<[key := {| value := v; expire_at := None |}]> srv) in
    run.1 = (fun i => (bool_decide (limit < v + Z.of_nat i),
                       Z.max 0 (limit - (v + Z.of_nat i))))
            <$> seq 1 (length times) /\
    forall t, read t key run.2 =
              Some {| value := v + Z.of_nat (length times);
                      expire_at := None |}.
Proof.
  induction times as [|now times IH]; intros v srv Hc Hv Hmax key run;
    subst run key.
  - simpl. split; [done|]. intros t.
    rewrite Z.add_0_r. apply read_no_ttl.
  - cbn [check_at].
    rewrite (check_live self now identifier action limit window _
               {| value := v; expire_at := None |} Hc
               (read_no_ttl now v _ srv));
      [|simpl in *; lia..].
    cbn [value expire_at]. rewrite insert_insert_eq.
    cbn [length] in Hmax.
    destruct (IH (v + 1) srv Hc ltac:(lia) ltac:(lia)) as [Hans Hread].
    destruct (check_at self identifier action limit window times
                (<[_get_key self identifier action :=
                     {| value := v + 1; expire_at := None |}]> srv))
      as [answers srv'] eqn:Hrun.
    simpl in Hans, Hread. simpl. split.
    + change (Z.of_nat 1) with 1. f_equal.
      rewrite Hans.
      rewrite <- (fmap_S_seq 1 (length times)), <- list_fmap_compose.
      apply list_fmap_ext. intros i x _. simpl.
      by replace (v + 1 + Z.of_nat x) with (v + Z.of_nat (S x)) by lia.
    + intros t. rewrite Hread. do 2 f_equal. lia.
Qed.

(** X10 ([check_rate_limit] when [EXPIRE] fails): if the connection fails
    between [INCR] and [EXPIRE] on the first check of a window, the caller
    is let through, but the counter stays without a time to live: it is
    there at every later instant, every later check counts on from it and
    never sets a time to live, so that from the check that brings the
    count over the limit on, the caller is limited at every instant. *)
Theorem counter_without_ttl (self : RateLimiter) (now : Z)
    (identifier action : string) (limit window : Z) (times : list Z)
    (srv : gmap string Entry) :
  redis self = Some () ->
  read now (_get_key self identifier action) srv = None ->
  Z.of_nat (length times) < 2 ^ 62 ->
  let key := _get_key self identifier action in
  let first :=
    check_rate_limit self expire_lost now identifier action limit window
      srv in
  let run := check_at self identifier action limit window times first.2 in
  first.1 = (false, limit) /\
  (forall t, read t key first.2 =
             Some {| value := 1; expire_at := None |}) /\
  run.1 = (fun i => (bool_decide (limit < 1 + Z.of_nat i),
                     Z.max 0 (limit - (1 + Z.of_nat i))))
          <$> seq 1 (length times) /\
  (forall t, read t key run.2 =
             Some {| value := 1 + Z.of_nat (length times);
                     expire_at := None |}).
Proof.
  intros Hc Hfresh Hlen key first run.
  assert (Hfirst : first = ((false, limit),
            <[key := {| value := 1; expire_at := None |}]> srv)).
  { subst first. unfold check_rate_limit, check_body. rewrite Hc. simpl.
    fold key. unfold incr. fold key in Hfresh. by rewrite Hfresh. }
  subst run. rewrite Hfirst. simpl.
  split; [done|]. split; [intros t; apply read_no_ttl|].
  apply (check_at_no_ttl self identifier action limit window times 1 srv Hc);
    [lia|].
  change (2 ^ 62) with 4611686018427387904 in Hlen.
  unfold int64_max. lia.
Qed.

Lemma counter_without_ttl_witness :
  (check_at connected "12345" "confirm_order" 2 60 [1000; 999000]
     (check_rate_limit connected expire_lost 0 "12345" "confirm_order" 2 60
        ∅).2).1 = [(false, 0); (true, 0)].
Proof.
  exact (proj1 (proj2 (proj2
    (counter_without_ttl connected 0 "12345" "confirm_order" 2 60
       [1000; 999000] ∅ eq_refl eq_refl ltac:(done))))).
Defined.

(** *** Keys *)

Lemma chars_append (a b : string) :
  list_ascii_of_string (a ++ b) =
    list_ascii_of_string a ++ list_ascii_of_string b.
Proof. induction a as [|c a IH]; simpl; [done | by rewrite IH]. Qed.

Lemma chars_inj (a b : string) :
  list_ascii_of_string a = list_ascii_of_string b -> a = b.
Proof.
  intros H. apply (f_equal string_of_list_ascii) in H.
  by rewrite !string_of_list_ascii_of_string in H.
Qed.

Lemma first_sep_unique (sep : ascii) (a b a' b' : list ascii) :
  sep ∉ a -> sep ∉ a' -> a ++ sep :: b = a' ++ sep :: b' ->
  a = a' /\ b = b'.
Proof.
  revert a'. induction a as [|c a IH]; intros [|c' a'] Ha Ha'; simpl.
  - by intros [= ->].
  - intros [= <- _]. exfalso. apply Ha'. set_solver.
  - intros [= -> _]. exfalso. apply Ha. set_solver.
  - intros [= <- Heq].
    apply not_elem_of_cons in Ha as [_ Ha].
    apply not_elem_of_cons in Ha' as [_ Ha'].
    destruct (IH a' Ha Ha' Heq) as [-> ->]. done.
Qed.

(** X11 ([_get_key], [check_rate_limit]): for actions without a colon the
    key determines the action and the identifier, and a check for one pair
    leaves the counter of every other pair as it is, whatever the
    connection does; with a colon in an action, two different pairs share
    one key and one counter. *)
Theorem keys_separate (self : RateLimiter) :
  (forall a1 i1 a2 i2,
     Callback.colon ∉ list_ascii_of_string a1 ->
     Callback.colon ∉ list_ascii_of_string a2 ->
     _get_key self i1 a1 = _get_key self i2 a2 -> a1 = a2 /\ i1 = i2) /\
  (forall a1 i1 a2 i2 net now limit window srv t,
     Callback.colon ∉ list_ascii_of_string a1 ->
     Callback.colon ∉ list_ascii_of_string a2 ->
     (a1, i1) <> (a2, i2) ->
     read t (_get_key self i2 a2)
       (check_rate_limit self net now i1 a1 limit window srv).2
     = read t (_get_key self i2 a2) srv) /\
  (forall x y z : string,
     _get_key self (y ++ ":" ++ z) x = _get_key self z (x ++ ":" ++ y)).
Proof.
  assert (Hinj : forall a1 i1 a2 i2,
            Callback.colon ∉ list_ascii_of_string a1 ->
            Callback.colon ∉ list_ascii_of_string a2 ->
            _get_key self i1 a1 = _get_key self i2 a2 ->
            a1 = a2 /\ i1 = i2).
  { intros a1 i1 a2 i2 H1 H2 Hkey. unfold _get_key in Hkey.
    apply (inj (String.append (prefix self))) in Hkey.
    apply (inj (String.append ":")) in Hkey.
    apply (f_equal list_ascii_of_string) in Hkey.
    rewrite !chars_append in Hkey. simpl in Hkey.
    destruct (first_sep_unique _ _ _ _ _ H1 H2 Hkey) as [Ha Hi].
    split; by apply chars_inj. }
  split; [exact Hinj|]. split.
  - intros a1 i1 a2 i2 net now limit window srv t H1 H2 Hne.
    unfold read. rewrite check_other_key; [done|].
    intros Hkey. symmetry in Hkey.
    destruct (Hinj a1 i1 a2 i2 H1 H2 Hkey) as [-> ->]. done.
  - intros x y z. unfold _get_key. apply chars_inj.
    rewrite !chars_append. simpl. rewrite <- ?app_assoc. simpl.
    by rewrite <- ?app_assoc.
Qed.

Lemma keys_separate_witness :
  read 0 (_get_key connected "222" "confirm_order")
    (check_rate_limit connected all_up 0 "111" "confirm_order" 5 60 ∅).2
  = read 0 (_get_key connected "222" "confirm_order") ∅.
Proof.
  apply (proj1 (proj2 (keys_separate connected))).
  - vm_compute. intros H. by repeat (apply elem_of_cons in H as [H|H];
                                     [discriminate H|]);
      apply elem_of_nil in H.
  - vm_compute. intros H. by repeat (apply elem_of_cons in H as [H|H];
                                     [discriminate H|]);
      apply elem_of_nil in H.
  - discriminate.
Defined.

End RateLimitMore.

(** ** The payloads of the buttons *)

Module CallbackMore.
Import Callback CallbackFacts.

Lemma uchars_digits (d : Decimal.uint) :
  Forall (fun c => is_Some (digit_of c)) (uchars d).
Proof.
  unfold uchars. induction d; simpl; constructor; try done; by eexists.
Qed.

Lemma uchars_grouped (d : Decimal.uint) : d <> Nil -> grouped (uchars d).
Proof.
  assert (H : forall l, Forall (fun c => is_Some (digit_of c)) l ->
                        l <> [] -> grouped l).
  { induction 1 as [|c l Hc Hl IH]; [done|]. intros _.
    destruct l as [|c' l']; [by apply grouped_last|].
    apply grouped_digit; [done | by apply IH]. }
  intros Hd. apply H; [apply uchars_digits|].
  unfold uchars. by destruct d.
Qed.

Lemma uchars_value (d : Decimal.uint) :
  forall acc, fold_left step (digits (uchars d)) acc = bval acc d.
Proof. unfold uchars, digits. induction d; intros acc; simpl; auto. Qed.

Lemma uchars_count (d : Decimal.uint) :
  length (digits (uchars d)) = length (uchars d).
Proof. unfold uchars, digits. induction d; simpl; auto. Qed.

Lemma bval_of_lu (d : Decimal.uint) :
  forall d', bval (Z.of_N (Unsigned.of_lu d')) d
             = Z.of_N (Unsigned.of_lu (Decimal.revapp d d')).
Proof.
  induction d; intros d'; simpl; [done|..];
    rewrite <- IHd; f_equal; unfold step; simpl Unsigned.of_lu; lia.
Qed.

Lemma bval_to_uint (p : positive) : bval 0 (Pos.to_uint p) = Z.pos p.
Proof.
  change 0 with (Z.of_N (Unsigned.of_lu Nil)). rewrite bval_of_lu.
  change (Decimal.revapp (Pos.to_uint p) Nil)
    with (Decimal.rev (Pos.to_uint p)).
  by rewrite <- Unsigned.of_uint_alt, Unsigned.of_to.
Qed.

Lemma uchars_trimmed (sign : list ascii) (d : Decimal.uint) :
  d <> Nil -> sign = [] \/ sign = [minus] ->
  trimmed isspace (sign ++ uchars d).
Proof.
  intros Hd Hsign. right.
  pose proof (uchars_grouped d Hd) as Hg.
  destruct (grouped_head _ Hg) as (c & t & Hbody & Hc).
  destruct (grouped_last_digit _ Hg) as (t' & c' & Hbody' & Hc').
  split.
  - destruct Hsign as [-> | ->].
    + exists c, t. split; [done | by apply digit_not_space].
    + exists minus, (uchars d). split; [done | reflexivity].
  - exists (sign ++ t'), c'. split; [|by apply digit_not_space].
    by rewrite Hbody', app_assoc.
Qed.

(** The characters of [str]: a sign and the digits of the absolute
    value. *)
Lemma str_chars (z : Z) :
  exists sign d,
    list_ascii_of_string (str z) = sign ++ uchars d /\ d <> Nil /\
    (sign = [] \/ sign = [minus]) /\
    z = (if bool_decide (sign = [minus]) then - bval 0 d else bval 0 d).
Proof.
  destruct z as [|p|p].
  - exists [], (D0 Nil). by repeat split; auto.
  - exists [], (Pos.to_uint p).
    pose proof (Unsigned.to_uint_nonnil p) as Hn.
    repeat split; auto.
    + unfold str, uchars. simpl. by destruct (Pos.to_uint p).
    + by rewrite bval_to_uint.
  - exists [minus], (Pos.to_uint p).
    pose proof (Unsigned.to_uint_nonnil p) as Hn.
    repeat split; auto.
    + unfold str, uchars. simpl. by destruct (Pos.to_uint p).
    + by rewrite bval_to_uint.
Qed.

(** [int(str(n))] is [n], for a number of at most 4300 characters. *)
Lemma int_str (z : Z) :
  (String.length (str z) <= int_max_str_digits)%nat ->
  int (list_ascii_of_string (str z)) = Some z /\
  trimmed isspace (list_ascii_of_string (str z)) /\
  list_ascii_of_string (str z) <> [] /\
  colon ∉ list_ascii_of_string (str z).
Proof.
  intros Hlen.
  destruct (str_chars z) as (sign & d & Hchars & Hd & Hsign & Hz).
  assert (Hsize : length (list_ascii_of_string (str z))
                  = String.length (str z)).
  { generalize (str z). induction s as [|c s IH]; simpl; auto. }
  rewrite <- Hsize, Hchars, length_app in Hlen.
  pose proof (uchars_trimmed sign d Hd Hsign) as Htrim.
  pose proof (uchars_grouped d Hd) as Hg.
  rewrite Hchars. split; [|split; [done|split]].
  - apply (int_trimmed _ _ Htrim). exists sign, (uchars d).
    split; [done|]. split; [destruct Hsign; auto|]. split; [done|].
    split; [rewrite uchars_count; lia|].
    unfold decimal. by rewrite uchars_value.
  - destruct (grouped_head _ Hg) as (c & t & -> & _).
    by destruct sign.
  - apply not_elem_of_app. split; [|by apply grouped_no_colon].
    destruct Hsign as [-> | ->]; [apply not_elem_of_nil|].
    apply not_elem_of_cons. split; [done | apply not_elem_of_nil].
Qed.

(** X12 ([create_order_keyboard] and [parse_callback_data]): for actions
    without a colon and an order id whose text has at most 4300
    characters, the payload the bot writes for one action and the id is
    read back, under the same action, as that id when the id is positive;
    for an id that is zero or negative, and under every other action, it is
    refused. *)
Theorem keyboard_round_trip (written read : string) (order_id : Z) :
  colon ∉ list_ascii_of_string written ->
  colon ∉ list_ascii_of_string read ->
  (String.length (str order_id) <= int_max_str_digits)%nat ->
  parse_callback_data (callback_data written order_id) read =
    if bool_decide (written = read) && (0 <? order_id)
    then Some order_id else None.
Proof.
  intros Hw Hr Hlen.
  destruct (int_str order_id Hlen) as (Hint & Htrim & Hne & Hcol).
  unfold parse_callback_data, callback_data, parse_chars.
  rewrite !RateLimitMore.chars_append. simpl.
  set (a := list_ascii_of_string written) in *.
  set (b := list_ascii_of_string read) in *.
  set (sb := list_ascii_of_string (str order_id)) in *.
  change ":"%char with colon.
  assert (Hdata : a ++ colon :: sb <> []) by (by destruct a).
  destruct (a ++ colon :: sb) as [|c0 s0] eqn:Hs; [done|].
  rewrite <- Hs. clear Hdata.
  destruct (startswith (b ++ [colon]) (a ++ colon :: sb)) eqn:Hsw.
  - apply startswith_prefix in Hsw as [rest Hrest].
    rewrite <- app_assoc in Hrest. simpl in Hrest.
    destruct (RateLimitMore.first_sep_unique colon a sb b rest Hw Hr Hrest)
      as [Hab _].
    assert (written = read) as -> by (by apply RateLimitMore.chars_inj).
    rewrite bool_decide_eq_true_2 by done. cbn [negb andb].
    rewrite (split_at_first colon a sb Hw), (split_no_sep colon sb Hcol).
    cbn [length Nat.eqb negb nth].
    rewrite (strip_trimmed_id isspace sb Htrim), Hint.
    destruct sb as [|c1 s1]; [done|].
    destruct (Z.leb_spec order_id 0), (Z.ltb_spec 0 order_id);
      done || lia.
  - cbn [negb]. case_bool_decide as Heq; [|done]. subst read.
    assert (startswith (a ++ [colon]) (a ++ colon :: sb) = true) as Habs.
    { apply startswith_prefix. exists sb. by rewrite <- app_assoc. }
    subst a b. rewrite Habs in Hsw. discriminate Hsw.
Qed.

Lemma keyboard_round_trip_witness :
  Forall (fun button => exists action,
            parse_callback_data button.2 action = Some 12345)
    (Monitor.create_order_keyboard 12345).
Proof.
  assert (Hc : colon ∉ list_ascii_of_string "confirm_order").
  { vm_compute. intros H.
    by repeat (apply elem_of_cons in H as [H|H]; [discriminate H|]);
      apply elem_of_nil in H. }
  assert (Hd : colon ∉ list_ascii_of_string "discuss_replacement").
  { vm_compute. intros H.
    by repeat (apply elem_of_cons in H as [H|H]; [discriminate H|]);
      apply elem_of_nil in H. }
  assert (Hlen : (String.length (str 12345) <= int_max_str_digits)%nat)
    by (vm_compute; lia).
  repeat constructor.
  - exists "confirm_order"%string.
    exact (keyboard_round_trip "confirm_order" "confirm_order" 12345
             Hc Hc Hlen).
  - exists "discuss_replacement"%string.
    exact (keyboard_round_trip "discuss_replacement" "discuss_replacement"
             12345 Hd Hd Hlen).
Defined.

End CallbackMore.

(** ** More facts about the gateway *)

Module GatewayMore.
Import Gateway GatewayFacts.

(** How a decorated request ends, from the first three attempts. *)
Lemma retrying_cases (net : nat -> transport) :
  let r := _make_get_request net in
  (exists k resp,
     (1 <= k <= 3)%nat /\ attempts r = k /\
     request_once (net k) = inr resp /\ result r = Returned resp) \/
  (exists k e,
     (1 <= k <= 3)%nat /\ attempts r = k /\
     request_once (net k) = inl e /\ is_request_exception e = false /\
     result r = Reraised e) \/
  (exists e,
     attempts r = 3%nat /\
     (forall k, (1 <= k <= 3)%nat ->
        exists e', request_once (net k) = inl e' /\
                   is_request_exception e' = true) /\
     request_once (net 3%nat) = inl e /\ result r = RetryError e).
Proof.
  assert (Hk : forall P : nat -> Prop,
            P 1%nat -> P 2%nat -> P 3%nat ->
            forall k, (1 <= k <= 3)%nat -> P k).
  { intros P P1 P2 P3 k Hk.
    destruct k as [|[|[|[|k]]]]; [lia | done | done | done | lia]. }
  unfold _make_get_request. cbn.
  attempt_cases net 1%nat.
  2: { right; left. exists 1%nat, e. by repeat split; try lia. }
  2: { left. exists 1%nat, r. by repeat split; try lia. }
  attempt_cases net 2%nat.
  2: { right; left. exists 2%nat, e0. by repeat split; try lia. }
  2: { left. exists 2%nat, r. by repeat split; try lia. }
  attempt_cases net 3%nat.
  - right; right. exists e1. repeat split; try done.
    apply Hk; eauto.
  - right; left. exists 3%nat, e1. by repeat split; try lia.
  - left. exists 3%nat, r. by repeat split; try lia.
Qed.

(** *** The catalogue *)

(** The pages that go on are loaded one after the other. *)
Lemma load_products_skip (server : Z -> fetched) (n : nat) :
  forall (j fuel : nat) (products_map : gmap string string),
    (forall i, (j <= i < j + n)%nat -> goes_on server (1 + Z.of_nat i)) ->
    load_products (n + fuel) server (1 + Z.of_nat j) products_map =
      load_products fuel server (1 + Z.of_nat (j + n))
        (foldl (fun products_map i =>
                  foldl add_product products_map
                    (products_of server (1 + Z.of_nat i)))
           products_map (seq j n)).
Proof.
  induction n as [|n IH]; intros j fuel m Hgo.
  - simpl. by rewrite Nat.add_0_r.
  - destruct (Hgo j ltac:(lia)) as (data & Hpage & Hne & Hmore).
    cbn [Nat.add load_products seq foldl]. unfold products_of at 2.
    rewrite Hpage. cbn [Z.eqb negb Pos.eqb].
    destruct (products data) as [|product rest] eqn:Hp; [done|].
    destruct (Z.leb_spec (default 1 (totalPageCount data))
                (1 + Z.of_nat j)); [lia|].
    replace (1 + Z.of_nat j + 1) with (1 + Z.of_nat (S j)) by lia.
    rewrite IH by (intros i Hi; apply Hgo; lia).
    by replace (S j + n)%nat with (j + S n)%nat by lia.
Qed.

(** An update that returned [True] has sent its [POST]. *)
Lemma update_true_posted {A : Type} (site : A -> option string)
    (decode : string -> decoded (option A))
    (success : string -> decoded bool)
    (get_net : nat -> transport) (post_net : string -> nat -> transport) :
  let u := update_order_status site decode success get_net post_net in
  updated u = Gives true -> (1 <= post_attempts u <= 3)%nat.
Proof.
  cbv zeta. unfold update_order_status.
  destruct (get_order_by_id decode get_net) as [[order|]|o];
    cbn [updated post_attempts]; try done.
  destruct (site order) as [s|]; cbn [updated post_attempts]; try done.
  case_bool_decide; cbn [updated post_attempts]; try done.
  intros _.
  destruct (retrying_cases (post_net s)) as
    [(k & ? & ? & Hk & _)|[(k & ? & ? & Hk & _)|(? & Hk & _)]];
    unfold _make_post_request, _make_get_request in *; lia.
Qed.

(** X13. When each of the three attempts raises a [RequestException], be
    it a failure of the transport or a response with a status from 400 to
    599, [get_order_by_id] does not return [None]: the [RetryError] of the
    decorator, around the exception of the third attempt, is outside
    [RequestException] and leaves the call. *)
Theorem order_lookup_gives_up {A : Type}
    (decode : string -> decoded (option A)) (net : nat -> transport) :
  (forall k, (1 <= k <= 3)%nat ->
     exists e, request_once (net k) = inl e /\
               is_request_exception e = true) ->
  exists e,
    request_once (net 3%nat) = inl e /\
    get_order_by_id decode net = Throws (RetryError e).
Proof.
  intros Hfail. unfold get_order_by_id.
  destruct (retrying_cases net) as
    [(k & resp & Hk & _ & Hresp & _)
    |[(k & e & Hk & _ & He & Hx & _)|(e & _ & _ & He & ->)]].
  - destruct (Hfail k Hk) as (e' & He' & _). congruence.
  - destruct (Hfail k Hk) as (e' & He' & Hx'). congruence.
  - by exists e.
Qed.

Lemma order_lookup_gives_up_witness :
  exists e,
    request_once (unreachable 3%nat) = inl e /\
    get_order_by_id (fun _ => @Data (option Z) None) unreachable =
      Throws (RetryError e).
Proof.
  apply (order_lookup_gives_up (fun _ => @Data (option Z) None) unreachable).
  intros k _. by exists Timeout.
Defined.

(** X14. [update_order_status] sends between one and three [GET]s and at
    most three [POST]s.  It sends a [POST] only after an attempt of the
    [GET] was answered with an order that has a site, and then to that
    site; it returns [True] only when an attempt of the [POST] was answered
    with a true ['success'].  When the three [GET]s raise a
    [RequestException], nothing is posted and the [RetryError] leaves the
    call. *)
Theorem update_order_status_posts {A : Type} (site : A -> option string)
    (decode : string -> decoded (option A))
    (success : string -> decoded bool)
    (get_net : nat -> transport) (post_net : string -> nat -> transport) :
  let u := update_order_status site decode success get_net post_net in
  (1 <= get_attempts u <= 3)%nat /\
  (post_attempts u <= 3)%nat /\
  (post_attempts u <> 0%nat ->
     exists k r order s,
       (1 <= k <= 3)%nat /\ request_once (get_net k) = inr r /\
       decode (text r) = Data (Some order) /\
       site order = Some s /\ s <> ""%string /\
       post_attempts u = attempts (_make_post_request (post_net s)) /\
       (updated u = Gives true ->
          exists j r',
            (1 <= j <= 3)%nat /\ request_once (post_net s j) = inr r' /\
            success (text r') = Data true)) /\
  (updated u = Gives true -> post_attempts u <> 0%nat) /\
  ((forall k, (1 <= k <= 3)%nat ->
      exists e, request_once (get_net k) = inl e /\
                is_request_exception e = true) ->
   post_attempts u = 0%nat /\
   exists e, updated u = Throws (RetryError e)).
Proof.
  intros u.
  assert (Hget : (1 <= attempts (_make_get_request get_net) <= 3)%nat).
  { destruct (retrying_cases get_net) as
      [(k & ? & ? & -> & _)|[(k & ? & ? & -> & _)|(? & -> & _)]]; lia. }
  assert (Hpost : forall s,
            (1 <= attempts (_make_post_request (post_net s)) <= 3)%nat).
  { intros s. destruct (retrying_cases (post_net s)) as
      [(k & ? & ? & Hk & _)|[(k & ? & ? & Hk & _)|(? & Hk & _)]];
      unfold _make_post_request, _make_get_request in *; lia. }
  assert (Hgone : (forall k, (1 <= k <= 3)%nat ->
             exists e, request_once (get_net k) = inl e /\
                       is_request_exception e = true) ->
           exists e, get_order_by_id decode get_net =
                       Throws (RetryError e)).
  { intros Hfail. unfold get_order_by_id.
    destruct (retrying_cases get_net) as
      [(k & resp & Hk & _ & Hresp & _)
      |[(k & e & Hk & _ & He & Hx & _)|(e & _ & _ & He & ->)]].
    - destruct (Hfail k Hk) as (e' & He' & _). congruence.
    - destruct (Hfail k Hk) as (e' & He' & Hx'). congruence.
    - by exists e. }
  assert (Hgives : forall order,
            get_order_by_id decode get_net = Gives (Some order) ->
            exists k r, (1 <= k <= 3)%nat /\
              request_once (get_net k) = inr r /\
              decode (text r) = Data (Some order)).
  { intros order. unfold get_order_by_id.
    destruct (retrying_cases get_net) as
      [(k & resp & Hk & _ & Hresp & ->)
      |[(k & e & Hk & _ & He & Hx & ->)|(e & _ & _ & He & ->)]].
    - destruct (decode (text resp)) as [|[o|]] eqn:Hd; try done.
      intros [= ->]. by exists k, resp.
    - by rewrite Hx.
    - done. }
  subst u. unfold update_order_status.
  destruct (get_order_by_id decode get_net) as [[order|]|o] eqn:Hcall;
    cbn [updated get_attempts post_attempts].
  2, 3: split; [lia|]; split; [lia|]; split; [done|]; split; [done|];
        intros Hfail; destruct (Hgone Hfail) as (e & He); simplify_eq;
        by eauto.
  destruct (site order) as [s|] eqn:Hsite;
    cbn [updated get_attempts post_attempts].
  2: { split; [lia|]; split; [lia|]; split; [done|]; split; [done|].
       intros Hfail; destruct (Hgone Hfail) as (e & He); done. }
  case_bool_decide as Hs; cbn [updated get_attempts post_attempts].
  { split; [lia|]; split; [lia|]; split; [done|]; split; [done|].
    intros Hfail; destruct (Hgone Hfail) as (e & He); done. }
  pose proof (Hpost s) as Hp.
  split; [lia|]. split; [lia|]. split; [|split].
  - intros _. destruct (Hgives order eq_refl) as (k & r & Hk & Hr & Hd).
    exists k, r, order, s. repeat split; try done; try lia.
    destruct (retrying_cases (post_net s)) as
      [(j & resp & Hj & _ & Hresp & Hres)
      |[(j & e & Hj & _ & He & Hx & Hres)|(e & _ & _ & He & Hres)]];
      unfold _make_post_request, _make_get_request in *; rewrite Hres.
    + destruct (success (text resp)) as [|[|]] eqn:Hok; try done.
      intros _. by exists j, resp.
    + by rewrite Hx.
    + done.
  - intros _. lia.
  - intros Hfail. destruct (Hgone Hfail) as (e & He). done.
Qed.

Lemma update_order_status_posts_witness :
  let u := update_order_status (A := string) Some
             (fun body => Data (Some body)) (fun _ => Data true)
             (answers "shop") (fun _ => answers "done") in
  (1 <= get_attempts u <= 3)%nat /\ (post_attempts u <= 3)%nat /\
  (updated u = Gives true -> post_attempts u <> 0%nat).
Proof.
  destruct (update_order_status_posts (A := string) Some
              (fun body => Data (Some body)) (fun _ => Data true)
              (answers "shop") (fun _ => answers "done"))
    as (Hget & Hpost & _ & Htrue & _).
  split; [exact Hget|]. split; [exact Hpost | exact Htrue].
Defined.

(** X22. [get_all_products] without a usable cache asks for the pages in
    order, one request each.  When the first [n] pages go on and the next
    one raises, or has a body that is not JSON, the call returns the empty
    dictionary and leaves the cache as it was: the pages that were loaded
    are dropped.  When the next one has another status than 200, or no
    products, the call returns the products of the first [n] pages and
    caches them; when it is the last page by its page count, its products
    are in the result as well.  A cache that is not empty is returned
    without a request. *)
Theorem products_loaded (server : Z -> fetched) (n fuel : nat)
    (_products_cache : option (gmap string string)) :
  (n < fuel)%nat ->
  (forall i, (i < n)%nat -> goes_on server (1 + Z.of_nat i)) ->
  _products_cache = None \/ _products_cache = Some ∅ ->
  let next := 1 + Z.of_nat n in
  let run := get_all_products fuel server _products_cache in
  (server next = FetchRaises \/ server next = Fetched 200 Malformed ->
   run = Some (∅, _products_cache)) /\
  ((exists code body, server next = Fetched code body /\ code <> 200) \/
   (exists data, server next = Fetched 200 (Data data) /\
                 products data = []) ->
   run = Some (collected server n, Some (collected server n))) /\
  (forall data,
     server next = Fetched 200 (Data data) -> products data <> [] ->
     default 1 (totalPageCount data) <= next ->
     run = Some (collected server (S n), Some (collected server (S n)))) /\
  (forall cached,
     cached <> ∅ ->
     get_all_products fuel server (Some cached) =
       Some (cached, Some cached)).
Proof.
  intros Hfuel Hgo Hcache. cbv zeta.
  assert (Hrun : get_all_products fuel server _products_cache =
            match load_products fuel server 1 ∅ with
            | None => None
            | Some None => Some (∅, _products_cache)
            | Some (Some products_map) =>
                Some (products_map, Some products_map)
            end).
  { unfold get_all_products.
    destruct Hcache as [-> | ->]; [done|]. by rewrite bool_decide_eq_true_2. }
  destruct fuel as [|fuel]; [lia|].
  replace (S fuel) with (n + S (fuel - n))%nat in Hrun |- * by lia.
  rewrite (load_products_skip server n 0 (S (fuel - n)) ∅) in Hrun
    by (intros i Hi; apply Hgo; lia).
  change (foldl _ ∅ (seq 0 n)) with (collected server n) in Hrun.
  rewrite Nat.add_0_l in Hrun. rewrite Hrun. clear Hrun.
  cbn [load_products]. split; [|split; [|split]].
  - by intros [-> | ->].
  - intros [(code & body & -> & Hcode)|(data & -> & Hnone)].
    + by destruct (Z.eqb_spec code 200).
    + cbn [Z.eqb negb Pos.eqb]. by rewrite Hnone.
  - intros data Hpage Hsome Hlast. rewrite Hpage.
    cbn [Z.eqb negb Pos.eqb].
    destruct (products data) as [|product rest] eqn:Hp; [done|].
    destruct (Z.leb_spec (default 1 (totalPageCount data))
                (1 + Z.of_nat n)); [|lia].
    unfold collected. rewrite seq_S, foldl_app. cbn [foldl Nat.add].
    assert (Hof : products_of server (1 + Z.of_nat n) = product :: rest).
    { unfold products_of. by rewrite Hpage. }
    by rewrite Hof.
  - intros cached Hcached. unfold get_all_products.
    by rewrite bool_decide_eq_false_2.
Qed.

Lemma products_loaded_witness :
  get_all_products 5 two_pages None =
    Some (collected two_pages 2, Some (collected two_pages 2)).
Proof.
  destruct (products_loaded two_pages 2 5 None) as (_ & Hpartial & _).
  - lia.
  - intros [|[|i]] Hi; [| |lia].
    + eexists. split; [reflexivity|]. by split.
    + eexists. split; [reflexivity|]. by split.
  - by left.
  - apply Hpartial. left. by exists 503, Malformed.
Defined.

End GatewayMore.

(** ** More facts about the monitor *)

Module MonitorMore.
Import Ledger Monitor MonitorFacts.

Lemma calls_app (t1 t2 : list event) :
  calls (t1 ++ t2) = calls t1 ++ calls t2.
Proof. unfold calls. apply omap_app. Qed.

Lemma notify_admin_calls (env : Env) (about : Z) (message : string)
    (image_urls : list string) (last : bool) (admin : string * string)
    (w : World) :
  exists seg,
    trace (notify_admin env about message image_urls last admin w) =
      trace w ++ seg /\
    (1 <= length (calls seg) <= 4)%nat /\
    ncalls (notify_admin env about message image_urls last admin w) =
      (ncalls w + length (calls seg))%nat /\
    Forall (call_of about message [admin.2]) seg.
Proof.
  assert (Hin : admin.2 ∈ [admin.2]) by apply list_elem_of_here.
  unfold notify_admin, send_with_images, api, sleep.
  destruct image_urls as [|u [|u' urls]]; cbn;
    bot_cases env; destruct last; cbn; rewrite <- ?app_assoc; cbn;
    (eexists; split; [reflexivity|]; cbn; split; [lia|]; split; [lia|];
     repeat first [apply Forall_nil_2 | apply Forall_cons_2]; cbn; auto).
Qed.

Lemma call_of_mono (about : Z) (message : string) (chats chats' : list string)
    (seg : list event) :
  chats ⊆ chats' ->
  Forall (call_of about message chats) seg ->
  Forall (call_of about message chats') seg.
Proof.
  intros Hsub Hseg. eapply Forall_impl; [exact Hseg|].
  intros [c r|ms]; simpl; [|done].
  intros (Hc & Ha & Ht). split; [by apply Hsub | done].
Qed.

Lemma notify_admins_calls (env : Env) (about : Z) (message : string)
    (image_urls : list string) (admins : list (string * string)) :
  forall w,
  exists seg,
    trace (notify_admins env about message image_urls admins w) =
      trace w ++ seg /\
    (length admins <= length (calls seg) <= 4 * length admins)%nat /\
    ncalls (notify_admins env about message image_urls admins w) =
      (ncalls w + length (calls seg))%nat /\
    Forall (call_of about message (admins.*2)) seg.
Proof.
  induction admins as [|admin rest IH]; intros w; cbn [notify_admins].
  - exists []. rewrite app_nil_r. simpl. repeat split; try lia.
    apply Forall_nil_2.
  - destruct (notify_admin_calls env about message image_urls
                (bool_decide (rest = [])) admin w)
      as (seg & Htr & Hlen & Hn & Hseg).
    destruct (IH (notify_admin env about message image_urls
                    (bool_decide (rest = [])) admin w))
      as (seg' & Htr' & Hlen' & Hn' & Hseg').
    exists (seg ++ seg'). rewrite Htr', Htr, Hn', Hn, calls_app.
    rewrite length_app, <- app_assoc. cbn [length].
    split; [done|]. split; [lia|]. split; [lia|].
    apply Forall_app. split.
    + eapply call_of_mono; [|exact Hseg]. set_solver.
    + eapply call_of_mono; [|exact Hseg']. set_solver.
Qed.

Lemma calls_elem (c : Call) (seg : list event) :
  c ∈ calls seg <-> exists r, Called c r ∈ seg.
Proof.
  unfold calls. rewrite list_elem_of_omap. split.
  - intros ([c' r|ms] & Hin & Heq); [|done].
    injection Heq as ->. by exists r.
  - intros (r & Hin). by exists (Called c r).
Qed.



Lemma notify_admin_delivered (env : Env) (about : Z) (message : string)
    (image_urls : list string) (last : bool) (admin : string * string)
    (w : World) :
  obliging env ->
  let w1 := notify_admin env about message image_urls last admin w in
  calls (trace w1) =
    calls (trace w) ++ notification about admin.2 message image_urls /\
  clock w1 = clock w + (if last then 0 else 500) /\
  db w1 = db w.
Proof.
  intros Hok. cbv zeta.
  unfold notify_admin, send_with_images, api, sleep, notification.
  destruct image_urls as [|u [|u' urls]]; cbn; rewrite ?Hok; cbn;
    destruct last; cbn; rewrite ?calls_app, <- ?app_assoc; cbn;
    (split; [by rewrite ?app_nil_r | split; [lia | done]]).
Qed.

(** X16. When the API accepts every call, the loop over the recipients
    brings each of them the notification once, in the order of the list:
    the text, the photo, or the album with the prompt, and nothing else.
    It pauses half a second after each recipient but the last. *)
Theorem all_delivered (env : Env) (about : Z) (message : string)
    (image_urls : list string) (admins : list (string * string)) (w : World) :
  obliging env ->
  let w1 := notify_admins env about message image_urls admins w in
  calls (trace w1) =
    calls (trace w) ++
    flat_map (fun admin => notification about admin.2 message image_urls)
      admins /\
  clock w1 = clock w + 500 * Z.of_nat (length admins - 1) /\
  db w1 = db w.
Proof.
  intros Hok. cbv zeta. revert w.
  induction admins as [|admin rest IH]; intros w; cbn [notify_admins].
  - simpl. rewrite app_nil_r. split; [done|]. split; [lia | done].
  - destruct (notify_admin_delivered env about message image_urls
                (bool_decide (rest = [])) admin w Hok) as (Hc & Ht & Hd).
    destruct (IH (notify_admin env about message image_urls
                    (bool_decide (rest = [])) admin w)) as (Hc' & Ht' & Hd').
    rewrite Hc', Hc, Ht', Ht, Hd', Hd. cbn [flat_map].
    rewrite <- app_assoc. split; [done|]. split; [|done].
    case_bool_decide as Hrest.
    + subst rest. simpl. lia.
    + destruct rest as [|admin' rest']; [done|]. cbn [length]. lia.
Qed.

Lemma all_delivered_witness :
  clock (notify_admins one_status_shop 7 "ЗАКАЗ" []
           (get_admins_for_warehouse one_status_shop "20") fresh_world) =
    clock fresh_world + 500 * 2.
Proof.
  destruct (all_delivered one_status_shop 7 "ЗАКАЗ" []
              (get_admins_for_warehouse one_status_shop "20") fresh_world)
    as (_ & Hclock & _); [by intros n|].
  exact Hclock.
Defined.

End MonitorMore.

(** ** Facts about the handlers of the buttons *)

Module HandlerFacts.
Import Handler.
Local Open Scope handler_scope.

Lemma telegram_only_call (env : Env) (c : tg_call) :
  telegram_only env (call_telegram env c).
Proof.
  intros s. unfold call_telegram. simpl. repeat split.
  destruct (telegram env (length (sent s))) eqn:Hr; [|done].
  intros _. by eexists.
Qed.

Lemma telegram_only_send (env : Env) (callback : CallbackQuery)
    (text : string) :
  telegram_only env (safe_send_message env callback text).
Proof.
  unfold safe_send_message.
  destruct (message callback); apply telegram_only_call.
Qed.

Lemma telegram_only_ret (env : Env) {A : Type} (a : A) :
  telegram_only env (ret a).
Proof. intros s. by repeat split. Qed.

Lemma telegram_only_edit (env : Env) (callback : CallbackQuery)
    (markup : option (list (string * string))) :
  telegram_only env (safe_edit_markup env callback markup).
Proof.
  unfold safe_edit_markup.
  destruct (message callback);
    [apply telegram_only_call | apply telegram_only_ret].
Qed.

Lemma telegram_only_bind (env : Env) {A B : Type} (m : M A) (f : A -> M B) :
  telegram_only env m -> (forall a, telegram_only env (f a)) ->
  telegram_only env (bind m f).
Proof.
  intros Hm Hf s. unfold bind.
  destruct (Hm s) as (Hd & Ha & Hc & Hr).
  destruct (m s) as [[a|] s1]; simpl in *.
  - destruct (Hf a s1) as (Hd' & Ha' & Hc' & Hr').
    split; [congruence|]. split; [congruence|]. split; [congruence|].
    exact Hr'.
  - split; [done|]. split; [done|]. split; [done|]. intros _. by apply Hr.
Qed.

(** The check of the limit talks to Redis and to Telegram only, and its
    answer is the verdict of the limiter. *)
Lemma check_rate_limit_for_user_spec (env : Env) (callback : CallbackQuery)
    (action : string) (limit window : Z) (s : State) :
  let r := check_rate_limit_for_user env callback action limit window s in
  db r.2 = db s /\ audit r.2 = audit s /\ crm r.2 = crm s /\
  (r.1 = None -> exists n, telegram env n = true) /\
  (forall limited, r.1 = Some limited ->
     limited = over_limit env callback action limit window s) /\
  (over_limit env callback action limit window s = false ->
   r.1 = Some false /\ sent r.2 = sent s).
Proof.
  cbv zeta. unfold check_rate_limit_for_user, over_limit.
  destruct (RateLimit.check_rate_limit _ _ _ _ _ _ _ _)
    as [[is_limited remaining] srv].
  destruct is_limited; simpl; [|by repeat split; try (intros ? [= <-])].
  unfold bind, call_telegram, ret. simpl.
  destruct (telegram env (length (sent s))) eqn:Hr; simpl.
  - repeat split; try done. intros _. by eexists.
  - repeat split; try done. by intros ? [= <-].
Qed.

Lemma discuss_tail (env : Env) (callback : CallbackQuery) (text : string) :
  telegram_only env
    (safe_edit_markup env callback None ;;
     call_telegram env
       (answer "✅ Статус изменён на 'Обсуждение замен'" true) ;;
     safe_send_message env callback text).
Proof.
  apply telegram_only_bind; [apply telegram_only_edit|]. intros _.
  apply telegram_only_bind; [apply telegram_only_call|]. intros _.
  apply telegram_only_send.
Qed.

Lemma bind_Some {A B : Type} (m : M A) (f : A -> M B) (s s1 : State)
    (a : A) :
  m s = (Some a, s1) -> bind m f s = f a s1.
Proof. unfold bind. by intros ->. Qed.

Lemma bind_None {A B : Type} (m : M A) (f : A -> M B) (s s1 : State) :
  m s = (None, s1) -> bind m f s = (None, s1).
Proof. unfold bind. by intros ->. Qed.

Lemma call_telegram_inv (env : Env) (c : tg_call) (s s1 : State)
    (r : option ()) :
  call_telegram env c s = (r, s1) ->
  db s1 = db s /\ audit s1 = audit s /\ crm s1 = crm s /\
  redis s1 = redis s /\
  r = (if telegram env (length (sent s)) then None else Some ()).
Proof. unfold call_telegram. by intros [= <- <-]. Qed.

Lemma get_order_by_id_inv (env : Env) (order_id : Z) (s s1 : State)
    (r : option (option CrmOrder)) :
  get_order_by_id env order_id s = (r, s1) ->
  db s1 = db s /\ audit s1 = audit s /\ sent s1 = sent s /\
  (exists g, crm s1 = crm s ++ [Lookup order_id g]) /\
  (forall order, r = Some order <->
     Gateway.get_order_by_id (decode env) (crm_get env (length (crm s))) =
       Gateway.Gives order).
Proof.
  unfold get_order_by_id.
  destruct (Gateway.get_order_by_id _ _) as [order|o]; intros [= <- <-];
    simpl; (repeat split; try done; try (by eexists); try congruence).
Qed.

Lemma update_order_status_inv (env : Env) (order_id : Z)
    (new_status : string) (s s1 : State) (r : option bool) :
  update_order_status env order_id new_status s = (r, s1) ->
  db s1 = db s /\ audit s1 = audit s /\ sent s1 = sent s /\
  (exists g p, crm s1 = crm s ++ [Update order_id new_status g p] /\
               (r = Some true -> (1 <= p <= 3)%nat)) /\
  (forall ok, r = Some ok <->
     Gateway.updated
       (Gateway.update_order_status crm_site (decode env) (success env)
          (crm_get env (length (crm s))) (crm_post env new_status)) =
       Gateway.Gives ok).
Proof.
  unfold update_order_status.
  pose proof (GatewayMore.update_true_posted crm_site (decode env)
                (success env) (crm_get env (length (crm s)))
                (crm_post env new_status)) as Hposted.
  cbv zeta in Hposted.
  destruct (Gateway.updated _) as [ok|o]; intros [= <- <-]; simpl.
  - split; [done|]. split; [done|]. split; [done|]. split.
    + eexists _, _. split; [done|]. intros [= ->]. by apply Hposted.
    + intros ok'. split; congruence.
  - split; [done|]. split; [done|]. split; [done|]. split.
    + eexists _, _. split; [done|]. done.
    + intros ok'. split; congruence.
Qed.

(** What the [try] block of the handler leaves behind. *)
Lemma discuss_replacement_spec (env : Env) (callback : CallbackQuery)
    (order_id : Z) (s : State) :
  let r := discuss_replacement env callback order_id s in
  let now := CURRENT_TIMESTAMP env in
  (db r.2 = db s /\ audit r.2 = audit s /\
   exists calls, crm r.2 = crm s ++ calls /\ (length calls <= 2)%nat) \/
  exists g1 g p note,
    (1 <= p <= 3)%nat /\
    crm r.2 =
      crm s ++ [Lookup order_id g1;
                Update order_id (STATUS_DISCUSSION env) g p] /\
    db r.2 = (Ledger.mark_order_in_no_product now order_id (db s)).2 /\
    audit r.2 =
      Ledger.log_order_action now (today env) order_id
        (from_user_id callback) "discuss_replacement" (Some note) (audit s).
Proof.
  cbv zeta. unfold discuss_replacement.
  destruct (call_telegram env
              (answer "⏳ Переводим в статус 'Обсуждение замен'..." false) s)
    as [[[]|] s1] eqn:H1;
    destruct (call_telegram_inv _ _ _ _ _ H1) as (Hd1 & Ha1 & Hc1 & _).
  2: { rewrite (bind_None _ _ _ _ H1). simpl. left.
       split; [done|]. split; [done|]. exists [].
       split; [by rewrite app_nil_r | simpl; lia]. }
  rewrite (bind_Some _ _ _ _ _ H1).
  destruct (get_order_by_id env order_id s1) as [[[order|]|] s2] eqn:H2;
    destruct (get_order_by_id_inv _ _ _ _ _ H2)
      as (Hd2 & Ha2 & _ & (g1 & Hc2) & _).
  2: { rewrite (bind_Some _ _ _ _ _ H2). left.
       match goal with
       | |- context [safe_send_message env callback ?t s2] =>
           destruct (telegram_only_send env callback t s2)
             as (-> & -> & -> & _)
       end.
       split; [congruence|]. split; [congruence|].
       exists [Lookup order_id g1]. rewrite Hc2, Hc1. split; [done|].
       simpl. lia. }
  2: { rewrite (bind_None _ _ _ _ H2). simpl. left.
       split; [congruence|]. split; [congruence|].
       exists [Lookup order_id g1]. rewrite Hc2, Hc1. split; [done|].
       simpl. lia. }
  rewrite (bind_Some _ _ _ _ _ H2).
  destruct (update_order_status env order_id (STATUS_DISCUSSION env) s2)
    as [[[|]|] s3] eqn:H3;
    destruct (update_order_status_inv _ _ _ _ _ _ H3)
      as (Hd3 & Ha3 & _ & (g & p & Hc3 & Hp) & _).
  2: { rewrite (bind_Some _ _ _ _ _ H3). left.
       match goal with
       | |- context [safe_send_message env callback ?t s3] =>
           destruct (telegram_only_send env callback t s3)
             as (-> & -> & -> & _)
       end.
       split; [congruence|]. split; [congruence|].
       exists [Lookup order_id g1; Update order_id (STATUS_DISCUSSION env) g p].
       rewrite Hc3, Hc2, Hc1, <- app_assoc. split; [done|]. simpl. lia. }
  2: { rewrite (bind_None _ _ _ _ H3). simpl. left.
       split; [congruence|]. split; [congruence|].
       exists [Lookup order_id g1; Update order_id (STATUS_DISCUSSION env) g p].
       rewrite Hc3, Hc2, Hc1, <- app_assoc. split; [done|]. simpl. lia. }
  rewrite (bind_Some _ _ _ _ _ H3). right.
  erewrite bind_Some by reflexivity.
  erewrite bind_Some by reflexivity.
  match goal with
  | |- context [bind ?a ?b ?s0] =>
      destruct (discuss_tail env callback
                  ("🔄 Заказ #" ++ order_number order order_id ++
                   " требует обсуждения замен" ++ nl ++ nl ++
                   "📋 Статус изменён: Обсуждение замен") s0)
        as (-> & -> & -> & _)
  end.
  cbn [db audit crm sent redis]. exists g1, g, p. eexists.
  split; [by apply Hp|].
  split; [by rewrite Hc3, Hc2, Hc1, <- app_assoc|].
  rewrite Hd3, Hd2, Hd1, Ha3, Ha2, Ha1. done.
Qed.





Lemma confirm_tail (env : Env) (callback : CallbackQuery)
    (markup : option (list (string * string))) (note text : string) :
  telegram_only env
    (safe_edit_markup env callback markup ;;
     call_telegram env (answer note true) ;;
     safe_send_message env callback text).
Proof.
  apply telegram_only_bind; [apply telegram_only_edit|]. intros _.
  apply telegram_only_bind; [apply telegram_only_call|]. intros _.
  apply telegram_only_send.
Qed.

(** What the [try] block of [handle_confirm_order] leaves behind. *)
Lemma confirm_order_spec (env : Env) (callback : CallbackQuery)
    (order_id : Z) (s : State) :
  let r := confirm_order env callback order_id s in
  let new_status :=
    confirmed_status env (Ledger.get_order_delivery_type (db s) order_id) in
  db r.2 = db s /\
  ((audit r.2 = audit s /\
    exists calls,
      crm r.2 = crm s ++ calls /\ (length calls <= 2)%nat /\
      forall k st g p, Update k st g p ∈ calls -> st = new_status) \/
   exists g1 g p note,
     (1 <= p <= 3)%nat /\
     crm r.2 = crm s ++ [Lookup order_id g1; Update order_id new_status g p]
     /\
     audit r.2 =
       Ledger.log_order_action (CURRENT_TIMESTAMP env) (today env) order_id
         (from_user_id callback) "confirmed" (Some note) (audit s)).
Proof.
  cbv zeta. unfold confirm_order.
  destruct (call_telegram env (answer "⏳ Обновляю статус заказа..." false) s)
    as [[[]|] s1] eqn:H1;
    destruct (call_telegram_inv _ _ _ _ _ H1) as (Hd1 & Ha1 & Hc1 & _).
  2: { rewrite (bind_None _ _ _ _ H1). simpl. split; [done|]. left.
       split; [done|]. exists []. rewrite app_nil_r.
       split; [done|]. split; [simpl; lia|].
       intros k st g p Hin. by apply elem_of_nil in Hin. }
  rewrite (bind_Some _ _ _ _ _ H1).
  destruct (get_order_by_id env order_id s1) as [[[order|]|] s2] eqn:H2;
    destruct (get_order_by_id_inv _ _ _ _ _ H2)
      as (Hd2 & Ha2 & _ & (g1 & Hc2) & _).
  2: { rewrite (bind_Some _ _ _ _ _ H2).
       match goal with
       | |- context [safe_send_message env callback ?t s2] =>
           destruct (telegram_only_send env callback t s2)
             as (-> & -> & -> & _)
       end.
       split; [congruence|]. left. split; [congruence|].
       exists [Lookup order_id g1]. rewrite Hc2, Hc1.
       split; [done|]. split; [simpl; lia|].
       intros k st g p Hin. apply list_elem_of_singleton in Hin. done. }
  2: { rewrite (bind_None _ _ _ _ H2). simpl.
       split; [congruence|]. left. split; [congruence|].
       exists [Lookup order_id g1]. rewrite Hc2, Hc1.
       split; [done|]. split; [simpl; lia|].
       intros k st g p Hin. apply list_elem_of_singleton in Hin. done. }
  rewrite (bind_Some _ _ _ _ _ H2). cbv beta zeta.
  rewrite Hd2, Hd1.
  set (new_status :=
         confirmed_status env
           (Ledger.get_order_delivery_type (db s) order_id)).
  assert (Hcalls : forall g p k st g' p',
            Update k st g' p' ∈
              [Lookup order_id g1; Update order_id new_status g p] ->
            st = new_status).
  { intros g p k st g' p' Hin.
    apply elem_of_cons in Hin as [Hin|Hin]; [done|].
    apply list_elem_of_singleton in Hin. congruence. }
  destruct (update_order_status env order_id new_status s2)
    as [[[|]|] s3] eqn:H3;
    destruct (update_order_status_inv _ _ _ _ _ _ H3)
      as (Hd3 & Ha3 & _ & (g & p & Hc3 & Hp) & _).
  2: { rewrite (bind_Some _ _ _ _ _ H3).
       match goal with
       | |- context [safe_send_message env callback ?t s3] =>
           destruct (telegram_only_send env callback t s3)
             as (-> & -> & -> & _)
       end.
       split; [congruence|]. left. split; [congruence|].
       exists [Lookup order_id g1; Update order_id new_status g p].
       rewrite Hc3, Hc2, Hc1, <- app_assoc.
       split; [done|]. split; [simpl; lia | apply Hcalls]. }
  2: { rewrite (bind_None _ _ _ _ H3). simpl.
       split; [congruence|]. left. split; [congruence|].
       exists [Lookup order_id g1; Update order_id new_status g p].
       rewrite Hc3, Hc2, Hc1, <- app_assoc.
       split; [done|]. split; [simpl; lia | apply Hcalls]. }
  rewrite (bind_Some _ _ _ _ _ H3).
  erewrite bind_Some by reflexivity.
  assert (Htail : forall (m : M ()) s0,
            telegram_only env m ->
            db (m s0).2 = db s0 /\ audit (m s0).2 = audit s0 /\
            crm (m s0).2 = crm s0).
  { intros m s0 Hm. destruct (Hm s0) as (? & ? & ? & _). done. }
  case_bool_decide;
    match goal with
    | |- context [bind ?a ?b ?s0] =>
        destruct (Htail (bind a b) s0) as (-> & -> & ->);
          [apply confirm_tail|]
    end;
    cbn [db audit crm sent redis];
    (split; [congruence|]; right; exists g1, g, p; eexists;
     split; [by apply Hp|];
     split; [by rewrite Hc3, Hc2, Hc1, <- app_assoc|];
     by rewrite Ha3, Ha2, Ha1).
Qed.



End HandlerFacts.

(** ** Facts about the configuration of the recipients *)

Module SettingsFacts.
Import Callback CallbackFacts Settings.

Lemma split_parts_no_sep (sep : ascii) (s : list ascii) :
  Forall (fun part => sep ∉ part) (split sep s).
Proof.
  induction s as [|c rest IH]; simpl.
  - constructor; [apply not_elem_of_nil | constructor].
  - destruct (Ascii.eqb c sep) eqn:Hc.
    + constructor; [apply not_elem_of_nil | done].
    + apply Ascii.eqb_neq in Hc.
      destruct (split sep rest) as [|part parts]; simpl.
      * constructor; [|constructor]. set_solver.
      * apply Forall_cons in IH as [Hpart Hparts].
        constructor; [|done]. set_solver.
Qed.

Lemma split_keeps_others (sep x : ascii) (s : list ascii) :
  x ∉ s -> Forall (fun part => x ∉ part) (split sep s).
Proof.
  induction s as [|c rest IH]; simpl; intros Hx.
  - constructor; [done | constructor].
  - apply not_elem_of_cons in Hx as [Hne Hx]. specialize (IH Hx).
    destruct (Ascii.eqb c sep).
    + constructor; [apply not_elem_of_nil | done].
    + destruct (split sep rest) as [|part parts]; simpl.
      * constructor; [|constructor]. set_solver.
      * apply Forall_cons in IH as [Hpart Hparts].
        constructor; [|done]. set_solver.
Qed.

Lemma strip_keeps_out (space : ascii -> bool) (x : ascii) (s : list ascii) :
  x ∉ s -> x ∉ strip space s.
Proof.
  destruct (strip_decomp space s) as (l & r & Hs & _).
  intros Hx Hin. apply Hx. rewrite Hs. set_solver.
Qed.

Lemma chars_of_string (s : list ascii) :
  list_ascii_of_string (string_of_list_ascii s) = s.
Proof. apply list_ascii_of_string_of_list_ascii. Qed.

Lemma numeric_id_like (s : list ascii) : numeric s = true -> id_like s.
Proof.
  unfold numeric, isdigit. intros Hd.
  destruct (lstrip_decomp (fun c => Ascii.eqb c minus) s) as (l & Hs & Hl).
  exists (length l), (lstrip (fun c => Ascii.eqb c minus) s).
  split; [|split].
  - rewrite Hs at 1. f_equal. clear Hs.
    induction Hl as [|c l Hc _ IH]; simpl; [done|].
    apply Ascii.eqb_eq in Hc as ->. by rewrite <- IH.
  - by destruct (lstrip _ s).
  - destruct (lstrip _ s) as [|c t]; [done|].
    apply Forall_forall. intros x Hx.
    rewrite forallb_forall in Hd. apply Hd. by apply list_elem_of_In.
Qed.

Lemma strip_part (s : list ascii) :
  strip isspace s <> [] -> (colon ∉ s) -> (comma ∉ s) ->
  part (strip isspace s).
Proof.
  intros Hne Hcolon Hcomma. split; [done|]. split; [apply strip_trimmed|].
  split; by apply strip_keeps_out.
Qed.

Lemma check_parts_valid (pair_str user_id warehouse_code chat_id : list ascii)
    (admin : string * Monitor.AdminEntry) :
  (colon ∉ user_id) -> (colon ∉ warehouse_code) -> (colon ∉ chat_id) ->
  (comma ∉ user_id) -> (comma ∉ warehouse_code) -> (comma ∉ chat_id) ->
  check_parts pair_str user_id warehouse_code chat_id = inr admin ->
  valid_entry admin.
Proof.
  intros Hu Hw Hc Hu' Hw' Hc'. unfold check_parts.
  pose proof (strip_part user_id) as Pu.
  pose proof (strip_part warehouse_code) as Pw.
  pose proof (strip_part chat_id) as Pc.
  destruct (strip isspace user_id) as [|u1 u] eqn:Eu; [done|].
  destruct (strip isspace warehouse_code) as [|w1 w] eqn:Ew; [done|].
  destruct (strip isspace chat_id) as [|c1 c] eqn:Ec; [done|].
  destruct (numeric (u1 :: u)) eqn:Nu; [|done].
  destruct (numeric (c1 :: c)) eqn:Nc; [|done].
  intros [= <-]. unfold valid_entry.
  cbn [fst snd Monitor.warehouse Monitor.chat_id list_ascii_of_string].
  rewrite !chars_of_string.
  split; [by apply Pu|]. split; [by apply Pw|]. split; [by apply Pc|].
  split; by apply numeric_id_like.
Qed.

Lemma read_pair_valid (pair_str : list ascii)
    (admin : string * Monitor.AdminEntry) :
  (comma ∉ pair_str) -> read_pair pair_str = inr admin -> valid_entry admin.
Proof.
  intros Hcomma. unfold read_pair.
  pose proof (split_parts_no_sep colon pair_str) as Hcolon.
  pose proof (split_keeps_others colon comma pair_str Hcomma) as Hcom.
  destruct (split colon pair_str) as [|a [|b [|c [|d rest]]]]; try done.
  - apply Forall_cons in Hcolon as [Ha Hcolon].
    apply Forall_cons in Hcolon as [Hb _].
    apply Forall_cons in Hcom as [Ha' Hcom].
    apply Forall_cons in Hcom as [Hb' _].
    by apply check_parts_valid.
  - apply Forall_cons in Hcolon as [Ha Hcolon].
    apply Forall_cons in Hcolon as [Hb Hcolon].
    apply Forall_cons in Hcolon as [Hc _].
    apply Forall_cons in Hcom as [Ha' Hcom].
    apply Forall_cons in Hcom as [Hb' Hcom].
    apply Forall_cons in Hcom as [Hc' _].
    by apply check_parts_valid.
Qed.

Lemma dict_set_keys {V : Type} (d : list (string * V)) (key : string)
    (value : V) :
  (key ∈ d.*1 -> (dict_set d key value).*1 = d.*1) /\
  (key ∉ d.*1 -> dict_set d key value = d ++ [(key, value)]).
Proof.
  induction d as [|[k v] rest [IHin IHout]]; simpl.
  - split; [by intros ?%elem_of_nil | done].
  - case_bool_decide as Hk; simpl.
    + subst k. split; [done|]. intros Hout. exfalso. apply Hout. set_solver.
    + split.
      * intros Hin. f_equal. apply IHin. set_solver.
      * intros Hout. f_equal. apply IHout. set_solver.
Qed.

Lemma dict_set_elem {V : Type} (d : list (string * V)) (key : string)
    (value : V) (x : string * V) :
  x ∈ dict_set d key value -> x = (key, value) \/ x ∈ d.
Proof.
  induction d as [|[k v] rest IH]; simpl.
  - intros ->%list_elem_of_singleton. by left.
  - case_bool_decide as Hk.
    + intros [->|Hin]%elem_of_cons; [by left | right; set_solver].
    + intros [->|Hin]%elem_of_cons; [right; set_solver|].
      destruct (IH Hin) as [->|Hin']; [by left | right; set_solver].
Qed.

Lemma dict_set_NoDup {V : Type} (d : list (string * V)) (key : string)
    (value : V) :
  NoDup d.*1 -> NoDup (dict_set d key value).*1.
Proof.
  intros Hnd. destruct (decide (key ∈ d.*1)) as [Hin|Hout].
  - by rewrite (proj1 (dict_set_keys d key value) Hin).
  - rewrite (proj2 (dict_set_keys d key value) Hout), fmap_app. simpl.
    apply NoDup_app. split; [done|]. split; [|apply NoDup_singleton].
    intros x Hx ->%list_elem_of_singleton. done.
Qed.

Lemma dict_set_nonempty {V : Type} (d : list (string * V)) (key : string)
    (value : V) :
  dict_set d key value <> [].
Proof. destruct d as [|[k v] rest]; simpl; [done|]. by case_bool_decide. Qed.

Lemma read_pairs_valid (pairs : list (list ascii)) :
  forall admin_config result,
    Forall (fun pair_str => comma ∉ pair_str) pairs ->
    NoDup admin_config.*1 -> Forall valid_entry admin_config ->
    read_pairs pairs admin_config = inr result ->
    NoDup result.*1 /\ Forall valid_entry result /\
    (pairs <> [] -> result <> []).
Proof.
  induction pairs as [|pair_str rest IH]; intros d result Hc Hnd Hv; simpl.
  - intros [= <-]. done.
  - apply Forall_cons in Hc as [Hp Hc].
    destruct (read_pair pair_str) as [e|[user_id entry]] eqn:Hread; [done|].
    intros Hrest.
    apply read_pair_valid in Hread; [|done].
    destruct (IH (dict_set d user_id entry) result Hc) as (Hnd' & Hv' & Hne);
      [by apply dict_set_NoDup| |done|].
    + apply Forall_forall. intros x Hx.
      apply dict_set_elem in Hx as [->|Hx]; [done|].
      rewrite Forall_forall in Hv. by apply Hv.
    + split; [done|]. split; [done|]. intros _.
      destruct rest as [|next rest]; [|by apply Hne].
      simpl in Hrest. injection Hrest as <-. apply dict_set_nonempty.
Qed.

(** X20. A configuration that [get_admin_full_config] returns is not
    empty and has each user once.  In each entry the user, the warehouse
    and the chat are not empty, are stripped of white space and hold
    neither a comma nor a colon, and the user and the chat are minus signs
    followed by at least one digit and by digits only. *)
Theorem admin_config_valid (ADMIN_WAREHOUSES : option string)
    (admin_config : list (string * Monitor.AdminEntry)) :
  get_admin_full_config ADMIN_WAREHOUSES = inr admin_config ->
  admin_config <> [] /\ NoDup admin_config.*1 /\
  Forall valid_entry admin_config.
Proof.
  unfold get_admin_full_config.
  destruct ADMIN_WAREHOUSES as [value|]; [|done].
  destruct (list_ascii_of_string value) as [|c0 s0]; [done|].
  destruct (strip isspace (c0 :: s0)) as [|c1 s1]; [done|].
  set (pairs := filter _ _).
  assert (Hpairs : Forall (fun pair_str => comma ∉ pair_str) pairs).
  { apply Forall_forall. intros x Hx. subst pairs.
    apply list_elem_of_filter in Hx as [_ Hx].
    apply list_elem_of_fmap in Hx as (y & -> & Hy).
    apply strip_keeps_out.
    pose proof (split_parts_no_sep comma (c1 :: s1)) as Hall.
    rewrite Forall_forall in Hall. by apply Hall. }
  destruct pairs as [|pair_str rest] eqn:Hp; [done|].
  destruct (read_pairs (pair_str :: rest) []) as [e|result] eqn:Hread;
    [done|].
  destruct (read_pairs_valid (pair_str :: rest) [] result Hpairs)
    as (Hnd & Hv & Hne); [constructor | constructor | done |].
  destruct result as [|admin result]; [done|].
  by intros [= <-].
Qed.

Lemma admin_config_valid_witness :
  get_admin_full_config
    (Some "436816068:20:-4839842748, 6787250467:25"%string) =
    inr [("436816068"%string,
          {| Monitor.warehouse := "20"; Monitor.chat_id := "-4839842748" |});
         ("6787250467"%string,
          {| Monitor.warehouse := "25"; Monitor.chat_id := "6787250467" |})]
  /\
  Forall valid_entry
    [("436816068"%string,
      {| Monitor.warehouse := "20"; Monitor.chat_id := "-4839842748" |});
     ("6787250467"%string,
      {| Monitor.warehouse := "25"; Monitor.chat_id := "6787250467" |})].
Proof.
  split; [reflexivity|].
  apply (admin_config_valid
           (Some "436816068:20:-4839842748, 6787250467:25"%string)).
  reflexivity.
Defined.

(** *** Reading back what was written *)

Lemma split_join (sep : ascii) (l : list (list ascii)) :
  l <> [] -> Forall (fun s => sep ∉ s) l -> split sep (join sep l) = l.
Proof.
  induction l as [|s [|s' rest] IH]; intros Hne Hall; [done| |].
  - apply Forall_cons in Hall as [Hs _]. simpl. by apply split_no_sep.
  - apply Forall_cons in Hall as [Hs Hall].
    change (join sep (s :: s' :: rest))
      with (s ++ sep :: join sep (s' :: rest)).
    rewrite split_at_first by done. f_equal. by apply IH.
Qed.

Lemma trimmed_app (space : ascii -> bool) (a m b : list ascii) :
  a <> [] -> b <> [] -> trimmed space a -> trimmed space b ->
  trimmed space (a ++ m ++ b).
Proof.
  intros Ha Hb [->|[(c & t & -> & Hc) _]] [->|[_ (t' & c' & -> & Hc')]];
    try done.
  right. split.
  - exists c, (t ++ m ++ t' ++ [c']). by split.
  - exists (c :: t ++ m ++ t'), c'. split; [|done].
    simpl. by rewrite <- !app_assoc.
Qed.

Lemma strip_id (space : ascii -> bool) (m : list ascii) :
  trimmed space m -> strip space m = m.
Proof.
  intros Hm. rewrite <- (strip_exact space [] m []) at 2; try done.
  by rewrite app_nil_r.
Qed.

Lemma join_piece (l : list (list ascii)) :
  l <> [] ->
  Forall (fun s => s <> [] /\ trimmed isspace s) l ->
  join comma l <> [] /\ trimmed isspace (join comma l).
Proof.
  induction l as [|s [|s' rest] IH]; intros Hne Hall; [done| |].
  - by apply Forall_cons in Hall as [Hs _].
  - apply Forall_cons in Hall as [[Hs Ht] Hall].
    change (join comma (s :: s' :: rest))
      with (s ++ [comma] ++ join comma (s' :: rest)).
    destruct (IH ltac:(done) Hall) as (Hj & Htj).
    split; [by destruct s | by apply trimmed_app].
Qed.

Lemma written_piece (p : Pair) :
  well_written p ->
  written p <> [] /\ trimmed isspace (written p) /\ (comma ∉ written p).
Proof.
  intros ((Hu & Htu & _ & Hcu) & (Hw & Htw & _ & Hcw) & _ & Hchat).
  assert (Hcc : comma <> colon) by done.
  unfold written. destruct (p_chat_id p) as [chat|].
  - destruct Hchat as ((Hc & Htc & _ & Hcc') & _).
    split; [by destruct (p_user_id p)|]. split.
    + replace (p_user_id p ++ colon :: p_warehouse_code p ++ colon :: chat)
        with (p_user_id p ++ (colon :: p_warehouse_code p ++ [colon]) ++ chat)
        by (simpl; by rewrite <- app_assoc).
      by apply trimmed_app.
    + set_solver.
  - rewrite app_nil_r. split; [by destruct (p_user_id p)|]. split.
    + change (p_user_id p ++ colon :: p_warehouse_code p)
        with (p_user_id p ++ [colon] ++ p_warehouse_code p).
      by apply trimmed_app.
    + set_solver.
Qed.

Lemma check_parts_written (pair_str u w c : list ascii) :
  part u -> part w -> part c -> numeric u = true -> numeric c = true ->
  check_parts pair_str u w c =
    inr (string_of_list_ascii u,
         {| Monitor.warehouse := string_of_list_ascii w;
            Monitor.chat_id := string_of_list_ascii c |}).
Proof.
  intros (Hu & Htu & _) (Hw & Htw & _) (Hc & Htc & _) Nu Nc.
  unfold check_parts. rewrite !strip_id by done.
  destruct u as [|u1 u]; [done|]. destruct w as [|w1 w]; [done|].
  destruct c as [|c1 c]; [done|]. by rewrite Nu, Nc.
Qed.

Lemma read_pair_written (p : Pair) :
  well_written p -> read_pair (written p) = inr (meant p).
Proof.
  intros (Hu & Hw & Nu & Hchat). unfold read_pair, written, meant.
  pose proof Hu as (_ & _ & Hcu & _). pose proof Hw as (_ & _ & Hcw & _).
  rewrite split_at_first by done.
  destruct (p_chat_id p) as [chat|]; simpl.
  - destruct Hchat as (Hc & Nc). pose proof Hc as (_ & _ & Hcc & _).
    rewrite split_at_first by done. rewrite split_no_sep by done.
    by apply check_parts_written.
  - rewrite app_nil_r, split_no_sep by done.
    by apply check_parts_written.
Qed.

Lemma read_pairs_written (ps : list Pair) :
  forall admin_config,
    Forall well_written ps ->
    NoDup (admin_config.*1 ++
           (string_of_list_ascii ∘ p_user_id <$> ps)) ->
    read_pairs (written <$> ps) admin_config =
      inr (admin_config ++ (meant <$> ps)).
Proof.
  induction ps as [|p ps IH]; intros d Hall Hnd; simpl.
  - by rewrite app_nil_r.
  - apply Forall_cons in Hall as [Hp Hall].
    rewrite (read_pair_written p Hp).
    change (read_pairs (written <$> ps)
              (dict_set d (string_of_list_ascii (p_user_id p)) (meant p).2) =
            inr (d ++ meant p :: (meant <$> ps))).
    simpl in Hnd.
    apply NoDup_app in Hnd as (Hd & Hout & Hrest).
    apply NoDup_cons in Hrest as [Hfresh Hrest].
    rewrite (proj2 (dict_set_keys d _ (meant p).2)).
    2: { intros Hin. apply (Hout _ Hin). set_solver. }
    rewrite IH; [by rewrite <- app_assoc | done |].
    rewrite fmap_app. simpl. rewrite <- app_assoc. simpl.
    apply NoDup_app. split; [done|]. split.
    + intros x Hx [->|Hin]%elem_of_cons.
      * apply (Hout _ Hx). set_solver.
      * apply (Hout _ Hx). set_solver.
    + by apply NoDup_cons.
Qed.

(** X21. A variable written as [USER_ID:WAREHOUSE_CODE:CHAT_ID] or
    [USER_ID:WAREHOUSE_CODE] pairs joined by commas, for distinct users
    and with parts that pass the checks of the function, is read back as
    it was written: one entry per pair, in the order of the pairs, and a
    pair without a chat gets the user as the chat. *)
Theorem admin_config_reads_back (ps : list Pair) :
  ps <> [] -> Forall well_written ps -> NoDup (p_user_id <$> ps) ->
  get_admin_full_config
    (Some (string_of_list_ascii (join comma (written <$> ps)))) =
    inr (meant <$> ps).
Proof.
  intros Hne Hall Hnd. unfold get_admin_full_config.
  rewrite chars_of_string.
  assert (Hpieces : Forall (fun s => s <> [] /\ trimmed isspace s)
                      (written <$> ps)).
  { apply Forall_fmap. eapply Forall_impl; [exact Hall|].
    intros p Hp. by destruct (written_piece p Hp) as (? & ? & _). }
  assert (Hcommas : Forall (fun s => comma ∉ s) (written <$> ps)).
  { apply Forall_fmap. eapply Forall_impl; [exact Hall|].
    intros p Hp. by destruct (written_piece p Hp) as (_ & _ & ?). }
  assert (Hne' : written <$> ps <> []) by by destruct ps.
  destruct (join_piece (written <$> ps) Hne' Hpieces) as (Hj & Htj).
  destruct (join comma (written <$> ps)) as [|c0 s0] eqn:Hjoin; [done|].
  rewrite (strip_id isspace (c0 :: s0) Htj), <- Hjoin.
  rewrite split_join by done.
  assert (Hsame : filter (fun pair_str => pair_str <> [])
                    (strip isspace <$> (written <$> ps)) = written <$> ps).
  { clear Hjoin Hj Htj Hne' Hcommas Hne Hnd Hall.
    induction Hpieces as [|s l [Hs Ht] _ IH]; [done|].
    rewrite fmap_cons, (strip_id isspace s Ht), filter_cons_True by done.
    by rewrite IH. }
  rewrite Hsame.
  destruct (written <$> ps) as [|w0 ws] eqn:Hw; [done|]. rewrite <- Hw.
  rewrite (read_pairs_written ps [] Hall).
  - simpl. by destruct ps.
  - simpl. rewrite list_fmap_compose. apply NoDup_fmap; [|done].
    intros a b Hab. by rewrite <- (chars_of_string a), Hab, chars_of_string.
Qed.

Lemma admin_config_reads_back_witness :
  get_admin_full_config (Some "111:20:-500,222:25"%string) =
    inr [("111"%string,
          {| Monitor.warehouse := "20"; Monitor.chat_id := "-500" |});
         ("222"%string,
          {| Monitor.warehouse := "25"; Monitor.chat_id := "222" |})].
Proof.
  apply (admin_config_reads_back
           [ {| p_user_id := list_ascii_of_string "111";
                p_warehouse_code := list_ascii_of_string "20";
                p_chat_id := Some (list_ascii_of_string "-500") |};
             {| p_user_id := list_ascii_of_string "222";
                p_warehouse_code := list_ascii_of_string "25";
                p_chat_id := None |} ]).
  - done.
  - assert (Hpart : forall s, s <> [] -> strip isspace s = s ->
              bool_decide (colon ∉ s) = true ->
              bool_decide (comma ∉ s) = true -> part s).
    { intros s Hs Hstrip Hcolon Hcomma. split; [done|]. split.
      - rewrite <- Hstrip. apply strip_trimmed.
      - split; [by apply bool_decide_eq_true in Hcolon
               | by apply bool_decide_eq_true in Hcomma]. }
    apply Forall_cons. split; [|apply Forall_cons; split; [|done]].
    + split; [by apply Hpart|]. split; [by apply Hpart|]. split; [done|].
      split; [by apply Hpart | done].
    + split; [by apply Hpart|]. split; [by apply Hpart|]. by split.
  - simpl. apply NoDup_cons. split; [set_solver|]. apply NoDup_singleton.
Defined.

End SettingsFacts.
